(** * extended-env: Scaleway secrets mapped onto environment variables

    A shallow embedding of [src/modules/scaleway_secrets.ts] and
    [src/modules/base_module.ts], with the types of [src/types.ts], and the
    properties of the secret-mapping component.

    Conventions of the embedding.
    - A JavaScript string is a Rocq [string]; a character stands for one
      code unit in the range U+0000..U+00FF.  Text that is scanned
      character by character is handled as [list ascii] ([text]).  No
      surrogate lies in that range: what the built-in functions do with a
      lone surrogate is outside the embedding.
    - A JavaScript Number is an IEEE 754 binary64 value, [spec_float].
    - An ordinary JavaScript object is the list of its own enumerable
      properties in the order of [OrdinaryOwnPropertyKeys].
    - [process.env] is the environment of the process as Node has it on
      Linux with glibc: a finite map from variable names to strings that is
      written with [setenv] and read with [getenv], names and values being
      C strings.  [Object.prototype] has its standard properties and no
      other.
    - The object [secrets] is the finite map of its own properties together
      with its prototype.
    - A thrown [TypeError] is a value of the type [error]; a method that can
      throw returns its outcome together with the state it leaves behind.
    - The built-in functions the module calls ([String.prototype.trim],
      [JSON.parse], [JSON.stringify], [Number::toString], object spread)
      are written out after ECMA-262. *)

From Stdlib Require Import ZArith Ascii String List Bool Lia.
From Stdlib Require Import Floats.SpecFloat.
From stdpp Require Import base option list strings gmap.

Set Warnings "-register-all".

Open Scope string_scope.
Open Scope list_scope.

(** ** Text *)

Definition text := list ascii.

Definition chars (s : string) : text := list_ascii_of_string s.
Definition str (t : text) : string := string_of_list_ascii t.

Definition code (c : ascii) : N := N_of_ascii c.

Definition dquote : ascii := ascii_of_N 34.
Definition squote : ascii := ascii_of_N 39.
Definition backslash : ascii := ascii_of_N 92.

Definition is_char (a c : ascii) : bool := (code a =? code c)%N.

(** [String.prototype.trim] removes WhiteSpace and LineTerminator code
    points from both ends.  Below U+0100 these are TAB, LF, VT, FF, CR,
    SPACE and NO-BREAK SPACE. *)
Definition is_trim_space (c : ascii) : bool :=
  let n := code c in
  ((9 <=? n) && (n <=? 13) || (n =? 32) || (n =? 160))%N.

Fixpoint trim_start (t : text) : text :=
  match t with
  | c :: r => if is_trim_space c then trim_start r else t
  | [] => []
  end.

Definition trim_end (t : text) : text := rev (trim_start (rev t)).

Definition trim (t : text) : text := trim_end (trim_start t).

(** [s.replaceAll(/\\/g, '')]: every backslash is deleted. *)
Definition remove_backslashes (t : text) : text :=
  List.filter (fun c => negb (is_char backslash c)) t.

Definition startsWith (q : ascii) (t : text) : bool :=
  match t with
  | c :: _ => is_char q c
  | [] => false
  end.

Definition endsWith (q : ascii) (t : text) : bool := startsWith q (rev t).

(** [s.slice(1, -1)]: the text without its first and its last character
    (empty when the text has fewer than two characters). *)
Definition slice_1_m1 (t : text) : text := removelast (tl t).

(** Lines 222-227 of [parseJson]: one pair of surrounding quotes is removed
    when the text starts and ends with the same quote character. *)
Definition strip_quotes (t : text) : text :=
  if (startsWith dquote t && endsWith dquote t)
     || (startsWith squote t && endsWith squote t)
  then slice_1_m1 t
  else t.

(** Line 221 followed by lines 222-227: the text handed to [JSON.parse]. *)
Definition prepare (rawJson : string) : text :=
  strip_quotes (remove_backslashes (trim (chars rawJson))).

(** ** Ordinary objects

    The own enumerable string-keyed properties of an ordinary object, in
    the order of [OrdinaryOwnPropertyKeys]: array indices in ascending
    numeric order first, then the other keys in order of creation. *)

Definition props (A : Type) := list (string * A).

Definition is_digit (c : ascii) : bool :=
  let n := code c in ((48 <=? n) && (n <=? 57))%N.

Definition digit_value (c : ascii) : N := (code c - 48)%N.

Fixpoint digits_value (acc : N) (t : text) : N :=
  match t with
  | c :: r => digits_value (10 * acc + digit_value c)%N r
  | [] => acc
  end.

(** A key is an array index when it is the canonical decimal numeral of an
    integer in the range 0 .. 2^32 - 2. *)
Definition array_index (k : string) : option N :=
  match chars k with
  | [] => None
  | c :: r =>
      if forallb is_digit (c :: r) && (negb (is_char "0" c) || (length r =? 0)%nat)
      then let n := digits_value 0 (c :: r) in
           if (n <? 4294967295)%N then Some n else None
      else None
  end.

Section Props.
Context {A : Type}.

Fixpoint get (k : string) (o : props A) : option A :=
  match o with
  | (k', v) :: r => if String.eqb k k' then Some v else get k r
  | [] => None
  end.

Definition has (k : string) (o : props A) : bool :=
  match get k o with Some _ => true | None => false end.

(** The value of an existing property is replaced in place. *)
Fixpoint replace (k : string) (v : A) (o : props A) : props A :=
  match o with
  | (k', v') :: r =>
      if String.eqb k k' then (k, v) :: r else (k', v') :: replace k v r
  | [] => []
  end.

(** A new array index goes before the first key that is not an array
    index or is a larger one. *)
Fixpoint add_index (n : N) (k : string) (v : A) (o : props A) : props A :=
  match o with
  | (k', v') :: r =>
      match array_index k' with
      | Some n' =>
          if (n' <? n)%N then (k', v') :: add_index n k v r
          else (k, v) :: o
      | None => (k, v) :: o
      end
  | [] => [(k, v)]
  end.

(** [CreateDataProperty(o, k, v)], also the effect of [o[k] = v] and of
    copying a property by object spread. *)
Definition put (k : string) (v : A) (o : props A) : props A :=
  if has k o then replace k v o
  else match array_index k with
       | Some n => add_index n k v o
       | None => o ++ [(k, v)]
       end.

(** An object literal [{ k1: v1, ..., kn: vn }]. *)
Definition literal (l : list (string * A)) : props A :=
  fold_left (fun o kv => put (fst kv) (snd kv) o) l [].

(** Object spread [{ ...o, ...extra }]. *)
Definition spread (o extra : props A) : props A :=
  fold_left (fun o kv => put (fst kv) (snd kv) o) extra o.

Definition Object_entries (o : props A) : list (string * A) := o.
Definition Object_values (o : props A) : list A := map snd o.
End Props.

(** ** Numbers

    The Number type is IEEE 754 binary64.  A finite non-zero value is
    [S754_finite s m e], that is (-1)^s * m * 2^e. *)

Definition number := spec_float.

Definition prec : Z := 53.
Definition emax : Z := 1024.

(** The Number value for the real [n / d] (round to nearest, ties to even). *)
Definition number_of_ratio (neg : bool) (n d : positive) : number :=
  SFdiv prec emax (S754_finite neg n 0) (S754_finite false d 0).

(** The Number value for the real [m * 10^e10]. *)
Definition number_of_decimal (neg : bool) (m : N) (e10 : Z) : number :=
  match m with
  | N0 => S754_zero neg
  | Npos p =>
      match e10 with
      | Zneg k => number_of_ratio neg p (Pos.pow 10 k)
      | Z0 => binary_normalize prec emax (if neg then Zneg p else Zpos p) 0 false
      | Zpos k =>
          let v := (p * Pos.pow 10 k)%positive in
          binary_normalize prec emax (if neg then Zneg v else Zpos v) 0 false
      end
  end.

Definition number_of_nat (n : nat) : number :=
  number_of_decimal false (N.of_nat n) 0.

Definition number_eqb (x y : number) : bool :=
  match x, y with
  | S754_zero a, S754_zero b => Bool.eqb a b
  | S754_infinity a, S754_infinity b => Bool.eqb a b
  | S754_nan, S754_nan => true
  | S754_finite a m e, S754_finite b m' e' =>
      Bool.eqb a b && (m =? m')%positive && (e =? e')%Z
  | _, _ => false
  end.

(** Decimal numeral of a natural number, most significant digit first. *)
Fixpoint decimal_digits (fuel : nat) (n : N) (acc : text) : text :=
  match fuel with
  | O => acc
  | S fuel =>
      let acc := ascii_of_N (48 + n mod 10) :: acc in
      if (n / 10 =? 0)%N then acc else decimal_digits fuel (n / 10)%N acc
  end.

Definition decimal (n : N) : text := decimal_digits (S (N.size_nat n)) n [].

Definition pow10 (k : Z) : N :=
  match k with
  | Zpos p => Npos (Pos.pow 10 p)
  | _ => 1%N
  end.

(** [n / d * 10^p] as a fraction. *)
Definition scale10 (n d : N) (p : Z) : N * N :=
  if (0 <=? p)%Z then (n * pow10 p, d)%N else (n, d * pow10 (- p))%N.

(** The least [n], from [n0] upwards, with [num / den < 10^n]. *)
Fixpoint decimal_exponent (fuel : nat) (num den : N) (n0 : Z) : Z :=
  match fuel with
  | O => n0
  | S fuel =>
      let '(a, b) := scale10 num den (- n0) in
      if (a <? b)%N then n0 else decimal_exponent fuel num den (n0 + 1)
  end.

(** Step 5 of [Number::toString] for a given number [k] of digits: the
    digit string [s] and exponent [n] with [10^(k-1) <= s < 10^k] whose
    value [s * 10^(n-k)] converts back to [x], the nearest one to [x] when
    both neighbours do. *)
Definition shortest_at (x : number) (num den : N) (n0 k : Z) : option (N * Z) :=
  let '(a, b) := scale10 num den (k - n0) in
  let lo := (a / b)%N in
  let r := (a mod b)%N in
  let hi := if (lo + 1 <? pow10 k)%N then ((lo + 1)%N, n0)
            else (pow10 (k - 1), (n0 + 1)%Z) in
  let ok c := number_eqb (number_of_decimal false (fst c) (snd c - k)) x in
  let ok_lo := ok (lo, n0) in
  let ok_hi := negb (r =? 0)%N && ok hi in
  if ok_lo && ok_hi then
    if (2 * r <? b)%N then Some (lo, n0)
    else if (b <? 2 * r)%N then Some hi
    else if N.even lo then Some (lo, n0) else Some hi
  else if ok_lo then Some (lo, n0)
  else if ok_hi then Some hi
  else None.

Fixpoint shortest (fuel : nat) (x : number) (num den : N) (n0 k : Z) : N * Z :=
  match fuel with
  | O => (0%N, 0%Z)
  | S fuel =>
      match shortest_at x num den n0 k with
      | Some c => c
      | None => shortest fuel x num den n0 (k + 1)
      end
  end.

Definition zeros (n : Z) : text := repeat "0"%char (Z.to_nat n).

(** Steps 6 to 10 of [Number::toString]. *)
Definition format_decimal (ds : text) (n : Z) : text :=
  let k := Z.of_nat (length ds) in
  if ((k <=? n) && (n <=? 21))%Z then ds ++ zeros (n - k)
  else if ((0 <? n) && (n <=? 21))%Z then
    take (Z.to_nat n) ds ++ "."%char :: drop (Z.to_nat n) ds
  else if ((-6 <? n) && (n <=? 0))%Z then
    "0"%char :: "."%char :: zeros (- n) ++ ds
  else
    let e := (n - 1)%Z in
    let sign := if (e <? 0)%Z then "-"%char else "+"%char in
    let expo := "e"%char :: sign :: decimal (Z.to_N (Z.abs e)) in
    match ds with
    | [d] => d :: expo
    | d :: rest => d :: "."%char :: rest ++ expo
    | [] => expo
    end.

(** [Number::toString(x)] in radix 10.  The numbers of digits are tried in
    turn from 1; a binary64 value is a decimal of fewer than 800 digits, so
    the search ends (in fact with at most 17 digits). *)
Definition Number_toString (x : number) : text :=
  match x with
  | S754_nan => chars "NaN"
  | S754_zero _ => chars "0"
  | S754_infinity neg => chars (if neg then "-Infinity" else "Infinity")
  | S754_finite neg m e =>
      let '(num, den) :=
        match e with
        | Zneg p => (Npos m, Npos (Pos.pow 2 p))
        | Z0 => (Npos m, 1%N)
        | Zpos p => (Npos (m * Pos.pow 2 p), 1%N)
        end in
      let n0 := decimal_exponent 700 num den (-324) in
      let '(s, n) := shortest 800 (S754_finite false m e) num den n0 1 in
      (if neg then ["-"%char] else []) ++ format_decimal (decimal s) n
  end.

(** ** Structured values

    The values [JSON.parse] can return. *)

Inductive json :=
| JNull
| JBool (b : bool)
| JNumber (x : number)
| JString (s : string)
| JArray (l : list json)
| JObject (o : props json).

Fixpoint join (sep : text) (l : list text) : text :=
  match l with
  | [] => []
  | [x] => x
  | x :: r => x ++ sep ++ join sep r
  end.

(** The results of a list of conversions, when none of them threw. *)
Fixpoint all_converted (l : list (option text)) : option (list text) :=
  match l with
  | [] => Some []
  | Some t :: r =>
      match all_converted r with
      | Some ts => Some (t :: ts)
      | None => None
      end
  | None :: _ => None
  end.

(** [ToString(v)], the conversion [process.env] applies to an assigned
    value; [None] stands for the [TypeError] of [OrdinaryToPrimitive]
    (cannot convert object to primitive value).

    An array has [Array.prototype.toString]: its elements are converted and
    joined with commas, [null] elements giving the empty string.  An object
    is asked for [toString] and then for [valueOf].  A parsed object that
    owns a property [toString] holds a value there that cannot be called,
    and its [valueOf], own or inherited, gives no primitive value, so the
    conversion throws; without such a property [Object.prototype.toString]
    gives [[object Object]]. *)
Fixpoint ToString (v : json) : option text :=
  match v with
  | JNull => Some (chars "null")
  | JBool b => Some (chars (if b then "true" else "false"))
  | JNumber x => Some (Number_toString x)
  | JString s => Some (chars s)
  | JArray l =>
      option_map (join [","%char])
        (all_converted
           (map (fun e => match e with JNull => Some [] | _ => ToString e end) l))
  | JObject o =>
      if has "toString" o then None else Some (chars "[object Object]")
  end.

(** [typeof v === 'object'] *)
Definition typeof_object (v : json) : bool :=
  match v with
  | JNull | JArray _ | JObject _ => true
  | _ => false
  end.

(** [typeof v === 'string'] *)
Definition typeof_string (v : option json) : bool :=
  match v with
  | Some (JString _) => true
  | _ => false
  end.

Definition is_null (v : json) : bool :=
  match v with JNull => true | _ => false end.

(** The own property [k] of an object or an array; [None] is [undefined].
    An array owns its elements under their indices and [length]. *)
Definition own_property (v : json) (k : string) : option json :=
  match v with
  | JObject o => get k o
  | JArray l =>
      if String.eqb k "length" then Some (JNumber (number_of_nat (length l)))
      else match array_index k with
           | Some i => nth_error l (N.to_nat i)
           | None => None
           end
  | _ => None
  end.

(** [Object.prototype.hasOwnProperty.call(v, k)] *)
Definition hasOwnProperty (v : json) (k : string) : bool :=
  match own_property v k with Some _ => true | None => false end.

(** The member access [v.k] for the field names the validator reads.
    [Object.prototype] and [Array.prototype] define none of them, so the
    lookup ends at the own properties. *)
Definition member (v : json) (k : string) : option json := own_property v k.

(** [Object.values(v)]: the own enumerable property values. *)
Definition values_of (v : json) : list json :=
  match v with
  | JObject o => Object_values o
  | JArray l => l
  | _ => []
  end.

(** ** JSON.parse

    The JSON grammar of ECMA-404 as [JSON.parse] reads it.  A [\uXXXX]
    escape above U+00FF has no character in this embedding and is refused;
    [parseJson] deletes every backslash before it parses, so no escape
    reaches the parser from there. *)

Definition is_json_ws (c : ascii) : bool :=
  let n := code c in ((n =? 9) || (n =? 10) || (n =? 13) || (n =? 32))%N.

Fixpoint skip_ws (t : text) : text :=
  match t with
  | c :: r => if is_json_ws c then skip_ws r else t
  | [] => []
  end.

Fixpoint strip_prefix (p t : text) : option text :=
  match p, t with
  | [], _ => Some t
  | a :: p', c :: t' => if is_char a c then strip_prefix p' t' else None
  | _ :: _, [] => None
  end.

Definition hex_value (c : ascii) : option N :=
  let n := code c in
  if ((48 <=? n) && (n <=? 57))%N then Some (n - 48)%N
  else if ((65 <=? n) && (n <=? 70))%N then Some (n - 55)%N
  else if ((97 <=? n) && (n <=? 102))%N then Some (n - 87)%N
  else None.

Definition hex4 (a b c d : ascii) : option N :=
  match hex_value a, hex_value b, hex_value c, hex_value d with
  | Some x, Some y, Some z, Some w => Some (((x * 16 + y) * 16 + z) * 16 + w)%N
  | _, _, _, _ => None
  end.

(** The character a two-character escape sequence stands for. *)
Definition escape (c : ascii) : option ascii :=
  let n := code c in
  if (n =? 34)%N then Some dquote
  else if (n =? 92)%N then Some backslash
  else if (n =? 47)%N then Some "/"%char
  else if (n =? 98)%N then Some (ascii_of_N 8)
  else if (n =? 102)%N then Some (ascii_of_N 12)
  else if (n =? 110)%N then Some (ascii_of_N 10)
  else if (n =? 114)%N then Some (ascii_of_N 13)
  else if (n =? 116)%N then Some (ascii_of_N 9)
  else None.

Definition cons_char (c : ascii) (r : option (string * text)) : option (string * text) :=
  match r with
  | Some (s, rest) => Some (String c s, rest)
  | None => None
  end.

(** A string literal after its opening quote: the characters up to the
    closing quote and the text after it. *)
Fixpoint string_body (t : text) : option (string * text) :=
  match t with
  | [] => None
  | c :: r =>
      if is_char dquote c then Some (EmptyString, r)
      else if is_char backslash c then
        match r with
        | e :: r1 =>
            if is_char "u" e then
              match r1 with
              | h1 :: h2 :: h3 :: h4 :: r2 =>
                  match hex4 h1 h2 h3 h4 with
                  | Some n =>
                      if (n <? 256)%N then cons_char (ascii_of_N n) (string_body r2)
                      else None
                  | None => None
                  end
              | _ => None
              end
            else
              match escape e with
              | Some a => cons_char a (string_body r1)
              | None => None
              end
        | [] => None
        end
      else if (code c <? 32)%N then None
      else cons_char c (string_body r)
  end.

Fixpoint span_digits (t : text) : text * text :=
  match t with
  | c :: r =>
      if is_digit c then let '(ds, rest) := span_digits r in (c :: ds, rest)
      else ([], t)
  | [] => ([], [])
  end.

(** The integer part of a number: [0], or a non-zero digit and more digits. *)
Definition int_part (t : text) : option (text * text) :=
  match t with
  | c :: r =>
      if is_char "0" c then Some ([c], r)
      else if is_digit c then Some (span_digits t)
      else None
  | [] => None
  end.

Definition frac_part (t : text) : option (text * text) :=
  match t with
  | c :: r =>
      if is_char "." c then
        match span_digits r with
        | ([], _) => None
        | (ds, rest) => Some (ds, rest)
        end
      else Some ([], t)
  | [] => Some ([], [])
  end.

Definition exp_part (t : text) : option (Z * text) :=
  match t with
  | c :: r =>
      if is_char "e" c || is_char "E" c then
        let '(neg, r1) :=
          match r with
          | s :: r' =>
              if is_char "-" s then (true, r')
              else if is_char "+" s then (false, r')
              else (false, r)
          | [] => (false, r)
          end in
        match span_digits r1 with
        | ([], _) => None
        | (ds, rest) =>
            let e := Z.of_N (digits_value 0 ds) in
            Some (if neg then (- e)%Z else e, rest)
        end
      else Some (0%Z, t)
  | [] => Some (0%Z, [])
  end.

(** A number literal and its Number value. *)
Definition number_lit (t : text) : option (number * text) :=
  let '(neg, t1) :=
    match t with
    | c :: r => if is_char "-" c then (true, r) else (false, t)
    | [] => (false, t)
    end in
  match int_part t1 with
  | Some (int, t2) =>
      match frac_part t2 with
      | Some (frac, t3) =>
          match exp_part t3 with
          | Some (e, t4) =>
              Some (number_of_decimal neg (digits_value 0 (int ++ frac))
                      (e - Z.of_nat (length frac)), t4)
          | None => None
          end
      | None => None
      end
  | None => None
  end.

Definition keyword (t : text) : option (json * text) :=
  match strip_prefix (chars "true") t with
  | Some r => Some (JBool true, r)
  | None =>
      match strip_prefix (chars "false") t with
      | Some r => Some (JBool false, r)
      | None =>
          match strip_prefix (chars "null") t with
          | Some r => Some (JNull, r)
          | None => None
          end
      end
  end.

Fixpoint value (fuel : nat) (t : text) : option (json * text) :=
  match fuel with
  | O => None
  | S fuel =>
      match skip_ws t with
      | [] => None
      | c :: r =>
          if is_char "{" c then
            match skip_ws r with
            | c' :: r' =>
                if is_char "}" c' then Some (JObject [], r')
                else members fuel (c' :: r') []
            | [] => None
            end
          else if is_char "[" c then
            match skip_ws r with
            | c' :: r' =>
                if is_char "]" c' then Some (JArray [], r')
                else match elements fuel (c' :: r') with
                     | Some (l, rest) => Some (JArray l, rest)
                     | None => None
                     end
            | [] => None
            end
          else if is_char dquote c then
            match string_body r with
            | Some (s, rest) => Some (JString s, rest)
            | None => None
            end
          else if is_digit c || is_char "-" c then
            match number_lit (c :: r) with
            | Some (x, rest) => Some (JNumber x, rest)
            | None => None
            end
          else keyword (c :: r)
      end
  end

with elements (fuel : nat) (t : text) : option (list json * text) :=
  match fuel with
  | O => None
  | S fuel =>
      match value fuel t with
      | Some (v, r) =>
          match skip_ws r with
          | c :: r' =>
              if is_char "," c then
                match elements fuel r' with
                | Some (l, rest) => Some (v :: l, rest)
                | None => None
                end
              else if is_char "]" c then Some ([v], r')
              else None
          | [] => None
          end
      | None => None
      end
  end

with members (fuel : nat) (t : text) (o : props json) : option (json * text) :=
  match fuel with
  | O => None
  | S fuel =>
      match skip_ws t with
      | c :: r =>
          if is_char dquote c then
            match string_body r with
            | Some (k, r1) =>
                match skip_ws r1 with
                | c1 :: r2 =>
                    if is_char ":" c1 then
                      match value fuel r2 with
                      | Some (v, r3) =>
                          match skip_ws r3 with
                          | c3 :: r4 =>
                              if is_char "," c3 then members fuel r4 (put k v o)
                              else if is_char "}" c3 then Some (JObject (put k v o), r4)
                              else None
                          | [] => None
                          end
                      | None => None
                      end
                    else None
                | [] => None
                end
            | None => None
            end
          else None
      | [] => None
      end
  end.

(** [JSON.parse(t)]; [None] stands for the [SyntaxError] it throws. *)
Definition JSON_parse (t : text) : option json :=
  match value (2 * length t + 2) t with
  | Some (v, rest) =>
      match skip_ws rest with
      | [] => Some v
      | _ :: _ => None
      end
  | None => None
  end.

(** ** JSON.stringify *)

Definition hex_digit (n : N) : ascii :=
  if (n <? 10)%N then ascii_of_N (48 + n) else ascii_of_N (87 + n).

(** [QuoteJSONString], one character. *)
Definition quote_char (c : ascii) : text :=
  let n := code c in
  if (n =? 34)%N then [backslash; dquote]
  else if (n =? 92)%N then [backslash; backslash]
  else if (n =? 8)%N then [backslash; "b"%char]
  else if (n =? 12)%N then [backslash; "f"%char]
  else if (n =? 10)%N then [backslash; "n"%char]
  else if (n =? 13)%N then [backslash; "r"%char]
  else if (n =? 9)%N then [backslash; "t"%char]
  else if (n <? 32)%N then
    [backslash; "u"%char; "0"%char; "0"%char; hex_digit (n / 16); hex_digit (n mod 16)]
  else [c].

Definition Quote (s : string) : text :=
  dquote :: flat_map quote_char (chars s) ++ [dquote].

Definition is_finite (x : number) : bool :=
  match x with
  | S754_zero _ | S754_finite _ _ _ => true
  | _ => false
  end.

(** [JSON.stringify(v)] without indentation. *)
Fixpoint JSON_stringify (v : json) : text :=
  match v with
  | JNull => chars "null"
  | JBool b => chars (if b then "true" else "false")
  | JNumber x => if is_finite x then Number_toString x else chars "null"
  | JString s => Quote s
  | JArray l => "["%char :: join [","%char] (map JSON_stringify l) ++ ["]"%char]
  | JObject o =>
      "{"%char ::
      join [","%char]
        (map (fun kv => Quote (fst kv) ++ ":"%char :: JSON_stringify (snd kv)) o)
      ++ ["}"%char]
  end.

(** ** Types of the package ([types.ts]) *)

Inductive SecretType :=
| basic_credentials
| database_credentials
| key_value
| ssh_key.

Record SecretMapping := {
  type : SecretType;
  envMapping : props string
}.

(** The [TypeError]s a method of [scaleway_secrets.ts] can end with, by
    the message they carry. *)
Inductive error :=
| MissingPayload (name : string)
  (* No JSON provided for secret 'name' *)
| InvalidJson (name : string)
  (* Unable to parse JSON secret from 'name': ... *)
| InvalidSecretShape (type : SecretType)
  (* Invalid secret for type 'type', missing or wrong-typed fields. *)
| MissingSecretField (key : string) (type : SecretType) (envVar : string)
  (* Secret key 'key' not found for type 'type'. Cannot map to ... 'envVar'. *)
| NullSecretField (key : string) (type : SecretType) (envVar : string)
  (* Secret property 'key' is null for type 'type'. Cannot map to ... *)
| CannotConvertValue.
  (* Cannot convert object to primitive value: thrown by the assignment to
     [process.env] in [set], not by the module itself. *)

Inductive result (A : Type) :=
| Ok (a : A)
| Throw (e : error).
Arguments Ok {A} a.
Arguments Throw {A} e.

(** The prototype of the object [secrets]: [Object.prototype] when the
    instance is created ([secrets = {}], line 20); an assignment to
    [secrets.__proto__] can replace it with [null] or with a decoded
    object or array. *)
Inductive prototype :=
| ObjectPrototype
| NullPrototype
| ValuePrototype (v : json).

(** The state the module works on: [process.env] and the private field
    [secrets] of the one [ScalewaySecrets] instance, with its own
    properties and its prototype. *)
Record state := {
  process_env : gmap string string;
  secrets : gmap string json;
  secrets_proto : prototype
}.

Definition with_env (st : state) (env : gmap string string) : state :=
  {| process_env := env; secrets := secrets st;
     secrets_proto := secrets_proto st |}.

(** What a call of a [void] method leaves: [None] when it returned, the
    error when it threw, and the state in either case. *)
Definition outcome : Type := option error * state.

(** ** process.env

    An assignment [process.env[key] = value] converts the value with
    [ToString] and hands name and value to [setenv]; a read
    [process.env[key]] asks [getenv] and, when the environment has no such
    variable, goes on to the properties [process.env] inherits from
    [Object.prototype]. *)

(** The C string of a text ends before its first U+0000. *)
Fixpoint c_string (t : text) : text :=
  match t with
  | c :: r => if (code c =? 0)%N then [] else c :: c_string r
  | [] => []
  end.

(** A name [setenv] accepts: not empty and without [=]. *)
Definition valid_name (name : text) : bool :=
  match name with
  | [] => false
  | _ :: _ => forallb (fun c => negb (is_char "="%char c)) name
  end.

(** [setenv(name, value, 1)].  For a name it does not accept it fails with
    [EINVAL] and sets nothing; Node ignores the failure. *)
Definition setenv (name value : text) (env : gmap string string)
  : gmap string string :=
  if valid_name name then <[str name := str value]> env else env.

(** The part of a name before its first [=] and the part after it. *)
Fixpoint split_equals (t : text) : text * option text :=
  match t with
  | [] => ([], None)
  | c :: r =>
      if is_char "="%char c then ([], Some r)
      else let '(n, rest) := split_equals r in (c :: n, rest)
  end.

(** [getenv(name)].  glibc looks for an entry [N=V] of the environment that
    starts with [name] and [=]: for a name without [=] that is the variable
    of this name; for a name [n=rest] it is the variable [n] when its value
    starts with [rest=], and what is read is the value after that. *)
Definition getenv (name : text) (env : gmap string string) : option string :=
  match split_equals name with
  | ([], _) => None
  | (n, None) => env !! str n
  | (n, Some rest) =>
      match env !! str n with
      | Some v => option_map str (strip_prefix (rest ++ ["="%char]) (chars v))
      | None => None
      end
  end.

(** The names of the properties of [Object.prototype]. *)
Definition Object_prototype_names : list string :=
  ["constructor"; "__defineGetter__"; "__defineSetter__"; "hasOwnProperty";
   "__lookupGetter__"; "__lookupSetter__"; "isPrototypeOf";
   "propertyIsEnumerable"; "toString"; "valueOf"; "__proto__";
   "toLocaleString"].

(** The variable an assignment to [process.env[key]] sets, if it sets one. *)
Definition variable_name (key : string) : option string :=
  let name := c_string (chars key) in
  if valid_name name then Some (str name) else None.

(** The string a variable holds after the string [s] was assigned to it. *)
Definition env_value (s : text) : string := str (c_string s).

(** ** base_module.ts *)

Module BaseModule.

(** [set(key, value)], lines 7-9: [process.env[key] = value].  The value is
    converted first, and the assignment throws when it has no conversion;
    [None] stands for that [TypeError]. *)
Definition set (key : string) (value : json) (env : gmap string string)
  : option (gmap string string) :=
  match ToString value with
  | Some s => Some (setenv (c_string (chars key)) (c_string s) env)
  | None => None
  end.

(** [exists(key)], lines 16-18: [process.env[key] !== undefined].  ([exists]
    is a keyword of Rocq, hence the underscore.) *)
Definition exists_ (key : string) (st : state) : bool :=
  match getenv (c_string (chars key)) (process_env st) with
  | Some _ => true
  | None => existsb (String.eqb key) Object_prototype_names
  end.

End BaseModule.

(** ** scaleway_secrets.ts *)

Module ScalewaySecrets.

(** Lines 177-205. *)
Definition verify (secretValue : json) (type : SecretType) : bool :=
  if negb (typeof_object secretValue) || is_null secretValue then false
  else
    let obj := secretValue in
    match type with
    | basic_credentials =>
        typeof_string (member obj "username") &&
        typeof_string (member obj "password")
    | database_credentials =>
        typeof_string (member obj "engine") &&
        typeof_string (member obj "username") &&
        typeof_string (member obj "password") &&
        typeof_string (member obj "host") &&
        typeof_string (member obj "dbname") &&
        typeof_string (member obj "port")
    | key_value =>
        forallb (fun v => typeof_string (Some v)) (values_of obj)
    | ssh_key => typeof_string (member obj "ssh_private_key")
    end.

(** The loop of lines 146-165 over the entries still to be mapped. *)
Fixpoint mapEntries (secretValue : json) (type : SecretType)
    (entries : list (string * string)) (env : gmap string string)
  : option error * gmap string string :=
  match entries with
  | [] => (None, env)
  | (key, envVar) :: rest =>
      if negb (hasOwnProperty secretValue key) then
        (Some (MissingSecretField key type envVar), env)
      else
        match own_property secretValue key with
        | None | Some JNull => (Some (NullSecretField key type envVar), env)
        | Some value =>
            match BaseModule.set envVar value env with
            | Some env' => mapEntries secretValue type rest env'
            | None => (Some CannotConvertValue, env)
            end
        end
  end.

(** Lines 137-166. *)
Definition mapSecret (secretValue : json) (mapping : SecretMapping)
    (st : state) : outcome :=
  if negb (verify secretValue (type mapping)) then
    (Some (InvalidSecretShape (type mapping)), st)
  else
    let '(r, env) :=
      mapEntries secretValue (type mapping)
        (Object_entries (envMapping mapping)) (process_env st) in
    (r, with_env st env).

(** Lines 216-236.  [!rawJson] holds for [undefined] and for the empty
    string. *)
Definition parseJson (name : string) (rawJson : option string) : result json :=
  match rawJson with
  | None => Throw (MissingPayload name)
  | Some raw =>
      if String.eqb raw EmptyString then Throw (MissingPayload name)
      else
        match JSON_parse (prepare raw) with
        | Some v => Ok v
        | None => Throw (InvalidJson name)
        end
  end.

(** The setter of [Object.prototype.__proto__] called on [secrets]: an
    object, an array or [null] becomes the prototype, any other value is
    ignored. *)
Definition set_prototype (parsed : json) (st : state) : state :=
  match parsed with
  | JNull =>
      {| process_env := process_env st; secrets := secrets st;
         secrets_proto := NullPrototype |}
  | JObject _ | JArray _ =>
      {| process_env := process_env st; secrets := secrets st;
         secrets_proto := ValuePrototype parsed |}
  | _ => st
  end.

(** [this.secrets[name] = parsed] (lines 262 and 270), after [OrdinarySet].
    An own property is overwritten.  Otherwise the prototype chain is asked:
    the one property on it that is not a writable data property is the
    accessor [__proto__] of [Object.prototype], whose setter is then called;
    it is reached unless [secrets] has no prototype any more, or has one
    that owns a property [__proto__].  In every other case [secrets] gets
    the own property. *)
Definition remember (name : string) (parsed : json) (st : state) : state :=
  let own :=
    {| process_env := process_env st;
       secrets := <[name := parsed]> (secrets st);
       secrets_proto := secrets_proto st |} in
  if negb (String.eqb name "__proto__") then own
  else
    match secrets st !! name with
    | Some _ => own
    | None =>
        match secrets_proto st with
        | ObjectPrototype => set_prototype parsed st
        | NullPrototype => own
        | ValuePrototype p =>
            if hasOwnProperty p name then own else set_prototype parsed st
        end
    end.

(** A [SecretHandler]: the function itself and its [optional] variant. *)
Record SecretHandler := {
  handle : string -> option string -> state -> outcome;
  optional : string -> option string -> state -> outcome
}.

(** Lines 259-275. *)
Definition createHandler (mapping : SecretMapping) : SecretHandler :=
  let handler name rawJson st :=
    match parseJson name rawJson with
    | Throw e => (Some e, st)
    | Ok parsed => mapSecret parsed mapping (remember name parsed st)
    end in
  {| handle := handler;
     optional := fun name rawJson st =>
       match rawJson with
       | None => (None, st)
       | Some raw =>
           if String.eqb raw EmptyString then (None, st)
           else
             match parseJson name rawJson with
             | Throw e => (Some e, st)
             | Ok parsed => mapSecret parsed mapping (remember name parsed st)
             end
       end |}.

(** A [SecretMethod]: called with the caller's mapping, or with none. *)
Record SecretMethod := {
  method : option (props string) -> SecretHandler;
  method_optional :
    option (props string) -> string -> option string -> state -> outcome
}.

(** Lines 245-249; a missing argument defaults to the empty object. *)
Definition makeSecretMethod (mappingFactory : props string -> SecretMapping)
  : SecretMethod :=
  let method (mapping : option (props string)) :=
    createHandler (mappingFactory (default [] mapping)) in
  {| method := method;
     method_optional := fun mapping => optional (method mapping) |}.

(** Lines 40-54: the mapping factory of [database] and the method. *)
Definition database_mapping (mapping : props string) : SecretMapping :=
  {| type := database_credentials;
     envMapping :=
       spread
         (literal [("engine", "DB_CONNECTION");
                   ("host", "DB_HOST");
                   ("port", "DB_PORT");
                   ("username", "DB_USER");
                   ("password", "DB_PASSWORD");
                   ("dbname", "DB_DATABASE")])
         mapping |}.

Definition database : SecretMethod := makeSecretMethod database_mapping.

(** Lines 73-83. *)
Definition credentials_mapping (mapping : props string) : SecretMapping :=
  {| type := basic_credentials;
     envMapping :=
       spread
         (literal [("username", "USERNAME");
                   ("password", "PASSWORD")])
         mapping |}.

Definition credentials : SecretMethod := makeSecretMethod credentials_mapping.

(** Lines 99-105.  The caller's mapping is used as it is, without
    defaults. *)
Definition kv_mapping (mapping : props string) : SecretMapping :=
  {| type := key_value; envMapping := mapping |}.

Definition kv : SecretMethod := makeSecretMethod kv_mapping.

(** Lines 121-127.  As for [kv], the caller's mapping is used as it is. *)
Definition ssh_mapping (mapping : props string) : SecretMapping :=
  {| type := ssh_key; envMapping := mapping |}.

Definition ssh : SecretMethod := makeSecretMethod ssh_mapping.

End ScalewaySecrets.

Import BaseModule ScalewaySecrets.

(** * Vocabulary of the properties *)

(** ** Projection *)

(** The fields of each secret shape ([types.ts]); [KeyValue] has no fixed
    field. *)
Definition required_fields (type : SecretType) : list string :=
  match type with
  | basic_credentials => ["username"; "password"]
  | database_credentials =>
      ["engine"; "username"; "password"; "host"; "dbname"; "port"]
  | key_value => []
  | ssh_key => ["ssh_private_key"]
  end.

(** The value has a string conversion. *)
Definition convertible (value : json) : bool :=
  match ToString value with
  | Some _ => true
  | None => false
  end.

(** A field the loop of [mapSecret] gets past: an own property that is not
    [null] and that [set] can convert to a string. *)
Definition mappable (secretValue : json) (key : string) : bool :=
  match own_property secretValue key with
  | Some value => negb (is_null value) && convertible value
  | None => false
  end.

(** The error the loop of [mapSecret] throws at an entry it does not get
    past. *)
Definition failure (secretValue : json) (type : SecretType)
    (key envVar : string) : error :=
  match own_property secretValue key with
  | None => MissingSecretField key type envVar
  | Some value =>
      if is_null value then NullSecretField key type envVar
      else CannotConvertValue
  end.

(** The assignment one accepted entry makes, and those of a list of entries
    from left to right. *)
Definition write (secretValue : json) (env : gmap string string)
    (entry : string * string) : gmap string string :=
  match own_property secretValue (fst entry) with
  | Some value =>
      match BaseModule.set (snd entry) value env with
      | Some env' => env'
      | None => env
      end
  | None => env
  end.

Definition writes (secretValue : json) (entries : list (string * string))
    (env : gmap string string) : gmap string string :=
  fold_left (write secretValue) entries env.

Definition database_defaults : props string :=
  literal [("engine", "DB_CONNECTION"); ("host", "DB_HOST");
           ("port", "DB_PORT"); ("username", "DB_USER");
           ("password", "DB_PASSWORD"); ("dbname", "DB_DATABASE")].

(** ** The order of own properties *)

(** [k] may come before [k'] in an object: the keys differ, and when [k'] is
    an array index, [k] is a smaller one. *)
Definition precedes (k k' : string) : Prop :=
  k <> k' /\
  match array_index k' with
  | Some b =>
      match array_index k with
      | Some a => (a < b)%N
      | None => False
      end
  | None => True
  end.

Fixpoint canonical_keys (ks : list string) : Prop :=
  match ks with
  | [] => True
  | k :: r => Forall (precedes k) r /\ canonical_keys r
  end.

(** The keys of an object are in the order of [OrdinaryOwnPropertyKeys]. *)
Definition canonical {A : Type} (o : props A) : Prop :=
  canonical_keys (map fst o).

(** A numeral without leading zero; the empty one stands for zero. *)
Definition numeral (t : text) : Prop :=
  forallb is_digit t = true /\
  match t with
  | c :: _ => is_char "0" c = false
  | [] => True
  end.

(** ** Number literals *)

(** The characters a number literal is made of. *)
Definition is_number_char (c : ascii) : bool :=
  is_digit c || is_char "-" c || is_char "+" c || is_char "." c
  || is_char "e" c || is_char "E" c.

(** A text that cannot continue a number literal. *)
Definition stop (rest : text) : Prop :=
  match rest with
  | c :: _ => is_number_char c = false
  | [] => True
  end.

(** What a part of a number literal reads is made of number characters,
    and it reads the same when the text goes on with something that cannot
    continue a number. *)
Definition reads {A : Type} (f : text -> option (A * text)) : Prop :=
  forall t a r, f t = Some (a, r) ->
    (exists c, t = c ++ r /\ forallb is_number_char c = true) /\
    forall rest, (r = [] -> stop rest) -> f (t ++ rest) = Some (a, r ++ rest).

(** A number literal after its sign. *)
Definition unsigned_lit (neg : bool) (t1 : text) : option (number * text) :=
  match int_part t1 with
  | Some (int, t2) =>
      match frac_part t2 with
      | Some (frac, t3) =>
          match exp_part t3 with
          | Some (e, t4) =>
              Some (number_of_decimal neg (digits_value 0 (int ++ frac))
                      (e - Z.of_nat (length frac)), t4)
          | None => None
          end
      | None => None
      end
  | None => None
  end.

(** A number that is finite and is read back from its own numeral. *)
Definition stable_number (x : number) : bool :=
  is_finite x &&
  match number_lit (Number_toString x) with
  | Some (y, []) => number_eqb y x
  | _ => false
  end.

Fixpoint stable_numbers (v : json) : bool :=
  match v with
  | JNumber x => stable_number x
  | JArray l => forallb stable_numbers l
  | JObject o => forallb (fun kv => stable_numbers (snd kv)) o
  | _ => true
  end.

(** A number that is finite and is not [-0]. *)
Definition writable_number (x : number) : bool :=
  match x with
  | S754_zero neg => negb neg
  | S754_finite _ _ _ => true
  | _ => false
  end.

(** The numbers of the value are finite and none is [-0]. *)
Fixpoint writable_numbers (v : json) : bool :=
  match v with
  | JNumber x => writable_number x
  | JArray l => forallb writable_numbers l
  | JObject o => forallb (fun kv => writable_numbers (snd kv)) o
  | _ => true
  end.

(** ** The decimal expansion of a Number *)

(** [10^p] as a fraction: numerator and denominator. *)
Definition ten_up (p : Z) : Z := (10 ^ Z.max p 0)%Z.
Definition ten_down (p : Z) : Z := (10 ^ Z.max (- p) 0)%Z.

(** [num / den < 10^n]. *)
Definition below (num den : N) (n : Z) : Prop :=
  (Z.of_N num * ten_up (- n) < Z.of_N den * ten_down (- n))%Z.

(** The fraction [m * 2^e], as [Number::toString] has it. *)
Definition float_fraction (m : positive) (e : Z) : N * N :=
  match e with
  | Zneg p => (Npos m, Npos (Pos.pow 2 p))
  | Z0 => (Npos m, 1%N)
  | Zpos p => (Npos (m * Pos.pow 2 p), 1%N)
  end.

(** A numeral of [k] digits. *)
Definition has_digits (s : N) (k : Z) : Prop :=
  (10 ^ (k - 1) <= Z.of_N s < 10 ^ k)%Z.

(** ** Values and their texts *)

(** A character that a string literal holds as it is. *)
Definition plain_char (c : ascii) : bool :=
  negb (code c <? 32)%N && negb (is_char dquote c) && negb (is_char backslash c).

Definition plain (s : string) : bool := forallb plain_char (chars s).

(** A text without backslash. *)
Definition clean (t : text) : Prop :=
  Forall (fun c => is_char backslash c = false) t.

(** The numbers of the value are binary64 values, its strings and keys are
    plain and the keys of its objects are in order. *)
Inductive good : json -> Prop :=
| good_null : good JNull
| good_bool b : good (JBool b)
| good_number x : valid_binary prec emax x = true -> good (JNumber x)
| good_string s : plain s = true -> good (JString s)
| good_array l : Forall good l -> good (JArray l)
| good_object o :
    canonical o ->
    Forall (fun kv => plain (fst kv) = true /\ good (snd kv)) o ->
    good (JObject o).

Section JsonInduction.
Variable P : json -> Prop.
Hypothesis Hnull : P JNull.
Hypothesis Hbool : forall b, P (JBool b).
Hypothesis Hnumber : forall x, P (JNumber x).
Hypothesis Hstring : forall s, P (JString s).
Hypothesis Harray : forall l, Forall P l -> P (JArray l).
Hypothesis Hobject : forall o, Forall (fun kv => P (snd kv)) o -> P (JObject o).

Fixpoint json_nested_ind (v : json) : P v :=
  match v with
  | JNull => Hnull
  | JBool b => Hbool b
  | JNumber x => Hnumber x
  | JString s => Hstring s
  | JArray l =>
      Harray l
        ((fix all (l : list json) : Forall P l :=
            match l with
            | [] => List.Forall_nil P
            | x :: r => List.Forall_cons P x r (json_nested_ind x) (all r)
            end) l)
  | JObject o =>
      Hobject o
        ((fix all (o : props json) : Forall (fun kv => P (snd kv)) o :=
            match o with
            | [] => List.Forall_nil _
            | kv :: r =>
                List.Forall_cons (fun kv => P (snd kv)) kv r
                  (json_nested_ind (snd kv)) (all r)
            end) o)
  end.
End JsonInduction.

(** The characters a serialised value can start with. *)
Definition is_start (c : ascii) : bool :=
  is_digit c || is_char "-" c || is_char "{" c || is_char "[" c
  || is_char dquote c || is_char "n" c || is_char "t" c || is_char "f" c.

Definition elements_text (l : list json) : text :=
  join [","%char] (map JSON_stringify l).

Definition member_text (kv : string * json) : text :=
  Quote (fst kv) ++ ":"%char :: JSON_stringify (snd kv).

Definition members_text (o : props json) : text :=
  join [","%char] (map member_text o).

(** The parser returns [v] from the text of [v], whatever follows it that
    cannot continue a number. *)
Definition reads_back (v : json) : Prop :=
  forall fuel rest,
    length (JSON_stringify v) <= fuel -> stop rest ->
    value fuel (JSON_stringify v ++ rest) = Some (v, rest).

(** ** Example payloads and values *)

(** In the payloads below ['] stands for the double quote. *)
Definition dq (s : string) : string :=
  str (map (fun c => if is_char squote c then dquote else c) (chars s)).

(** The state of a fresh instance in an empty environment. *)
Definition no_state : state :=
  {| process_env := ∅; secrets := ∅; secrets_proto := ObjectPrototype |}.

Definition basic_payload : string := dq "{'username':'a','password':'b'}".

Definition basic_value : json :=
  JObject [("username", JString "a"); ("password", JString "b")].

Definition basic_value_with_null : json :=
  JObject [("username", JString "a"); ("password", JString "b");
           ("token", JNull)].

Definition database_payload : string :=
  dq "{'engine':'pg','username':'u','password':'p','host':'h','dbname':'d','port':'5432'}".

Definition database_value : json :=
  JObject [("engine", JString "pg"); ("username", JString "u");
           ("password", JString "p"); ("host", JString "h");
           ("dbname", JString "d"); ("port", JString "5432")].

Definition database_payload_without_dbname : string :=
  dq "{'engine':'pg','username':'u','password':'p','host':'h','port':'5432'}".

Definition database_value_without_dbname : json :=
  JObject [("engine", JString "pg"); ("username", JString "u");
           ("password", JString "p"); ("host", JString "h");
           ("port", JString "5432")].

Definition ssh_payload : string := dq "{'ssh_private_key':'KEY'}".

Definition ssh_value : json := JObject [("ssh_private_key", JString "KEY")].

(** A payload with numbers, an array, a keyword and an array index as key. *)
Definition service_payload : string :=
  dq " { 'name': 'db', 'port': 5432, 'ratio': 0.1, 'tags': ['a', 'b'], '7': null } ".

Definition service_value : json :=
  JObject [("7", JNull);
           ("name", JString "db");
           ("port", JNumber (number_of_decimal false 5432 0));
           ("ratio", JNumber (number_of_decimal false 1 (-1)));
           ("tags", JArray [JString "a"; JString "b"])].

(** The payload [{"a":"b"}] inside two pairs of double quotes. *)
Definition twice_quoted_payload : string := dq "''{'a':'b'}''".


(** ** The effect of a mapping *)

(** The entries the loop of [mapSecret] maps before it stops. *)
Fixpoint mapped_prefix (secretValue : json) (entries : list (string * string))
  : list (string * string) :=
  match entries with
  | [] => []
  | e :: rest =>
      if mappable secretValue (fst e) then e :: mapped_prefix secretValue rest
      else []
  end.

(** The error the loop of [mapSecret] throws, if it throws. *)
Fixpoint first_failure (secretValue : json) (type : SecretType)
    (entries : list (string * string)) : option error :=
  match entries with
  | [] => None
  | (key, envVar) :: rest =>
      if mappable secretValue key then first_failure secretValue type rest
      else Some (failure secretValue type key envVar)
  end.

(** The entry assigns the variable [name]: its target, as a C string, is
    this name, and [setenv] accepts it. *)
Definition assigns (entry : string * string) (name : string) : bool :=
  match variable_name (snd entry) with
  | Some n => String.eqb n name
  | None => false
  end.

(** What one entry leaves of the string written to the variable [name] so
    far. *)
Definition written_step (secretValue : json) (name : string)
    (acc : option string) (entry : string * string) : option string :=
  if assigns entry name then
    match own_property secretValue (fst entry) with
    | Some value =>
        match ToString value with
        | Some s => Some (env_value s)
        | None => acc
        end
    | None => acc
    end
  else acc.

(** The string the assignments of [entries] leave in the variable [name],
    if any of them assigns it: the one of the last entry that does. *)
Definition written (secretValue : json) (entries : list (string * string))
    (name : string) : option string :=
  fold_left (written_step secretValue name) entries None.

(** The targets of a mapping, as the mapping names them. *)
Definition targets (mapping : SecretMapping) : list string :=
  map snd (Object_entries (envMapping mapping)).

(** The variables the entries assign. *)
Fixpoint variables (entries : list (string * string)) : list string :=
  match entries with
  | [] => []
  | e :: rest =>
      match variable_name (snd e) with
      | Some name => name :: variables rest
      | None => variables rest
      end
  end.

(** The variables a mapping assigns. *)
Definition assigned (mapping : SecretMapping) : list string :=
  variables (Object_entries (envMapping mapping)).

(** A key that has no [=] before its first U+0000. *)
Definition no_equals (key : string) : bool :=
  forallb (fun c => negb (is_char "="%char c)) (c_string (chars key)).

(** Two keys name one variable. *)
Definition same_variable (key key' : string) : bool :=
  match variable_name key, variable_name key' with
  | Some name, Some name' => String.eqb name name'
  | _, _ => false
  end.

(** ** Shapes and payloads *)

(** A secret of every kind but [key_value] has fixed fields. *)
Definition has_fixed_fields (type : SecretType) : bool :=
  match type with
  | key_value => false
  | _ => true
  end.

(** The characters of a text are all white space of [trim]. *)
Definition blank (t : text) : bool := forallb is_trim_space t.

(** ** More examples *)

(** A mapping that sends two fields to one variable. *)
Definition shared_target_mapping : SecretMapping :=
  {| type := basic_credentials;
     envMapping := literal [("username", "LOGIN"); ("password", "LOGIN")] |}.

(** A payload that is not JSON. *)
Definition broken_payload : string := "{not json".

(** A state in which variables and a cached secret exist already. *)
Definition busy_state : state :=
  {| process_env := <["PORT" := "3333"]> (<["USERNAME" := "old"]> ∅);
     secrets := <["OTHER" := JNull]> ∅;
     secrets_proto := ObjectPrototype |}.

(** A mapping with a target that [setenv] refuses, before a field that is
    [null] in [basic_value_with_null]. *)
Definition mapping_with_refused_target : SecretMapping :=
  credentials_mapping (literal [("username", "A=B"); ("token", "TOKEN")]).

(** A mapping of the one field of an SSH key to the empty name. *)
Definition mapping_to_empty_name : SecretMapping :=
  ssh_mapping (literal [("ssh_private_key", EmptyString)]).

(** A well-formed database secret with a field the shape does not know. *)
Definition database_value_with_extra : json :=
  JObject [("engine", JString "pg"); ("username", JString "u");
           ("password", JString "p"); ("host", JString "h");
           ("dbname", JString "d"); ("port", JString "5432");
           ("sslmode", JBool true)].

(** A [key_value] secret and a mapping that names a key it lacks. *)
Definition kv_value : json :=
  JObject [("api_key", JString "k"); ("mode", JString "m")].

Definition kv_mapping_with_missing_key : SecretMapping :=
  kv_mapping (literal [("api_key", "SERVICE_API_KEY"); ("region", "REGION")]).

(** A payload with an escaped backslash and an escaped quote. *)
Definition escaped_payload : string :=
  dq "{'password':'a" ++ String backslash (String backslash "b")
  ++ String backslash (dq "'c'}").

(** * Properties *)

(** ** The optional handler *)

(** C8: for every secret name and every mapping, the optional handler
    called without a payload returns normally and leaves the whole state,
    [process.env] and the decoded-secret cache, as it was.  The same holds
    for the optional variant that a secret method hands out directly. *)
Theorem optional_absent_is_noop (mapping : SecretMapping)
    (factory : props string -> SecretMapping) (override : option (props string))
    (name : string) (st : state) :
  optional (createHandler mapping) name None st = (None, st) /\
  method_optional (makeSecretMethod factory) override name None st = (None, st).
Proof. split; reflexivity. Qed.

(** ** Shape failures *)

Lemma set_prototype_env parsed st :
  process_env (set_prototype parsed st) = process_env st.
Proof. by destruct parsed. Qed.

Lemma remember_env name parsed st :
  process_env (remember name parsed st) = process_env st.
Proof.
  unfold remember. destruct (negb _); [done|].
  destruct (secrets st !! name); [done|].
  destruct (secrets_proto st) as [| |p]; [apply set_prototype_env|done|].
  destruct (hasOwnProperty p name); [done|apply set_prototype_env].
Qed.

Lemma parseJson_Ok_nonempty name rawJson parsed :
  parseJson name rawJson = Ok parsed ->
  exists raw, rawJson = Some raw /\ String.eqb raw EmptyString = false /\
              JSON_parse (prepare raw) = Some parsed.
Proof.
  unfold parseJson. destruct rawJson as [raw|]; [|discriminate].
  destruct (String.eqb raw EmptyString) eqn:E; [discriminate|].
  destruct (JSON_parse (prepare raw)) eqn:P; [|discriminate].
  intros [= <-]. eauto.
Qed.

(** On a payload that decodes, the required and the optional handler do
    the same: remember the decoded value, then map it. *)
Lemma handle_decoded mapping name rawJson parsed st :
  parseJson name rawJson = Ok parsed ->
  handle (createHandler mapping) name rawJson st
    = mapSecret parsed mapping (remember name parsed st) /\
  optional (createHandler mapping) name rawJson st
    = mapSecret parsed mapping (remember name parsed st).
Proof.
  intros H. destruct (parseJson_Ok_nonempty _ _ _ H) as (raw & -> & E & _).
  cbn [handle optional createHandler]. rewrite E, H. split; reflexivity.
Qed.

(** C3: when the decoded value fails the structural check of the handler's
    kind, the required handler throws [InvalidSecretShape] for that kind and
    [process.env] is exactly what it was before the call. *)
Theorem invalid_shape_writes_nothing (mapping : SecretMapping)
    (name : string) (rawJson : option string) (parsed : json) (st : state) :
  parseJson name rawJson = Ok parsed ->
  verify parsed (type mapping) = false ->
  exists st',
    handle (createHandler mapping) name rawJson st
      = (Some (InvalidSecretShape (type mapping)), st') /\
    process_env st' = process_env st.
Proof.
  intros Hparse Hverify.
  exists (remember name parsed st). split; [|apply remember_env].
  rewrite (proj1 (handle_decoded mapping _ _ _ st Hparse)).
  unfold mapSecret. rewrite Hverify. reflexivity.
Qed.

Lemma invalid_shape_writes_nothing_witness :
  parseJson "DB" (Some database_payload_without_dbname)
    = Ok database_value_without_dbname /\
  verify database_value_without_dbname database_credentials = false /\
  exists st',
    handle (method database None) "DB" (Some database_payload_without_dbname)
      no_state
      = (Some (InvalidSecretShape database_credentials), st') /\
    process_env st' = process_env no_state.
Proof.
  split; [vm_compute; reflexivity|]. split; [vm_compute; reflexivity|].
  apply (invalid_shape_writes_nothing (database_mapping [])
           "DB" (Some database_payload_without_dbname)
           database_value_without_dbname no_state).
  - vm_compute; reflexivity.
  - vm_compute; reflexivity.
Defined.

(** ** Own properties of objects *)

Section PropsFacts.
Context {A : Type}.
Implicit Types (o : props A) (k : string) (v : A).

Lemma has_get k o : has k o = true <-> is_Some (get k o).
Proof.
  unfold has. destruct (get k o); split; intros H; try done; eauto.
Qed.

Lemma get_replace k k' v o :
  get k (replace k' v o) =
    if String.eqb k k' then (if has k' o then Some v else None) else get k o.
Proof.
  unfold has. induction o as [|[k1 v1] o IH]; cbn.
  - by destruct (String.eqb k k').
  - destruct (String.eqb k' k1) eqn:E1; cbn.
    + apply String.eqb_eq in E1 as <-.
      destruct (String.eqb k k') eqn:E; [done|]. done.
    + rewrite IH. destruct (String.eqb k k') eqn:E.
      * apply String.eqb_eq in E as ->. by rewrite E1.
      * done.
Qed.

Lemma get_add_index n k k' v o :
  get k' o = None ->
  get k (add_index n k' v o) = if String.eqb k k' then Some v else get k o.
Proof.
  induction o as [|[k1 v1] o IH]; cbn; intros Hnew.
  - by destruct (String.eqb k k').
  - destruct (String.eqb k' k1) eqn:E1; [done|].
    destruct (array_index k1) as [n1|]; [destruct (n1 <? n)%N|]; cbn;
      rewrite ?IH by done; destruct (String.eqb k k') eqn:E; try done.
    apply String.eqb_eq in E as ->. by rewrite E1.
Qed.

Lemma get_app k o o' :
  get k (o ++ o') = match get k o with Some v => Some v | None => get k o' end.
Proof.
  induction o as [|[k1 v1] o IH]; cbn; [done|].
  by destruct (String.eqb k k1).
Qed.

(** Reading after [CreateDataProperty]. *)
Lemma get_put k k' v o :
  get k (put k' v o) = if String.eqb k k' then Some v else get k o.
Proof.
  unfold put. destruct (has k' o) eqn:H.
  - rewrite get_replace, H. done.
  - destruct (array_index k') as [n|].
    + apply get_add_index. unfold has in H. by destruct (get k' o).
    + rewrite get_app. cbn. destruct (String.eqb k k') eqn:E.
      * apply String.eqb_eq in E as ->. unfold has in H.
        by destruct (get k' o).
      * by destruct (get k o).
Qed.

(** Object spread: a property of the spread object wins over the one it is
    spread onto. *)
Lemma get_spread k o extra :
  NoDup (map fst extra) ->
  get k (spread o extra) =
    match get k extra with Some v => Some v | None => get k o end.
Proof.
  unfold spread. revert o. induction extra as [|[k1 v1] extra IH]; intros o Hnd.
  - done.
  - cbn in *. apply NoDup_cons in Hnd as [Hk1 Hnd]. rewrite IH by done.
    destruct (String.eqb k k1) eqn:E.
    + apply String.eqb_eq in E as ->.
      destruct (get k1 extra) eqn:G.
      * exfalso. apply Hk1. clear -G. induction extra as [|[k2 v2] extra IH];
          cbn in *; [done|]. destruct (String.eqb k1 k2) eqn:E.
        -- apply String.eqb_eq in E as ->. left.
        -- right. auto.
      * by rewrite get_put, String.eqb_refl.
    + destruct (get k extra); [done|]. by rewrite get_put, E.
Qed.

End PropsFacts.

(** ** Projection *)

Lemma str_chars s : str (chars s) = s.
Proof. apply string_of_list_ascii_of_string. Qed.

Lemma chars_str t : chars (str t) = t.
Proof. apply list_ascii_of_string_of_list_ascii. Qed.

Lemma with_env_same st : with_env st (process_env st) = st.
Proof. by destruct st. Qed.

(** *** Assignments to [process.env] *)

(** What a variable holds after [setenv] was called for the target of an
    entry. *)
Lemma lookup_setenv entry t env x :
  setenv (c_string (chars (snd entry))) t env !! x =
    if assigns entry x then Some (str t) else env !! x.
Proof.
  unfold setenv, assigns, variable_name.
  destruct (valid_name (c_string (chars (snd entry)))); [|done].
  destruct (String.eqb _ x) eqn:E.
  - apply String.eqb_eq in E as <-. by rewrite lookup_insert_eq.
  - apply String.eqb_neq in E. by rewrite lookup_insert_ne.
Qed.

Lemma setenv_variable key name t env :
  variable_name key = Some name ->
  setenv (c_string (chars key)) t env = <[name := str t]> env.
Proof.
  unfold variable_name, setenv.
  destruct (valid_name (c_string (chars key))); [|done]. by intros [= <-].
Qed.

Lemma setenv_refused key t env :
  variable_name key = None -> setenv (c_string (chars key)) t env = env.
Proof.
  unfold variable_name, setenv.
  by destruct (valid_name (c_string (chars key))).
Qed.

Lemma mappable_own v key :
  mappable v key = true <->
  exists value s,
    own_property v key = Some value /\ value <> JNull /\
    ToString value = Some s.
Proof.
  unfold mappable, convertible. split.
  - destruct (own_property v key) as [value|]; [|done].
    destruct (ToString value) as [s|] eqn:Hs; [|by rewrite andb_false_r].
    intros H. exists value, s. split; [done|]. split; [|done].
    intros ->. discriminate H.
  - intros (value & s & -> & Hnull & ->). by destruct value.
Qed.

(** The assignment of an entry the loop gets past. *)
Lemma write_mappable v env key envVar value s :
  own_property v key = Some value -> ToString value = Some s ->
  write v env (key, envVar)
    = setenv (c_string (chars envVar)) (c_string s) env.
Proof.
  intros Hown Hs. unfold write, BaseModule.set. cbn [fst snd].
  by rewrite Hown, Hs.
Qed.

Lemma mapEntries_app v type pre post env :
  (forall e, In e pre -> mappable v (fst e) = true) ->
  mapEntries v type (pre ++ post) env
    = mapEntries v type post (writes v pre env).
Proof.
  revert env. induction pre as [|[key envVar] pre IH]; intros env Hpre; [done|].
  cbn [app mapEntries].
  change (writes v ((key, envVar) :: pre) env)
    with (writes v pre (write v env (key, envVar))).
  assert (Hk : mappable v key = true) by (apply (Hpre (key, envVar)); by left).
  apply mappable_own in Hk as (value & s & Hown & Hnull & Hs).
  rewrite (write_mappable _ _ _ _ _ _ Hown Hs).
  rewrite <- IH by (intros e He; apply Hpre; by right).
  unfold hasOwnProperty, BaseModule.set. rewrite Hown. cbn [negb].
  destruct value; try done; by rewrite Hs.
Qed.

Lemma mapEntries_all v type entries env :
  (forall e, In e entries -> mappable v (fst e) = true) ->
  mapEntries v type entries env = (None, writes v entries env).
Proof.
  intros H. rewrite <- (app_nil_r entries) at 1.
  by rewrite mapEntries_app.
Qed.

Lemma mapEntries_stop v type key envVar post env :
  mappable v key = false ->
  mapEntries v type ((key, envVar) :: post) env
    = (Some (failure v type key envVar), env).
Proof.
  unfold mappable, convertible, failure, hasOwnProperty. cbn [mapEntries].
  unfold hasOwnProperty, BaseModule.set.
  destruct (own_property v key) as [value|]; [|done]. cbn [negb].
  destruct (ToString value); destruct value; done.
Qed.

(** The loop of [mapSecret] maps the entries it gets past and throws at the
    first one it does not. *)
Lemma mapEntries_normal v type entries env :
  mapEntries v type entries env
    = (first_failure v type entries, writes v (mapped_prefix v entries) env).
Proof.
  revert env. induction entries as [|[key envVar] entries IH]; intros env; [done|].
  cbn [first_failure mapped_prefix fst]. destruct (mappable v key) eqn:Hm.
  - rewrite (mapEntries_app v type [(key, envVar)] entries)
      by (by intros e [<-|[]]).
    by rewrite IH.
  - by rewrite mapEntries_stop.
Qed.

Lemma mapSecret_normal v mapping st :
  mapSecret v mapping st =
    if verify v (type mapping) then
      (first_failure v (type mapping) (Object_entries (envMapping mapping)),
       with_env st (writes v (mapped_prefix v (Object_entries (envMapping mapping)))
                      (process_env st)))
    else (Some (InvalidSecretShape (type mapping)), st).
Proof.
  unfold mapSecret. destruct (verify v (type mapping)); [|done].
  cbn [negb]. by rewrite mapEntries_normal.
Qed.

Lemma mapped_prefix_all v entries :
  (forall e, In e entries -> mappable v (fst e) = true) ->
  mapped_prefix v entries = entries.
Proof.
  induction entries as [|e entries IH]; intros H; [done|].
  cbn. rewrite (H e) by (by left). f_equal. apply IH. intros; apply H; by right.
Qed.

Lemma first_failure_None v type entries :
  first_failure v type entries = None <->
  forall e, In e entries -> mappable v (fst e) = true.
Proof.
  induction entries as [|[key envVar] entries IH]; cbn [first_failure].
  - split; [by intros _ e []|done].
  - destruct (mappable v key) eqn:Hm.
    + rewrite IH. split.
      * intros H e [<-|He]; [done|by apply H].
      * intros H e He. apply H. by right.
    + split; [done|]. intros H. specialize (H (key, envVar) ltac:(by left)).
      cbn in H. congruence.
Qed.

Lemma mapped_prefix_incl v entries e :
  In e (mapped_prefix v entries) -> In e entries.
Proof.
  induction entries as [|e' entries IH]; cbn; [done|].
  destruct (mappable v (fst e')); [|done]. intros [->|H]; auto.
Qed.

Lemma mapped_prefix_mappable v entries e :
  In e (mapped_prefix v entries) -> mappable v (fst e) = true.
Proof.
  induction entries as [|e' entries IH]; cbn; [done|].
  destruct (mappable v (fst e')) eqn:Hm; [|done]. intros [<-|H]; auto.
Qed.

(** *** What the assignments leave in a variable *)

Lemma In_variables l x :
  In x (variables l) <-> exists e, In e l /\ variable_name (snd e) = Some x.
Proof.
  induction l as [|e l IH]; cbn [variables].
  - split; [done|by intros (e & [] & _)].
  - destruct (variable_name (snd e)) as [n|] eqn:Hn; cbn [In]; rewrite ?IH.
    + split.
      * intros [<-|(e' & He' & Hx)]; [exists e; split; [by left|done]|].
        exists e'. split; [by right|done].
      * intros (e' & [<-|He'] & Hx); [left; congruence|right; eauto].
    + split.
      * intros (e' & He' & Hx). exists e'. split; [by right|done].
      * intros (e' & [<-|He'] & Hx); [congruence|eauto].
Qed.

Lemma variables_app l1 l2 : variables (l1 ++ l2) = variables l1 ++ variables l2.
Proof.
  induction l1 as [|e l1 IH]; cbn [app variables]; [done|].
  destruct (variable_name (snd e)); by rewrite IH.
Qed.

Lemma assigns_variable e x : assigns e x = true <-> variable_name (snd e) = Some x.
Proof.
  unfold assigns. destruct (variable_name (snd e)) as [n|]; [|done].
  rewrite String.eqb_eq. split; congruence.
Qed.

Lemma writes_snoc v l e env :
  writes v (l ++ [e]) env = write v (writes v l env) e.
Proof. unfold writes. by rewrite fold_left_app. Qed.

Lemma written_snoc v l e x :
  written v (l ++ [e]) x = written_step v x (written v l x) e.
Proof. unfold written. by rewrite fold_left_app. Qed.

(** What a variable holds after the assignments of a list of entries. *)
Lemma writes_lookup_written v l env x :
  writes v l env !! x =
    match written v l x with
    | Some s => Some s
    | None => env !! x
    end.
Proof.
  induction l as [|[key envVar] l IH] using rev_ind; [done|].
  rewrite writes_snoc, written_snoc. unfold write, written_step, BaseModule.set.
  cbn [fst snd].
  destruct (own_property v key) as [value|].
  - destruct (ToString value) as [s|].
    + rewrite (lookup_setenv (key, envVar)). unfold env_value.
      by destruct (assigns (key, envVar) x).
    + by destruct (assigns (key, envVar) x).
  - by destruct (assigns (key, envVar) x).
Qed.

Lemma written_None v l x : ~ In x (variables l) -> written v l x = None.
Proof.
  induction l as [|e l IH] using rev_ind; [done|].
  rewrite variables_app, in_app_iff. intros H.
  rewrite written_snoc. unfold written_step.
  destruct (assigns e x) eqn:E.
  - apply assigns_variable in E. exfalso. apply H. right.
    apply In_variables. exists e. split; [by left|done].
  - apply IH. tauto.
Qed.

Lemma written_Some v l x s :
  written v l x = Some s -> In x (variables l).
Proof.
  intros H. destruct (in_dec string_dec x (variables l)) as [|Hn]; [done|].
  apply (written_None v) in Hn. congruence.
Qed.

Lemma written_from v l x acc :
  fold_left (written_step v x) l acc =
    match written v l x with
    | Some s => Some s
    | None => acc
    end.
Proof.
  induction l as [|e l IH] using rev_ind; [done|].
  rewrite fold_left_app, written_snoc. cbn [fold_left]. rewrite IH.
  unfold written_step. destruct (assigns e x); [|done].
  destruct (own_property v (fst e)) as [value|]; [|done].
  by destruct (ToString value).
Qed.

Lemma written_app v l1 l2 x :
  written v (l1 ++ l2) x =
    match written v l2 x with
    | Some s => Some s
    | None => written v l1 x
    end.
Proof. unfold written at 1. rewrite fold_left_app. apply written_from. Qed.

(** The last assignment wins: the variable holds the string of the last
    entry that assigns it. *)
Lemma written_entry v a key envVar b name value s :
  variable_name envVar = Some name ->
  ~ In name (variables b) ->
  own_property v key = Some value -> ToString value = Some s ->
  written v (a ++ (key, envVar) :: b) name = Some (env_value s).
Proof.
  intros Hname Hlast Hown Hs.
  change (a ++ (key, envVar) :: b) with (a ++ [(key, envVar)] ++ b).
  rewrite app_assoc, written_app, (written_None _ b) by done.
  rewrite written_snoc. unfold written_step. cbn [fst snd].
  rewrite (proj2 (assigns_variable (key, envVar) name) Hname).
  by rewrite Hown, Hs.
Qed.

(** Among entries that assign a variable there is a last one. *)
Lemma last_assignment l name :
  In name (variables l) ->
  exists a key envVar b,
    l = a ++ (key, envVar) :: b /\ variable_name envVar = Some name /\
    ~ In name (variables b).
Proof.
  induction l as [|[key envVar] l IH]; [done|].
  intros Hin. destruct (in_dec string_dec name (variables l)) as [Hl|Hl].
  - destruct (IH Hl) as (a & key' & envVar' & b & -> & Hn & Hb).
    by exists ((key, envVar) :: a), key', envVar', b.
  - cbn [variables snd] in Hin.
    destruct (variable_name envVar) as [n|] eqn:Hn; [|done].
    destruct Hin as [->|Hin]; [|done].
    by exists [], key, envVar, l.
Qed.

(** A variable that an entry the loop got past assigns holds, after the
    assignments, the string of the last such entry. *)
Lemma writes_lookup v entries env key envVar name :
  (forall e, In e entries -> mappable v (fst e) = true) ->
  In (key, envVar) entries ->
  variable_name envVar = Some name ->
  exists a key' envVar' b value s,
    entries = a ++ (key', envVar') :: b /\
    variable_name envVar' = Some name /\
    ~ In name (variables b) /\
    own_property v key' = Some value /\ value <> JNull /\
    ToString value = Some s /\
    writes v entries env !! name = Some (env_value s).
Proof.
  intros Hall Hin Hname.
  assert (Hvar : In name (variables entries)).
  { apply In_variables. by exists (key, envVar). }
  destruct (last_assignment _ _ Hvar) as (a & key' & envVar' & b & Heq & Hn & Hb).
  assert (Hm : mappable v key' = true).
  { apply (Hall (key', envVar')). rewrite Heq. apply in_or_app. right. by left. }
  apply mappable_own in Hm as (value & s & Hown & Hnull & Hs).
  exists a, key', envVar', b, value, s. do 6 (split; [done|]).
  rewrite writes_lookup_written. subst entries.
  by rewrite (written_entry v a key' envVar' b name value s).
Qed.

Lemma writes_twice v l env : writes v l (writes v l env) = writes v l env.
Proof.
  apply map_eq. intros x. rewrite !writes_lookup_written.
  by destruct (written v l x).
Qed.

Lemma writes_commute v1 l1 v2 l2 env :
  (forall x, In x (variables l1) -> ~ In x (variables l2)) ->
  writes v1 l1 (writes v2 l2 env) = writes v2 l2 (writes v1 l1 env).
Proof.
  intros Hdis. apply map_eq. intros x. rewrite !writes_lookup_written.
  destruct (written v1 l1 x) as [s1|] eqn:W1; [|done].
  destruct (written v2 l2 x) as [s2|] eqn:W2; [|done].
  apply written_Some in W1, W2. by destruct (Hdis x).
Qed.

(** *** Failures *)

(** When the entries before [(key, envVar)] are mappable and [key] is not,
    [mapSecret] throws for that entry after the assignments of the earlier
    entries. *)
Lemma projection_stops_at (secretValue : json) (mapping : SecretMapping)
    (pre post : list (string * string)) (key envVar : string) (st : state) :
  verify secretValue (type mapping) = true ->
  Object_entries (envMapping mapping) = pre ++ (key, envVar) :: post ->
  (forall e, In e pre -> mappable secretValue (fst e) = true) ->
  mappable secretValue key = false ->
  mapSecret secretValue mapping st
    = (Some (failure secretValue (type mapping) key envVar),
       with_env st (writes secretValue pre (process_env st))).
Proof.
  intros Hverify Hentries Hpre Hkey.
  unfold mapSecret. rewrite Hverify, Hentries. cbn [negb].
  rewrite mapEntries_app by done. by rewrite mapEntries_stop.
Qed.

(** A failure of the loop is a failure at some entry, after the
    assignments of the entries before it. *)
Lemma mapEntries_failure v type entries env err env' :
  mapEntries v type entries env = (Some err, env') ->
  exists pre key envVar post,
    entries = pre ++ (key, envVar) :: post /\
    (forall e, In e pre -> mappable v (fst e) = true) /\
    mappable v key = false /\
    err = failure v type key envVar /\
    env' = writes v pre env.
Proof.
  revert env. induction entries as [|[key envVar] entries IH]; intros env H;
    [done|].
  destruct (mappable v key) eqn:Hm.
  - rewrite (mapEntries_app v type [(key, envVar)] entries) in H
      by (by intros e [<-|[]]).
    destruct (IH _ H) as (pre & key' & envVar' & post & -> & Hpre & Hk & -> & ->).
    exists ((key, envVar) :: pre), key', envVar', post.
    split; [done|]. split; [|done].
    intros e [<-|He]; [done|by apply Hpre].
  - rewrite mapEntries_stop in H by done. injection H as <- <-.
    by exists [], key, envVar, entries.
Qed.

(** C7, as the code has it: projection stops at the first entry it cannot
    map and does not roll back.  When [mapSecret] throws on a validated
    value, it throws for one entry of the mapping: [MissingSecretField] for
    a key the value does not own, [NullSecretField] for a field that is
    [null], or the [TypeError] of the assignment for a value without string
    conversion.  The entries before it, in the order of the mapping, were
    all mapped, and [process.env] is the old one with their assignments
    made: a variable none of them assigns holds what it held, and a variable
    that an earlier entry assigns holds the string of the last earlier entry
    that assigns it.  An entry assigns a variable when [setenv] accepts its
    target: the target, up to its first U+0000, is not empty and has no
    [=]. *)
Theorem projection_fail_fast (secretValue : json) (mapping : SecretMapping)
    (st st' : state) (err : error) :
  verify secretValue (type mapping) = true ->
  mapSecret secretValue mapping st = (Some err, st') ->
  exists pre key envVar post,
    Object_entries (envMapping mapping) = pre ++ (key, envVar) :: post /\
    err = failure secretValue (type mapping) key envVar /\
    (forall e, In e pre -> mappable secretValue (fst e) = true) /\
    mappable secretValue key = false /\
    process_env st' = writes secretValue pre (process_env st) /\
    secrets st' = secrets st /\
    secrets_proto st' = secrets_proto st /\
    (forall name, ~ In name (variables pre) ->
       process_env st' !! name = process_env st !! name) /\
    forall key0 envVar0 name,
      In (key0, envVar0) pre -> variable_name envVar0 = Some name ->
      exists a key' envVar' b value s,
        pre = a ++ (key', envVar') :: b /\
        variable_name envVar' = Some name /\
        ~ In name (variables b) /\
        own_property secretValue key' = Some value /\ value <> JNull /\
        ToString value = Some s /\
        process_env st' !! name = Some (env_value s).
Proof.
  intros Hverify. unfold mapSecret. rewrite Hverify. cbn [negb].
  destruct (mapEntries _ _ _ _) as [r env'] eqn:Hrun. intros [= -> <-].
  destruct (mapEntries_failure _ _ _ _ _ _ Hrun)
    as (pre & key & envVar & post & Hentries & Hpre & Hkey & Herr & ->).
  exists pre, key, envVar, post. do 7 (split; [done|]).
  cbn [process_env with_env]. split.
  - intros name Hname. by rewrite writes_lookup_written, written_None.
  - intros key0 envVar0 name Hin Hname.
    by apply (writes_lookup _ _ _ key0 envVar0).
Qed.

Lemma projection_fail_fast_witness :
  verify basic_value_with_null basic_credentials = true /\
  mapSecret basic_value_with_null
      (credentials_mapping (literal [("token", "TOKEN")])) no_state
    = (Some (NullSecretField "token" basic_credentials "TOKEN"),
       {| process_env := <["PASSWORD" := "b"]> (<["USERNAME" := "a"]> ∅);
          secrets := ∅; secrets_proto := ObjectPrototype |}) /\
  exists pre key envVar post,
    Object_entries (envMapping (credentials_mapping (literal [("token", "TOKEN")])))
      = pre ++ (key, envVar) :: post /\
    <["PASSWORD" := "b"]> (<["USERNAME" := "a"]> ∅)
      = writes basic_value_with_null pre ∅.
Proof.
  split; [reflexivity|].
  assert (Hrun :
    mapSecret basic_value_with_null
        (credentials_mapping (literal [("token", "TOKEN")])) no_state
      = (Some (NullSecretField "token" basic_credentials "TOKEN"),
         {| process_env := <["PASSWORD" := "b"]> (<["USERNAME" := "a"]> ∅);
            secrets := ∅; secrets_proto := ObjectPrototype |}))
    by (vm_compute; reflexivity).
  split; [exact Hrun|].
  destruct (projection_fail_fast basic_value_with_null
              (credentials_mapping (literal [("token", "TOKEN")]))
              _ _ _ eq_refl Hrun)
    as (pre & key & envVar & post & Hentries & _ & _ & _ & Henv & _).
  by exists pre, key, envVar, post.
Defined.

(** C7 as stated fails for an entry whose target [setenv] refuses.  With
    the mapping [username -> A=B, password -> PASSWORD, token -> TOKEN] and
    a secret whose [token] is [null], [mapSecret] throws [NullSecretField]
    at the third entry; the second entry has been written, and the first,
    which comes before the failure too, has left nothing in [process.env]:
    the environment holds [PASSWORD] and no other variable, and [exists]
    denies [A=B]. *)
Lemma projection_drops_refused_target :
  verify basic_value_with_null basic_credentials = true /\
  Object_entries (envMapping mapping_with_refused_target)
    = [("username", "A=B"); ("password", "PASSWORD"); ("token", "TOKEN")] /\
  mapSecret basic_value_with_null mapping_with_refused_target no_state
    = (Some (NullSecretField "token" basic_credentials "TOKEN"),
       {| process_env := <["PASSWORD" := "b"]> ∅;
          secrets := ∅; secrets_proto := ObjectPrototype |}) /\
  exists_ "A=B" (snd (mapSecret basic_value_with_null
                        mapping_with_refused_target no_state)) = false.
Proof. repeat split; vm_compute; reflexivity. Qed.

(** ** Validation *)

Lemma typeof_string_Some o :
  typeof_string o = true -> exists s, o = Some (JString s).
Proof. destruct o as [[]|]; try done. eauto. Qed.

(** A value that passes [verify] is an object or an array. *)
Lemma verify_object v type :
  verify v type = true -> typeof_object v = true /\ is_null v = false.
Proof.
  unfold verify. destruct (typeof_object v), (is_null v); done.
Qed.

(** After [verify], each field of the shape is an own string property. *)
Lemma verify_required v type field :
  verify v type = true ->
  In field (required_fields type) ->
  exists s, own_property v field = Some (JString s).
Proof.
  unfold verify.
  destruct (negb (typeof_object v) || is_null v); [done|].
  destruct type; cbn [required_fields In]; intros Hv Hin;
    repeat (apply andb_prop in Hv as [Hv ?]);
    repeat (destruct Hin as [<-|Hin]; [by apply typeof_string_Some|]); done.
Qed.

(** C9, as the code has it: for [basic_credentials],
    [database_credentials] and [ssh_key] (and, vacuously, for [key_value],
    which has no fixed field), once [verify] has accepted the value, a
    mapping whose keys are fields of the shape cannot fail: [mapSecret]
    returns normally, every field it maps is a string, and every variable
    that an entry assigns holds the string of the last entry that assigns
    it.  An entry assigns a variable when [setenv] accepts its target: the
    target, up to its first U+0000, is not empty and has no [=]; the
    variable then holds the string up to its first U+0000. *)
Theorem validated_projection_cannot_fail (secretValue : json)
    (mapping : SecretMapping) (st : state) :
  verify secretValue (type mapping) = true ->
  (forall e, In e (Object_entries (envMapping mapping)) ->
             In (fst e) (required_fields (type mapping))) ->
  mapSecret secretValue mapping st
    = (None, with_env st (writes secretValue
                            (Object_entries (envMapping mapping))
                            (process_env st))) /\
  forall key envVar, In (key, envVar) (Object_entries (envMapping mapping)) ->
    (exists s, own_property secretValue key = Some (JString s)) /\
    forall name, variable_name envVar = Some name ->
      exists a key' envVar' b s,
        Object_entries (envMapping mapping) = a ++ (key', envVar') :: b /\
        variable_name envVar' = Some name /\
        ~ In name (variables b) /\
        own_property secretValue key' = Some (JString s) /\
        writes secretValue (Object_entries (envMapping mapping)) (process_env st)
          !! name = Some (env_value (chars s)).
Proof.
  intros Hverify Hkeys.
  assert (Hall : forall e, In e (Object_entries (envMapping mapping)) ->
                           mappable secretValue (fst e) = true).
  { intros e He. destruct (verify_required _ _ _ Hverify (Hkeys e He)) as [s Hs].
    unfold mappable. by rewrite Hs. }
  split.
  - unfold mapSecret. rewrite Hverify. cbn [negb].
    by rewrite mapEntries_all.
  - intros key envVar Hin. split.
    + apply (verify_required _ _ _ Hverify (Hkeys _ Hin)).
    + intros name Hname.
      destruct (writes_lookup secretValue _ (process_env st) key envVar name
                  Hall Hin Hname)
        as (a & key' & envVar' & b & value & t & Heq & Hn & Hb & Hown & _
            & Ht & Hlook).
      assert (Hin' : In (key', envVar') (Object_entries (envMapping mapping))).
      { rewrite Heq. apply in_or_app. right. by left. }
      destruct (verify_required _ _ _ Hverify (Hkeys _ Hin')) as [s Hs].
      exists a, key', envVar', b, s. do 4 (split; [done|]).
      rewrite Hlook. cbn [fst] in Hs. rewrite Hs in Hown. injection Hown as <-.
      cbn [ToString] in Ht. by injection Ht as <-.
Qed.

Lemma validated_projection_cannot_fail_witness :
  verify ssh_value ssh_key = true /\
  mapSecret ssh_value (ssh_mapping (literal [("ssh_private_key", "SSH_KEY")]))
      no_state
    = (None, {| process_env := <["SSH_KEY" := "KEY"]> ∅; secrets := ∅;
                secrets_proto := ObjectPrototype |}).
Proof.
  split; [reflexivity|].
  apply (proj1 (validated_projection_cannot_fail ssh_value
                  (ssh_mapping (literal [("ssh_private_key", "SSH_KEY")]))
                  no_state eq_refl
                  ltac:(intros e [<-|[]]; left; reflexivity))).
Defined.

(** C9 as stated fails where it says that projection writes every mapped
    field.  The mapping [ssh_private_key -> ''] names the one field of the
    shape, the value passes [verify], and [mapSecret] returns normally; but
    [setenv] refuses the empty name, and the environment is as empty as it
    was. *)
Lemma validated_projection_writes_nothing :
  verify ssh_value ssh_key = true /\
  Object_entries (envMapping mapping_to_empty_name)
    = [("ssh_private_key", EmptyString)] /\
  In "ssh_private_key" (required_fields ssh_key) /\
  mapSecret ssh_value mapping_to_empty_name no_state = (None, no_state) /\
  process_env (snd (mapSecret ssh_value mapping_to_empty_name no_state)) = ∅.
Proof. repeat split; vm_compute; tauto. Qed.

(** C10: [verify] accepts, for [key_value], every value of object type
    other than [null] whose own enumerable values are all strings.  The
    empty object is accepted, and mapping it with the empty mapping returns
    normally and writes nothing; the array [["a","b"]], as [JSON.parse]
    returns it, is accepted too. *)
Theorem key_value_validation :
  (forall v : json,
      typeof_object v = true -> is_null v = false ->
      (forall x, In x (values_of v) -> exists s, x = JString s) ->
      verify v key_value = true) /\
  verify (JObject []) key_value = true /\
  (forall st, mapSecret (JObject []) (kv_mapping []) st = (None, st)) /\
  JSON_parse (chars (dq "['a','b']")) = Some (JArray [JString "a"; JString "b"]) /\
  verify (JArray [JString "a"; JString "b"]) key_value = true.
Proof.
  split; [|split; [reflexivity|split; [|split; [vm_compute; reflexivity|reflexivity]]]].
  - intros v Hobj Hnull Hall. unfold verify. rewrite Hobj, Hnull. cbn [negb orb].
    apply forallb_forall. intros x Hx. by destruct (Hall x Hx) as [s ->].
  - intros st. unfold mapSecret. cbn. by destruct st.
Qed.

Lemma key_value_validation_witness :
  verify (JObject [("api_key", JString "k"); ("mode", JString "m")]) key_value
    = true.
Proof.
  apply (proj1 key_value_validation); [reflexivity|reflexivity|].
  intros x [<-|[<-|[]]]; eauto.
Defined.

(** ** Decoding: quotes *)

Lemma is_char_refl c : is_char c c = true.
Proof. unfold is_char. apply N.eqb_refl. Qed.

Lemma endsWith_last q t : endsWith q (t ++ [q]) = true.
Proof. unfold endsWith. rewrite rev_app_distr. cbn. apply is_char_refl. Qed.

Lemma strip_quotes_wrapped q inner :
  q = dquote \/ q = squote ->
  strip_quotes (q :: inner ++ [q]) = inner.
Proof.
  intros Hq. unfold strip_quotes.
  assert (Hend : forall c, endsWith c (c :: inner ++ [c]) = true).
  { intros c. apply (endsWith_last c (c :: inner)). }
  assert (Hcond : (startsWith dquote (q :: inner ++ [q])
                   && endsWith dquote (q :: inner ++ [q]))
                  || (startsWith squote (q :: inner ++ [q])
                      && endsWith squote (q :: inner ++ [q])) = true).
  { destruct Hq as [-> | ->]; cbn [startsWith]; rewrite is_char_refl, Hend;
      [done | apply orb_true_r]. }
  rewrite Hcond. unfold slice_1_m1. cbn [tl]. apply removelast_last.
Qed.

(** C6: quotes are stripped once.  When the trimmed payload, its
    backslashes deleted, is [inner] between two equal quote characters,
    the text handed to [JSON.parse] is [inner] itself, whatever [inner]
    starts and ends with: of two layers of quotes the inner one remains. *)
Theorem quotes_stripped_once (name raw : string) (q : ascii) (inner : text) :
  q = dquote \/ q = squote ->
  remove_backslashes (trim (chars raw)) = q :: inner ++ [q] ->
  prepare raw = inner /\
  parseJson name (Some raw)
    = match JSON_parse inner with
      | Some v => Ok v
      | None => Throw (InvalidJson name)
      end /\
  forall q' middle, inner = q' :: middle ++ [q'] ->
    prepare raw = q' :: middle ++ [q'].
Proof.
  intros Hq Htext.
  assert (Hprep : prepare raw = inner).
  { unfold prepare. rewrite Htext. by apply strip_quotes_wrapped. }
  split; [done|]. split.
  - unfold parseJson. destruct (String.eqb raw EmptyString) eqn:E.
    + apply String.eqb_eq in E as ->. discriminate Htext.
    + by rewrite Hprep.
  - intros q' middle ->. done.
Qed.

Lemma quotes_stripped_once_witness :
  prepare twice_quoted_payload = chars (dq "'{'a':'b'}'") /\
  parseJson "S" (Some twice_quoted_payload) = Throw (InvalidJson "S").
Proof.
  pose proof (quotes_stripped_once "S" twice_quoted_payload dquote
                (chars (dq "'{'a':'b'}'")) (or_introl eq_refl) eq_refl)
    as (Hprep & Hparse & _).
  split; [exact Hprep | exact Hparse].
Defined.

(** ** The presence check *)

Lemma split_equals_none t :
  forallb (fun c => negb (is_char "="%char c)) t = true ->
  split_equals t = (t, None).
Proof.
  induction t as [|c t IH]; [done|]. cbn [forallb split_equals].
  intros [Hc Ht]%andb_prop. apply negb_true_iff in Hc. by rewrite Hc, IH.
Qed.

(** Under a name without [=], [getenv] reads the variable of that name. *)
Lemma getenv_variable key env :
  no_equals key = true ->
  getenv (c_string (chars key)) env =
    match variable_name key with
    | Some name => env !! name
    | None => None
    end.
Proof.
  unfold no_equals, getenv, variable_name, valid_name. intros H.
  rewrite (split_equals_none _ H).
  destruct (c_string (chars key)) as [|c t]; [done|]. by rewrite H.
Qed.

Lemma variable_name_no_equals key name :
  variable_name key = Some name -> no_equals key = true.
Proof.
  unfold variable_name, valid_name, no_equals.
  destruct (c_string (chars key)) as [|c t]; [done|].
  by destruct (forallb _ (c :: t)).
Qed.

Lemma inherited_In key :
  existsb (String.eqb key) Object_prototype_names = true
  <-> In key Object_prototype_names.
Proof.
  rewrite existsb_exists. split.
  - by intros (x & Hx & ->%String.eqb_eq).
  - intros H. exists key. split; [done|apply String.eqb_refl].
Qed.

(** C1, as the code has it: [exists] answers whether [process.env[key]] is
    defined, that is, whether [getenv] finds the name in the environment or
    the name is one of a property that [process.env] inherits from
    [Object.prototype].  For a key that has no [=] before its first U+0000
    the environment is asked for the variable the key names.  The
    decoded-secret cache plays no part in the answer. *)
Theorem exists_reads_process_env (key : string) (st : state)
    (cache : gmap string json) (proto : prototype) :
  (exists_ key st = true <->
     is_Some (getenv (c_string (chars key)) (process_env st)) \/
     In key Object_prototype_names) /\
  (no_equals key = true ->
     (exists_ key st = true <->
        (exists name, variable_name key = Some name /\
                      is_Some (process_env st !! name)) \/
        In key Object_prototype_names)) /\
  exists_ key {| process_env := process_env st; secrets := cache;
                 secrets_proto := proto |}
    = exists_ key st.
Proof.
  assert (Hfirst : exists_ key st = true <->
            is_Some (getenv (c_string (chars key)) (process_env st)) \/
            In key Object_prototype_names).
  { unfold exists_. destruct (getenv _ _) as [v|].
    - split; [left; eauto|done].
    - rewrite inherited_In. split; [by right|].
      intros [[v Hv]|H]; [done|done]. }
  split; [exact Hfirst|]. split; [|reflexivity].
  intros Hkey. rewrite Hfirst, (getenv_variable _ _ Hkey).
  destruct (variable_name key) as [name|].
  - split; (intros [H|H]; [left|by right]).
    + by exists name.
    + by destruct H as (n & [= <-] & H).
  - split; (intros [H|H]; [|by right]).
    + by destruct H.
    + by destruct H as (n & [=] & _).
Qed.

(** C1 as stated fails in both directions: after the secret [CREDS] has
    been decoded and mapped, the cache has an entry [CREDS] and [exists]
    denies it, while [exists] affirms [USERNAME], which was never the name
    of a decoded secret. *)
Lemma exists_ignores_cache :
  is_Some (secrets (snd (handle (method credentials None) "CREDS"
                           (Some basic_payload) no_state)) !! "CREDS") /\
  exists_ "CREDS" (snd (handle (method credentials None) "CREDS"
                          (Some basic_payload) no_state)) = false /\
  secrets (snd (handle (method credentials None) "CREDS"
                  (Some basic_payload) no_state)) !! "USERNAME" = None /\
  exists_ "USERNAME" (snd (handle (method credentials None) "CREDS"
                             (Some basic_payload) no_state)) = true.
Proof. vm_compute. repeat split; eauto. Qed.

(** ** The order of own properties *)

(** *** Array indices are told apart by their numerals *)

Ltac bools :=
  repeat match goal with
  | H : _ && _ = true |- _ => apply andb_prop in H as [? ?]
  | H : _ || _ = false |- _ => apply orb_false_elim in H as [? ?]
  | H : negb _ = true |- _ => apply negb_true_iff in H
  | H : negb _ = false |- _ => apply negb_false_iff in H
  | H : (_ <=? _)%N = true |- _ => apply N.leb_le in H
  | H : (_ <=? _)%N = false |- _ => apply N.leb_gt in H
  | H : (_ <? _)%N = true |- _ => apply N.ltb_lt in H
  | H : (_ <? _)%N = false |- _ => apply N.ltb_ge in H
  | H : (_ =? _)%N = true |- _ => apply N.eqb_eq in H
  | H : (_ =? _)%N = false |- _ => apply N.eqb_neq in H
  end.

Lemma digits_value_snoc acc t c :
  digits_value acc (t ++ [c]) = (10 * digits_value acc t + digit_value c)%N.
Proof. revert acc. induction t as [|d t IH]; intros acc; cbn; [done|apply IH]. Qed.

Lemma digits_value_acc acc t :
  (acc <= digits_value acc t)%N.
Proof.
  revert acc. induction t as [|d t IH]; intros acc; cbn; [lia|].
  etrans; [|apply IH]. lia.
Qed.

Lemma code_inj c d : code c = code d -> c = d.
Proof.
  unfold code. intros H.
  rewrite <- (ascii_N_embedding c), <- (ascii_N_embedding d). by rewrite H.
Qed.

Lemma is_char_eq a c : is_char a c = true <-> a = c.
Proof.
  unfold is_char. rewrite N.eqb_eq. split; [apply code_inj|by intros ->].
Qed.

Lemma is_char_neq a c : is_char a c = false <-> a <> c.
Proof.
  rewrite <- is_char_eq. destruct (is_char a c); split; congruence.
Qed.

Lemma digit_value_lt c : is_digit c = true -> (digit_value c < 10)%N.
Proof. unfold is_digit, digit_value. intros H. bools. lia. Qed.

Lemma digit_value_inj c d :
  is_digit c = true -> is_digit d = true ->
  digit_value c = digit_value d -> c = d.
Proof.
  unfold is_digit, digit_value. intros Hc Hd H. apply code_inj. bools. lia.
Qed.

Lemma digit_value_zero c :
  is_digit c = true -> digit_value c = 0%N -> is_char "0" c = true.
Proof.
  unfold is_digit, digit_value, is_char. intros Hc H.
  change (code "0") with 48%N. bools. apply N.eqb_eq. lia.
Qed.

Lemma numeral_positive t :
  numeral t -> t <> [] -> (0 < digits_value 0 t)%N.
Proof.
  intros [Hd Hz] Hne. destruct t as [|c t]; [done|]. cbn in *.
  apply andb_prop in Hd as [Hc _].
  assert (digit_value c <> 0%N).
  { intros H0. apply digit_value_zero in H0; [congruence|done]. }
  pose proof (digits_value_acc (10 * 0 + digit_value c) t). lia.
Qed.

Lemma numeral_snoc t c :
  numeral (t ++ [c]) -> numeral t /\ is_digit c = true.
Proof.
  intros [Hd Hz]. rewrite forallb_app in Hd.
  apply andb_prop in Hd as [Hd Hc]. cbn in Hc. rewrite andb_true_r in Hc.
  split; [|done]. split; [done|]. by destruct t.
Qed.

Lemma numeral_inj t1 t2 :
  numeral t1 -> numeral t2 ->
  digits_value 0 t1 = digits_value 0 t2 -> t1 = t2.
Proof.
  revert t2. induction t1 as [|c1 t1 IH] using rev_ind; intros t2 H1 H2 Hv.
  - destruct t2 as [|c2 t2]; [done|].
    pose proof (numeral_positive _ H2 ltac:(done)) as H.
    rewrite <- Hv in H. cbn in H. lia.
  - destruct t2 as [|c2 t2 _] using rev_ind.
    { pose proof (numeral_positive _ H1 ltac:(by destruct t1)) as H.
      rewrite Hv in H. cbn in H. lia. }
    rewrite !digits_value_snoc in Hv.
    destruct (numeral_snoc _ _ H1) as [Hn1 Hc1].
    destruct (numeral_snoc _ _ H2) as [Hn2 Hc2].
    pose proof (digit_value_lt _ Hc1). pose proof (digit_value_lt _ Hc2).
    assert (digit_value c1 = digit_value c2) by lia.
    assert (digits_value 0 t1 = digits_value 0 t2) by lia.
    f_equal; [by apply IH|f_equal; by apply digit_value_inj].
Qed.

Lemma array_index_inj k k' n :
  array_index k = Some n -> array_index k' = Some n -> k = k'.
Proof.
  assert (Hsplit : forall k n, array_index k = Some n ->
            exists t c, chars k = t ++ [c] /\ numeral t /\ is_digit c = true /\
                        n = digits_value 0 (t ++ [c])).
  { clear. intros k n. unfold array_index.
    destruct (chars k) as [|c r] eqn:Hk; [done|].
    destruct (forallb is_digit (c :: r) && _) eqn:Hcond; [|done].
    destruct (_ <? _)%N; [|done]. intros [= <-].
    apply andb_prop in Hcond as [Hd Hz].
    destruct (exists_last (l := c :: r) ltac:(done)) as (t & d & Heq).
    exists t, d. split; [done|]. rewrite Heq in Hd.
    rewrite forallb_app in Hd. apply andb_prop in Hd as [Hd Hc].
    cbn in Hc. rewrite andb_true_r in Hc.
    split; [|split; [done|by rewrite <- Heq]].
    split; [done|]. destruct t as [|c0 t]; [done|].
    injection Heq as <- ->. apply orb_prop in Hz as [Hz|Hz].
    - by destruct (is_char "0" c).
    - rewrite length_app in Hz. cbn in Hz. apply Nat.eqb_eq in Hz. lia. }
  intros H1 H2.
  destruct (Hsplit _ _ H1) as (t1 & c1 & E1 & N1 & D1 & V1).
  destruct (Hsplit _ _ H2) as (t2 & c2 & E2 & N2 & D2 & V2).
  rewrite <- (str_chars k), <- (str_chars k'), E1, E2.
  rewrite !digits_value_snoc in *.
  pose proof (digit_value_lt _ D1). pose proof (digit_value_lt _ D2).
  assert (digit_value c1 = digit_value c2) by lia.
  assert (digits_value 0 t1 = digits_value 0 t2) by lia.
  do 2 f_equal; [by apply numeral_inj|f_equal; by apply digit_value_inj].
Qed.

(** *** [CreateDataProperty] keeps the order *)

Section Canonical.
Context {A : Type}.
Implicit Types (o : props A) (k : string) (v : A).

Lemma get_None_keys k o : get k o = None <-> ~ In k (map fst o).
Proof.
  induction o as [|[k1 v1] o IH]; cbn; [tauto|].
  destruct (String.eqb k k1) eqn:E.
  - apply String.eqb_eq in E as ->. split; [done|]. intros H. destruct H. by left.
  - apply String.eqb_neq in E. rewrite IH. split; [|tauto].
    intros H [->|Hin]; tauto.
Qed.

Lemma keys_replace k v o : map fst (replace k v o) = map fst o.
Proof.
  induction o as [|[k1 v1] o IH]; cbn; [done|].
  destruct (String.eqb k k1) eqn:E; cbn.
  - apply String.eqb_eq in E as ->. done.
  - by rewrite IH.
Qed.

Lemma In_replace e k v o : In e (replace k v o) -> e = (k, v) \/ In e o.
Proof.
  induction o as [|[k1 v1] o IH]; cbn; [tauto|].
  destruct (String.eqb k k1); cbn; intuition.
Qed.

Lemma In_add_index e n k v o : In e (add_index n k v o) -> e = (k, v) \/ In e o.
Proof.
  induction o as [|[k1 v1] o IH]; cbn; [intuition|].
  destruct (array_index k1) as [n1|]; [destruct (n1 <? n)%N|]; cbn; intuition.
Qed.

Lemma In_put e k v o : In e (put k v o) -> e = (k, v) \/ In e o.
Proof.
  unfold put. destruct (has k o); [apply In_replace|].
  destruct (array_index k); [apply In_add_index|].
  intros [H|[<-|[]]]%in_app_or; auto.
Qed.

Lemma canonical_keys_app (l1 l2 : list string) :
  canonical_keys (l1 ++ l2) <->
  canonical_keys l1 /\ canonical_keys l2 /\
  forall a b, In a l1 -> In b l2 -> precedes a b.
Proof.
  induction l1 as [|k l1 IH]; cbn.
  - intuition.
  - split.
    + intros [Hf Hc]. apply IH in Hc as (H1 & H2 & H3).
      apply Forall_app in Hf as [Hf1 Hf2].
      split; [done|]. split; [done|].
      intros a b [<-|Ha] Hb; [|auto].
      rewrite Forall_forall in Hf2. apply Hf2. by apply list_elem_of_In.
    + intros ([Hf1 H1] & H2 & H3). split.
      * apply Forall_app. split; [done|]. apply Forall_forall.
        intros b Hb%list_elem_of_In. apply H3; [by left|done].
      * apply IH. split; [done|]. split; [done|].
        intros a b Ha Hb. apply H3; [by right|done].
Qed.

Lemma add_index_canonical n k v o :
  array_index k = Some n -> ~ In k (map fst o) ->
  canonical o -> canonical (add_index n k v o).
Proof.
  unfold canonical. intros Hk. induction o as [|[k1 v1] o IH]; cbn; [done|].
  intros Hnew [Hfirst Hrest].
  assert (Hne : k <> k1) by (intros ->; apply Hnew; by left).
  assert (Hcase :
    (exists n1, array_index k1 = Some n1 /\ (n1 <? n)%N = true) \/
    (add_index n k v ((k1, v1) :: o) = (k, v) :: (k1, v1) :: o /\
     precedes k k1)).
  { cbn. destruct (array_index k1) as [n1|] eqn:E1.
    - destruct (n1 <? n)%N eqn:L; [left; eauto|right]. split; [done|].
      split; [done|]. rewrite E1, Hk. apply N.ltb_ge in L.
      assert (n <> n1); [|lia].
      intros ->. apply Hne. by apply (array_index_inj _ _ n1).
    - right. split; [done|]. split; [done|]. by rewrite E1. }
  destruct Hcase as [(n1 & E1 & L)|[Heq Hprec]].
  - rewrite E1, L. cbn. split; [|apply IH; tauto].
    apply Forall_forall. intros k2 (e & <- & He)%list_elem_of_In%in_map_iff.
    apply In_add_index in He as [->|He]; cbn.
    + split; [congruence|]. rewrite Hk, E1. by apply N.ltb_lt.
    + rewrite Forall_forall in Hfirst. apply Hfirst, list_elem_of_In, in_map, He.
  - cbn in Heq. rewrite Heq. cbn. repeat split; try done.
    + constructor; [done|]. apply Forall_forall. intros k2 Hk2.
      rewrite Forall_forall in Hfirst. specialize (Hfirst k2 Hk2).
      split.
      * intros ->. apply Hnew. right. by apply list_elem_of_In.
      * destruct Hprec as [_ Hprec], Hfirst as [_ Hfirst].
        destruct (array_index k2) as [b|]; [|done].
        rewrite Hk in *. destruct (array_index k1); [lia|done].
Qed.

Lemma put_canonical k v o : canonical o -> canonical (put k v o).
Proof.
  intros Hc. unfold put. destruct (has k o) eqn:H.
  - unfold canonical. by rewrite keys_replace.
  - assert (Hnew : ~ In k (map fst o)).
    { apply get_None_keys. unfold has in H. by destruct (get k o). }
    destruct (array_index k) as [n|] eqn:E.
    + by apply add_index_canonical.
    + unfold canonical. rewrite map_app. apply canonical_keys_app.
      split; [done|]. split; [cbn; auto|].
      intros a b Ha [Hb|[]]. subst b. split; [by intros ->|]. cbn. by rewrite E.
Qed.

(** A property created after all the others goes last. *)
Lemma put_last k v o : canonical (o ++ [(k, v)]) -> put k v o = o ++ [(k, v)].
Proof.
  unfold canonical. rewrite map_app. intros (_ & _ & Hbefore)%canonical_keys_app.
  assert (Hb : forall a, In a (map fst o) -> precedes a k).
  { intros a Ha. apply Hbefore; [done|by left]. }
  clear Hbefore. unfold put.
  assert (Hnew : has k o = false).
  { unfold has. destruct (get k o) eqn:G; [|done].
    assert (Hin : In k (map fst o)).
    { destruct (in_dec string_dec k (map fst o)) as [|Hn]; [done|].
      apply get_None_keys in Hn. congruence. }
    by destruct (Hb k Hin). }
  rewrite Hnew. destruct (array_index k) as [n|] eqn:E; [|done].
  induction o as [|[k1 v1] o IH]; cbn; [done|].
  destruct (Hb k1 ltac:(by left)) as [_ Hp]. rewrite E in Hp.
  destruct (array_index k1) as [n1|]; [|done].
  apply N.ltb_lt in Hp. rewrite Hp. f_equal. apply IH.
  - intros a Ha. apply Hb. by right.
  - unfold has in *. cbn in Hnew. destruct (String.eqb k k1); [done|]. done.
Qed.

(** Creating the properties of an object again, in its own order, gives
    the same object. *)
Lemma rebuild (acc l : props A) :
  canonical (acc ++ l) ->
  fold_left (fun o kv => put (fst kv) (snd kv) o) l acc = acc ++ l.
Proof.
  revert acc. induction l as [|[k v] l IH]; intros acc Hc; cbn.
  - by rewrite app_nil_r.
  - replace (acc ++ (k, v) :: l) with ((acc ++ [(k, v)]) ++ l) in *
      by (by rewrite <- app_assoc).
    rewrite put_last; [by apply IH|].
    unfold canonical in *. rewrite map_app in Hc.
    by apply canonical_keys_app in Hc as (Hc & _).
Qed.

End Canonical.

(** ** Number literals *)

Lemma number_char_digit c : is_number_char c = false -> is_digit c = false.
Proof. unfold is_number_char. intros H. by bools. Qed.

Lemma number_char_point c : is_number_char c = false -> is_char "." c = false.
Proof.
  unfold is_number_char. intros H.
  repeat (apply orb_false_elim in H as [H ?]). done.
Qed.

Lemma number_char_exp c :
  is_number_char c = false -> is_char "e" c || is_char "E" c = false.
Proof.
  unfold is_number_char. intros H.
  repeat (apply orb_false_elim in H as [H ?]). by apply orb_false_intro.
Qed.

Lemma digit_number_char c : is_digit c = true -> is_number_char c = true.
Proof. unfold is_number_char. by intros ->. Qed.

Lemma digits_number_chars ds :
  forallb is_digit ds = true -> forallb is_number_char ds = true.
Proof.
  induction ds as [|c ds IH]; cbn; [done|]. intros H. bools.
  by rewrite digit_number_char, IH.
Qed.

Lemma span_digits_spec t ds r :
  span_digits t = (ds, r) ->
  t = ds ++ r /\ forallb is_digit ds = true /\
  match r with c :: _ => is_digit c = false | [] => True end.
Proof.
  revert ds r. induction t as [|c t IH]; cbn; intros ds r.
  - by intros [= <- <-].
  - destruct (is_digit c) eqn:D.
    + destruct (span_digits t) as [ds' r'] eqn:S. intros [= <- <-].
      destruct (IH _ _ eq_refl) as (-> & Hd & Hr). cbn. by rewrite D.
    + intros [= <- <-]. by rewrite D.
Qed.

Lemma span_digits_app ds r :
  forallb is_digit ds = true ->
  match r with c :: _ => is_digit c = false | [] => True end ->
  span_digits (ds ++ r) = (ds, r).
Proof.
  induction ds as [|c ds IH]; cbn; intros Hd Hr.
  - destruct r as [|c r]; [done|]. cbn. by rewrite Hr.
  - bools. rewrite H. by rewrite IH.
Qed.

Lemma span_digits_ext t ds r rest :
  span_digits t = (ds, r) -> (r = [] -> stop rest) ->
  span_digits (t ++ rest) = (ds, r ++ rest).
Proof.
  intros (-> & Hd & Hr)%span_digits_spec Hstop.
  rewrite <- app_assoc. apply span_digits_app; [done|].
  destruct r as [|c r]; [|done]. cbn. specialize (Hstop eq_refl).
  destruct rest as [|c rest]; [done|]. by apply number_char_digit.
Qed.

Lemma int_part_reads : reads int_part.
Proof.
  intros t a r. unfold int_part. destruct t as [|c t]; [done|].
  destruct (is_char "0" c) eqn:Z.
  - intros [= <- <-]. split.
    + exists [c]. split; [done|]. cbn. apply is_char_eq in Z as <-. done.
    + intros rest _. cbn. by rewrite Z.
  - destruct (is_digit c) eqn:D; [|done]. intros H.
    assert (S : span_digits (c :: t) = (a, r)) by congruence. clear H. split.
    + pose proof S as (Heq & Hd & _)%span_digits_spec.
      exists a. split; [done|]. by apply digits_number_chars.
    + intros rest Hstop. change ((c :: t) ++ rest) with (c :: (t ++ rest)).
      cbv iota beta. rewrite Z, D.
      change (c :: (t ++ rest)) with ((c :: t) ++ rest).
      by rewrite (span_digits_ext _ _ _ _ S Hstop).
Qed.

Lemma frac_part_reads : reads frac_part.
Proof.
  intros t a r. unfold frac_part. destruct t as [|c t].
  - intros [= <- <-]. split; [by exists []|].
    intros rest Hstop. specialize (Hstop eq_refl). cbn.
    destruct rest as [|c rest]; [done|]. cbn in Hstop.
    by rewrite (number_char_point _ Hstop).
  - destruct (is_char "." c) eqn:P.
    + destruct (span_digits t) as [ds r'] eqn:S.
      destruct ds as [|d ds]; [done|]. intros [= <- <-].
      pose proof S as (Heq & Hd & _)%span_digits_spec. split.
      * exists (c :: d :: ds). split; [by rewrite Heq|].
        cbn [forallb]. unfold is_number_char at 1. rewrite P.
        rewrite !orb_true_r. by apply (digits_number_chars (d :: ds)).
      * intros rest Hstop. cbn. rewrite P.
        by rewrite (span_digits_ext _ _ _ _ S Hstop).
    + intros [= <- <-]. split; [by exists []|].
      intros rest _. cbn. by rewrite P.
Qed.

Lemma exp_part_reads : reads exp_part.
Proof.
  intros t a r. unfold exp_part. destruct t as [|c t].
  - intros [= <- <-]. split; [by exists []|].
    intros rest Hstop. specialize (Hstop eq_refl). cbn.
    destruct rest as [|c rest]; [done|]. cbn in Hstop.
    by rewrite (number_char_exp _ Hstop).
  - destruct (is_char "e" c || is_char "E" c) eqn:P.
    + assert (Hc : is_number_char c = true).
      { unfold is_number_char. apply orb_prop in P as [-> | ->];
          by rewrite ?orb_true_r. }
      destruct t as [|s t].
      { cbn. done. }
      destruct (is_char "-" s) eqn:M; [|destruct (is_char "+" s) eqn:Pl].
      * destruct (span_digits t) as [ds r'] eqn:S.
        destruct ds as [|d ds]; [done|]. intros [= <- <-].
        pose proof S as (Heq & Hd & _)%span_digits_spec. split.
        -- exists (c :: s :: d :: ds). split; [by rewrite Heq|].
           cbn [forallb]. rewrite Hc. unfold is_number_char at 1. rewrite M.
           rewrite !orb_true_r. by apply (digits_number_chars (d :: ds)).
        -- intros rest Hstop. cbn. rewrite P, M.
           by rewrite (span_digits_ext _ _ _ _ S Hstop).
      * destruct (span_digits t) as [ds r'] eqn:S.
        destruct ds as [|d ds]; [done|]. intros [= <- <-].
        pose proof S as (Heq & Hd & _)%span_digits_spec. split.
        -- exists (c :: s :: d :: ds). split; [by rewrite Heq|].
           cbn [forallb]. rewrite Hc. unfold is_number_char at 1. rewrite Pl.
           rewrite !orb_true_r. by apply (digits_number_chars (d :: ds)).
        -- intros rest Hstop. cbn. rewrite P, M, Pl.
           by rewrite (span_digits_ext _ _ _ _ S Hstop).
      * destruct (span_digits (s :: t)) as [ds r'] eqn:S.
        destruct ds as [|d ds]; [done|]. intros [= <- <-].
        pose proof S as (Heq & Hd & _)%span_digits_spec. split.
        -- exists (c :: d :: ds). split; [by rewrite Heq|].
           cbn [forallb]. rewrite Hc. by apply (digits_number_chars (d :: ds)).
        -- intros rest Hstop. cbn [app]. cbv iota beta. rewrite P, M, Pl.
           change (s :: t ++ rest) with ((s :: t) ++ rest).
           by rewrite (span_digits_ext _ _ _ _ S Hstop).
    + intros [= <- <-]. split; [by exists []|].
      intros rest _. cbn. by rewrite P.
Qed.

Lemma number_lit_unsigned t :
  number_lit t =
    match t with
    | c :: r => if is_char "-" c then unsigned_lit true r else unsigned_lit false t
    | [] => None
    end.
Proof.
  unfold number_lit, unsigned_lit. destruct t as [|c r]; [done|].
  by destruct (is_char "-" c).
Qed.

Lemma unsigned_lit_reads neg : reads (unsigned_lit neg).
Proof.
  intros t x r. unfold unsigned_lit.
  destruct (int_part t) as [[int t2]|] eqn:I; [|done].
  destruct (frac_part t2) as [[frac t3]|] eqn:F; [|done].
  destruct (exp_part t3) as [[e t4]|] eqn:E; [|done].
  intros [= <- <-].
  destruct (int_part_reads _ _ _ I) as ((ci & Hi & Ci) & Xi).
  destruct (frac_part_reads _ _ _ F) as ((cf & Hf & Cf) & Xf).
  destruct (exp_part_reads _ _ _ E) as ((ce & He & Ce) & Xe).
  split.
  - exists (ci ++ cf ++ ce). split.
    + by rewrite Hi, Hf, He, <- !app_assoc.
    + by rewrite !forallb_app, Ci, Cf, Ce.
  - intros rest Hstop.
    assert (H3 : t3 = [] -> stop rest).
    { intros ->. apply Hstop. symmetry in He. by apply app_eq_nil in He as [_ ->]. }
    assert (H2 : t2 = [] -> stop rest).
    { intros ->. apply H3. symmetry in Hf. by apply app_eq_nil in Hf as [_ ->]. }
    by rewrite (Xi _ H2), (Xf _ H3), (Xe _ Hstop).
Qed.

Lemma number_lit_reads : reads number_lit.
Proof.
  intros t x r. rewrite number_lit_unsigned. destruct t as [|c t]; [done|].
  destruct (is_char "-" c) eqn:M; intros H.
  - destruct (unsigned_lit_reads _ _ _ _ H) as ((cs & Hc & Cs) & X). split.
    + exists (c :: cs). split; [by rewrite Hc|]. cbn [forallb]. rewrite Cs.
      unfold is_number_char. by rewrite M, !orb_true_r.
    + intros rest Hstop. rewrite number_lit_unsigned. cbn [app]. rewrite M.
      by apply X.
  - destruct (unsigned_lit_reads _ _ _ _ H) as (Hc & X). split; [done|].
    intros rest Hstop. rewrite number_lit_unsigned. cbn [app]. rewrite M.
    by apply (X rest).
Qed.

(** A number literal starts with a digit or a minus sign. *)
Lemma number_lit_first t x r :
  number_lit t = Some (x, r) ->
  exists c t', t = c :: t' /\ is_digit c || is_char "-" c = true.
Proof.
  rewrite number_lit_unsigned. destruct t as [|c t]; [done|].
  intros H. exists c, t. split; [done|].
  destruct (is_char "-" c); [by rewrite orb_true_r|].
  unfold unsigned_lit, int_part in H.
  destruct (is_char "0" c) eqn:Z.
  - apply is_char_eq in Z as <-. done.
  - destruct (is_digit c); done.
Qed.

(** ** Decimal numerals *)

Lemma digit_char_spec d :
  (d < 10)%N ->
  is_digit (ascii_of_N (48 + d)) = true /\
  digit_value (ascii_of_N (48 + d)) = d /\
  (d <> 0%N -> is_char "0" (ascii_of_N (48 + d)) = false).
Proof.
  intros Hd. unfold is_digit, digit_value, is_char, code.
  rewrite N_ascii_embedding by lia. change (N_of_ascii "0") with 48%N.
  repeat split.
  - apply andb_true_intro. split; apply N.leb_le; lia.
  - lia.
  - intros H. apply N.eqb_neq. lia.
Qed.

Lemma size_nat_div10 n : n <> 0%N -> (N.size_nat (n / 10) < N.size_nat n)%nat.
Proof.
  intros Hn. destruct n as [|p]; [done|].
  assert (H : (Npos p / 10 <= Npos p / 2)%N).
  { apply N.div_le_compat_l. lia. }
  assert (H2 : (N.size_nat (Npos p / 2) < N.size_nat (Npos p))%nat).
  { change (Npos p / 2)%N with (N.div (Npos p) 2).
    rewrite <- N.div2_div. destruct p; cbn; lia. }
  assert (Hmono : forall a b, (a <= b)%N -> (N.size_nat a <= N.size_nat b)%nat).
  { clear. intros a b Hab. destruct a as [|a], b as [|b]; cbn; try lia.
    revert b Hab. induction a as [a IH|a IH|]; intros [b|b|] Hab; cbn; try lia;
      apply le_n_S, IH; lia. }
  specialize (Hmono _ _ H). lia.
Qed.

Lemma decimal_digits_spec fuel n acc :
  (N.size_nat n < fuel)%nat ->
  exists ds, decimal_digits fuel n acc = ds ++ acc /\
    forallb is_digit ds = true /\ digits_value 0 ds = n /\ ds <> [] /\
    (n <> 0%N -> match ds with c :: _ => is_char "0" c = false | [] => True end) /\
    (n < 10 ^ N.of_nat (length ds))%N /\
    (n <> 0%N -> 10 ^ (N.of_nat (length ds) - 1) <= n)%N.
Proof.
  revert n acc. induction fuel as [|fuel IH]; intros n acc Hfuel; [lia|].
  cbn [decimal_digits].
  assert (Hmod : (n mod 10 < 10)%N) by (apply N.mod_lt; lia).
  destruct (digit_char_spec _ Hmod) as (Hdig & Hval & Hnz).
  pose proof (N.div_mod n 10 ltac:(lia)) as Hdm.
  destruct (n / 10 =? 0)%N eqn:E.
  - apply N.eqb_eq in E. exists [ascii_of_N (48 + n mod 10)].
    split; [done|]. cbn [forallb digits_value length]. rewrite Hdig, Hval.
    split; [done|]. split; [lia|]. split; [done|]. split.
    + intros H. apply Hnz. lia.
    + change (10 ^ N.of_nat 1)%N with 10%N.
      change (10 ^ (N.of_nat 1 - 1))%N with 1%N. lia.
  - apply N.eqb_neq in E.
    destruct (IH (n / 10)%N (ascii_of_N (48 + n mod 10) :: acc))
      as (ds & Heq & Hd & Hv & Hne & Hhead & Hlt & Hge).
    { pose proof (size_nat_div10 n). assert (n <> 0%N) by (intros ->; done). lia. }
    exists (ds ++ [ascii_of_N (48 + n mod 10)]). split.
    { by rewrite Heq, <- app_assoc. }
    rewrite forallb_app, digits_value_snoc, length_app. cbn [forallb length].
    rewrite Hd, Hdig, Hv, Hval. split; [done|]. split; [lia|].
    split; [by destruct ds|]. split.
    + intros _. specialize (Hhead E). by destruct ds.
    + specialize (Hge E).
      replace (N.of_nat (length ds + 1)) with (N.succ (N.of_nat (length ds))) by lia.
      rewrite N.pow_succ_r by lia.
      replace (N.succ (N.of_nat (length ds)) - 1)%N with (N.of_nat (length ds)) by lia.
      assert (Hp : (10 ^ N.of_nat (length ds)
                    = 10 * 10 ^ (N.of_nat (length ds) - 1))%N).
      { rewrite <- N.pow_succ_r by lia. f_equal. destruct ds; [done|].
        cbn [length]. lia. }
      split; [lia|]. intros _. lia.
Qed.

Lemma decimal_spec n :
  exists ds, decimal n = ds /\
    forallb is_digit ds = true /\ digits_value 0 ds = n /\ ds <> [] /\
    (n <> 0%N -> match ds with c :: _ => is_char "0" c = false | [] => True end) /\
    (n < 10 ^ N.of_nat (length ds))%N /\
    (n <> 0%N -> 10 ^ (N.of_nat (length ds) - 1) <= n)%N.
Proof.
  unfold decimal.
  destruct (decimal_digits_spec (S (N.size_nat n)) n [] ltac:(lia))
    as (ds & Heq & H).
  exists ds. by rewrite Heq, app_nil_r.
Qed.

(** ** Rounding to binary64 *)

Section Rounding.
Local Open Scope Z_scope.

Lemma fexp_eq e : fexp prec emax e = Z.max (e - 53) (-1074).
Proof. reflexivity. Qed.

Lemma digits2_spec p :
  2 ^ (Zpos (digits2_pos p) - 1) <= Zpos p < 2 ^ Zpos (digits2_pos p).
Proof.
  induction p as [p IH|p IH|]; cbn [digits2_pos]; [| |cbn; lia].
  - rewrite Pos2Z.inj_succ.
    replace (Z.succ (Zpos (digits2_pos p)) - 1) with (Z.succ (Zpos (digits2_pos p) - 1)) by lia.
    rewrite !Z.pow_succ_r by lia. lia.
  - rewrite Pos2Z.inj_succ.
    replace (Z.succ (Zpos (digits2_pos p)) - 1) with (Z.succ (Zpos (digits2_pos p) - 1)) by lia.
    rewrite !Z.pow_succ_r by lia. lia.
Qed.

Lemma pow2_lt_inv a b : 0 <= b -> 2 ^ a < 2 ^ b -> a < b.
Proof.
  intros Hb H. destruct (Z_lt_le_dec a b) as [|Hle]; [done|].
  pose proof (Z.pow_le_mono_r 2 b a ltac:(lia) Hle). lia.
Qed.

(** The number of binary digits of a non-negative integer. *)
Lemma Zdigits2_spec m :
  0 < m -> 0 < Zdigits2 m /\ 2 ^ (Zdigits2 m - 1) <= m < 2 ^ Zdigits2 m.
Proof.
  destruct m as [|p|p]; try lia. intros _. cbn [Zdigits2].
  split; [lia|apply digits2_spec].
Qed.

Lemma Zdigits2_unique m d :
  0 < d -> 2 ^ (d - 1) <= m < 2 ^ d -> Zdigits2 m = d.
Proof.
  intros Hd [Hlo Hhi]. assert (Hm : 0 < m).
  { pose proof (Z.pow_pos_nonneg 2 (d - 1) ltac:(lia) ltac:(lia)). lia. }
  destruct (Zdigits2_spec m Hm) as (Hpos & Hlo' & Hhi').
  assert (d - 1 < Zdigits2 m) by (apply pow2_lt_inv; lia).
  assert (Zdigits2 m - 1 < d) by (apply pow2_lt_inv; lia).
  lia.
Qed.

Lemma Zdigits2_nonneg m : 0 <= m -> 0 <= Zdigits2 m.
Proof. destruct m; cbn; lia. Qed.

Lemma Zdigits2_mul_pow2 m n :
  0 < m -> 0 <= n -> Zdigits2 (m * 2 ^ n) = Zdigits2 m + n.
Proof.
  intros Hm Hn. destruct (Zdigits2_spec m Hm) as (Hpos & Hlo & Hhi).
  apply Zdigits2_unique; [lia|].
  replace (Zdigits2 m + n - 1) with (Zdigits2 m - 1 + n) by lia.
  rewrite !Z.pow_add_r by lia.
  pose proof (Z.pow_pos_nonneg 2 n ltac:(lia) Hn). nia.
Qed.

Lemma Zdigits2_div_pow2 m n :
  0 <= m -> 0 <= n -> Zdigits2 (m / 2 ^ n) = Z.max 0 (Zdigits2 m - n).
Proof.
  intros Hm Hn. pose proof (Z.pow_pos_nonneg 2 n ltac:(lia) Hn) as Hp.
  destruct (Z.eq_dec m 0) as [->|Hm0].
  { rewrite Z.div_0_l by lia. cbn. lia. }
  destruct (Zdigits2_spec m ltac:(lia)) as (Hpos & Hlo & Hhi).
  destruct (Z_lt_le_dec n (Zdigits2 m)) as [Hlt|Hge].
  - rewrite Z.max_r by lia. apply Zdigits2_unique; [lia|]. split.
    + apply Z.div_le_lower_bound; [lia|].
      rewrite <- Z.pow_add_r by lia.
      replace (n + (Zdigits2 m - n - 1)) with (Zdigits2 m - 1) by lia. done.
    + apply Z.div_lt_upper_bound; [lia|].
      rewrite <- Z.pow_add_r by lia.
      replace (n + (Zdigits2 m - n)) with (Zdigits2 m) by lia. done.
  - rewrite Z.max_l by lia.
    rewrite Z.div_small; [done|]. split; [lia|].
    pose proof (Z.pow_le_mono_r 2 (Zdigits2 m) n ltac:(lia) Hge). lia.
Qed.

Lemma Zdigits2_succ m :
  0 <= m ->
  Zdigits2 (m + 1) = Zdigits2 m \/
  (Zdigits2 (m + 1) = Zdigits2 m + 1 /\ m + 1 = 2 ^ Zdigits2 m).
Proof.
  intros Hm. destruct (Z.eq_dec m 0) as [->|Hm0]; [right; by cbn|].
  destruct (Zdigits2_spec m ltac:(lia)) as (Hpos & Hlo & Hhi).
  destruct (Z.eq_dec (m + 1) (2 ^ Zdigits2 m)) as [Heq|Hne].
  - right. split; [|done]. apply Zdigits2_unique; [lia|].
    replace (Zdigits2 m + 1 - 1) with (Zdigits2 m) by lia.
    rewrite Z.pow_add_r by lia. change (2 ^ 1) with 2. lia.
  - left. apply Zdigits2_unique; [lia|]. lia.
Qed.

(** *** Shifting right *)

Lemma iter_pos_nat {A : Type} (f : A -> A) p x :
  SpecFloat.iter_pos f p x = Nat.iter (Pos.to_nat p) f x.
Proof.
  revert x. induction p as [p IH|p IH|]; intros x; cbn [SpecFloat.iter_pos].
  - rewrite !IH, Pos2Nat.inj_xI.
    replace (S (2 * Pos.to_nat p)) with (Pos.to_nat p + (Pos.to_nat p + 1))%nat by lia.
    rewrite !Nat.iter_add. done.
  - rewrite !IH, Pos2Nat.inj_xO.
    replace (2 * Pos.to_nat p)%nat with (Pos.to_nat p + Pos.to_nat p)%nat by lia.
    by rewrite Nat.iter_add.
  - done.
Qed.

Lemma shr_1_m mrs : 0 <= shr_m mrs -> shr_m (shr_1 mrs) = shr_m mrs / 2.
Proof.
  destruct mrs as [m r s]. cbn [shr_m]. intros Hm. rewrite <- Z.div2_div.
  destruct m as [|[p|p|]|]; cbn [shr_1 shr_m]; try done; lia.
Qed.

Lemma shr_m_iter n mrs :
  0 <= shr_m mrs ->
  shr_m (Nat.iter n shr_1 mrs) = shr_m mrs / 2 ^ Z.of_nat n.
Proof.
  intros Hm. induction n as [|n IH].
  - cbn. by rewrite Z.div_1_r.
  - rewrite Nat.iter_succ, shr_1_m.
    + rewrite IH, Nat2Z.inj_succ, Z.pow_succ_r by lia.
      rewrite Z.div_div by lia. f_equal. lia.
    + rewrite IH. apply Z.div_pos; lia.
Qed.

Lemma shr_spec mrs e n :
  0 <= shr_m mrs -> 0 <= n ->
  snd (shr mrs e n) = e + n /\
  shr_m (fst (shr mrs e n)) = shr_m mrs / 2 ^ n.
Proof.
  intros Hm Hn. destruct n as [|p|p]; [| |lia].
  - cbn. rewrite Z.div_1_r. lia.
  - cbn [shr fst snd]. split; [done|].
    rewrite iter_pos_nat, shr_m_iter by done. by rewrite positive_nat_Z.
Qed.

Lemma shr_1_exact m :
  0 <= m ->
  shr_1 (Build_shr_record (2 * m) false false) = Build_shr_record m false false.
Proof. destruct m as [|p|p]; [done|done|lia]. Qed.

Lemma shr_iter_exact n m :
  0 <= m ->
  Nat.iter n shr_1 (Build_shr_record (m * 2 ^ Z.of_nat n) false false)
    = Build_shr_record m false false.
Proof.
  intros Hm. revert m Hm. induction n as [|n IH]; intros m Hm.
  - cbn. by rewrite Z.mul_1_r.
  - rewrite Nat.iter_succ_r. rewrite Nat2Z.inj_succ, Z.pow_succ_r by lia.
    replace (m * (2 * 2 ^ Z.of_nat n)) with (2 * (m * 2 ^ Z.of_nat n)) by lia.
    rewrite shr_1_exact by nia. by apply IH.
Qed.

Lemma shr_exact m e n :
  0 <= m -> 0 <= n ->
  shr (Build_shr_record (m * 2 ^ n) false false) e n
    = (Build_shr_record m false false, e + n).
Proof.
  intros Hm Hn. destruct n as [|p|p]; [| |lia].
  - cbn. by rewrite Z.mul_1_r, Z.add_0_r.
  - cbn [shr]. rewrite iter_pos_nat.
    rewrite <- (positive_nat_Z p) at 1. by rewrite shr_iter_exact.
Qed.

(** *** The rounding of [binary_round_aux] *)

Lemma shr_record_of_loc_m m l : shr_m (shr_record_of_loc m l) = m.
Proof. by destruct l as [|[]]. Qed.

Lemma shr_fexp_spec m e l :
  0 <= m -> e <= fexp prec emax (Zdigits2 m + e) ->
  snd (shr_fexp prec emax m e l) = fexp prec emax (Zdigits2 m + e) /\
  shr_m (fst (shr_fexp prec emax m e l))
    = m / 2 ^ (fexp prec emax (Zdigits2 m + e) - e).
Proof.
  intros Hm He. unfold shr_fexp.
  destruct (shr_spec (shr_record_of_loc m l) e
              (fexp prec emax (Zdigits2 m + e) - e)) as [H1 H2].
  - by rewrite shr_record_of_loc_m.
  - lia.
  - rewrite H1, H2, shr_record_of_loc_m. split; [lia|done].
Qed.

Lemma round_nearest_even_cases m l :
  round_nearest_even m l = m \/ round_nearest_even m l = m + 1.
Proof.
  unfold round_nearest_even. destruct l as [|[]]; try tauto.
  destruct (Z.even m); tauto.
Qed.

(** What [binary_round_aux] returns is a number of the format, when the
    mantissa it is given has enough digits. *)
Lemma binary_round_aux_valid sx mx ex lx :
  0 <= mx -> ex <= fexp prec emax (Zdigits2 mx + ex) ->
  valid_binary prec emax (binary_round_aux prec emax sx mx ex lx) = true.
Proof.
  intros Hm He. unfold binary_round_aux.
  destruct (shr_fexp_spec mx ex lx Hm He) as [He1 Hm1].
  destruct (shr_fexp prec emax mx ex lx) as [mrs1 e1]. cbn [fst snd] in *.
  assert (H1 : 0 <= shr_m mrs1).
  { rewrite Hm1. apply Z.div_pos; [done|]. apply Z.pow_pos_nonneg; lia. }
  assert (Hd1 : Zdigits2 (shr_m mrs1)
                = Z.max 0 (Zdigits2 mx - (e1 - ex))).
  { rewrite Hm1, He1. apply Zdigits2_div_pow2; lia. }
  set (m2 := round_nearest_even (shr_m mrs1) (loc_of_shr_record mrs1)).
  assert (Hm2 : 0 <= m2 /\ Zdigits2 (shr_m mrs1) <= Zdigits2 m2).
  { unfold m2.
    destruct (round_nearest_even_cases (shr_m mrs1) (loc_of_shr_record mrs1))
      as [-> | ->]; [lia|].
    split; [lia|]. destruct (Zdigits2_succ (shr_m mrs1) H1) as [->|[-> _]]; lia. }
  destruct Hm2 as [Hm2 Hd2].
  assert (He2 : e1 <= fexp prec emax (Zdigits2 m2 + e1)).
  { rewrite fexp_eq in *. lia. }
  destruct (shr_fexp_spec m2 e1 loc_Exact Hm2 He2) as [He3 Hm3].
  destruct (shr_fexp prec emax m2 e1 loc_Exact) as [mrs3 e3].
  cbn [fst snd] in *.
  destruct (shr_m mrs3) as [|m3|m3] eqn:E3; [done| |done].
  destruct (e3 <=? emax - prec) eqn:Hle; [|done].
  cbn [valid_binary]. unfold bounded. rewrite Hle, andb_true_r.
  unfold canonical_mantissa. apply Z.eqb_eq.
  assert (Hd3 : Zdigits2 (Zpos m3) = Z.max 0 (Zdigits2 m2 - (e3 - e1))).
  { rewrite Hm3, He3. apply Zdigits2_div_pow2; lia. }
  cbn [Zdigits2] in Hd3. rewrite He3 at 2. f_equal. lia.
Qed.

(** A number of the format given with [n] more binary digits, all zero, is
    rounded to itself. *)
Lemma binary_round_aux_exact sx m e n :
  bounded prec emax m e = true -> 0 <= n ->
  binary_round_aux prec emax sx (Zpos m * 2 ^ n) (e - n) loc_Exact
    = S754_finite sx m e.
Proof.
  unfold bounded, canonical_mantissa. intros [Hc Hb]%andb_prop Hn.
  apply Z.eqb_eq in Hc. unfold binary_round_aux, shr_fexp.
  rewrite Zdigits2_mul_pow2 by lia. cbn [Zdigits2 shr_record_of_loc].
  replace (Zpos (digits2_pos m) + n + (e - n)) with (Zpos (digits2_pos m) + e) by lia.
  rewrite Hc. replace (e - (e - n)) with n by lia.
  rewrite shr_exact by lia. cbn [shr_m loc_of_shr_record round_nearest_even].
  replace (e - n + n) with e by lia. cbn [Zdigits2 shr_record_of_loc].
  rewrite Hc, Z.sub_diag. cbn [shr shr_m]. by rewrite Hb.
Qed.

(** The sign has no part in the rounding. *)
Lemma binary_round_aux_opp mx ex lx :
  binary_round_aux prec emax true mx ex lx
    = SFopp (binary_round_aux prec emax false mx ex lx).
Proof.
  unfold binary_round_aux. destruct (shr_fexp prec emax mx ex lx) as [mrs1 e1].
  destruct (shr_fexp prec emax _ e1 loc_Exact) as [mrs3 e3].
  destruct (shr_m mrs3); [done| |done]. by destruct (e3 <=? emax - prec).
Qed.

(** *** [binary_normalize] *)

Lemma iter_xO m d : Zpos (Pos.iter xO m d) = Zpos m * 2 ^ Zpos d.
Proof.
  rewrite <- Z.shiftl_mul_pow2 by lia. cbn [Z.shiftl].
  apply (Pos.iter_swap_gen _ _ Zpos xO (Z.mul 2)). by intros a.
Qed.

Lemma shl_align_spec mx ex ex' :
  0 <= ex - snd (shl_align mx ex ex') /\
  snd (shl_align mx ex ex') <= ex' /\
  Zpos (fst (shl_align mx ex ex'))
    = Zpos mx * 2 ^ (ex - snd (shl_align mx ex ex')).
Proof.
  unfold shl_align. destruct (ex' - ex) as [|d|d] eqn:E; cbn [fst snd].
  - rewrite Z.sub_diag. cbn. lia.
  - rewrite Z.sub_diag. cbn. lia.
  - rewrite iter_xO. replace (ex - ex') with (Zpos d) by lia. lia.
Qed.

Lemma binary_round_valid sx mx ex :
  valid_binary prec emax (binary_round prec emax sx mx ex) = true.
Proof.
  unfold binary_round.
  pose proof (shl_align_spec mx ex (fexp prec emax (Zpos (digits2_pos mx) + ex)))
    as (Hs & Hle & Heq).
  destruct (shl_align _ _ _) as [mz ez]. cbn [fst snd] in *.
  apply binary_round_aux_valid; [lia|]. rewrite Heq.
  rewrite Zdigits2_mul_pow2 by lia. cbn [Zdigits2].
  by replace (Zpos (digits2_pos mx) + (ex - ez) + ez)
    with (Zpos (digits2_pos mx) + ex) by lia.
Qed.

(** An integer that has the digits of a number of the format is normalised
    to that number. *)
Lemma binary_round_exact sx m e :
  bounded prec emax m e = true -> 0 <= e ->
  forall v, Zpos v = Zpos m * 2 ^ e ->
  binary_round prec emax sx v 0 = S754_finite sx m e.
Proof.
  intros Hb He v Hv. pose proof Hb as [Hc _]%andb_prop.
  apply Z.eqb_eq in Hc. unfold binary_round, shl_align.
  assert (Hd : Zpos (digits2_pos v) = Zpos (digits2_pos m) + e).
  { change (Zdigits2 (Zpos v) = Zdigits2 (Zpos m) + e).
    rewrite Hv. by apply Zdigits2_mul_pow2. }
  rewrite Hd, Z.add_0_r, Hc, Z.sub_0_r.
  replace (match e with Z.neg d => (Pos.iter xO v d, e) | _ => (v, 0) end)
    with (v, 0) by (by destruct e).
  rewrite Hv. pose proof (binary_round_aux_exact sx m e e Hb He) as H.
  by rewrite Z.sub_diag in H.
Qed.

(** *** Division *)

Lemma Zdigits2_lower m d : 0 < d -> 2 ^ (d - 1) <= m -> d <= Zdigits2 m.
Proof.
  intros Hd Hm.
  assert (0 < m) by (pose proof (Z.pow_pos_nonneg 2 (d - 1)); lia).
  destruct (Zdigits2_spec m ltac:(done)) as (Hpos & _ & Hhi).
  assert (d - 1 < Zdigits2 m) by (apply pow2_lt_inv; lia). lia.
Qed.

Lemma div_eucl_eq a b : Z.div_eucl a b = (a / b, a mod b).
Proof. unfold Z.div, Z.modulo. by destruct (Z.div_eucl a b). Qed.

Lemma new_location_exact n : new_location n 0 = loc_Exact.
Proof. unfold new_location. by destruct (Z.even n). Qed.

(** The quotient and the exponent [SFdiv] hands to the rounding, for two
    integers. *)
Lemma SFdiv_core_spec p q :
  SFdiv_core_binary prec emax (Zpos p) 0 (Zpos q) 0 =
    let ez := Z.min (fexp prec emax (Zdigits2 (Zpos p) - Zdigits2 (Zpos q))) 0 in
    (Zpos p * 2 ^ (- ez) / Zpos q, ez,
     new_location (Zpos q) ((Zpos p * 2 ^ (- ez)) mod Zpos q)).
Proof.
  unfold SFdiv_core_binary. rewrite !Z.add_0_r, Z.sub_0_r.
  set (ez := Z.min _ 0). cbv zeta. rewrite Z.sub_0_l.
  assert (Hm : match - ez with
               | 0 => Zpos p
               | Zpos _ => Z.shiftl (Zpos p) (- ez)
               | Zneg _ => 0
               end = Zpos p * 2 ^ (- ez)).
  { assert (Hez : 0 <= - ez) by lia. destruct (- ez) as [|s|s] eqn:E; [| |lia].
    - cbn. lia.
    - by rewrite Z.shiftl_mul_pow2. }
  rewrite Hm. by rewrite div_eucl_eq.
Qed.

Lemma SFdiv_valid sx p sy q :
  valid_binary prec emax
    (SFdiv prec emax (S754_finite sx p 0) (S754_finite sy q 0)) = true.
Proof.
  cbn [SFdiv]. rewrite SFdiv_core_spec. cbv zeta.
  set (ez := Z.min _ 0). set (s := - ez).
  assert (Hs : 0 <= s) by lia.
  pose proof (Z.pow_pos_nonneg 2 s ltac:(lia) Hs) as Hp.
  destruct (Zdigits2_spec (Zpos p) ltac:(lia)) as (Hd1 & Hlo1 & _).
  destruct (Zdigits2_spec (Zpos q) ltac:(lia)) as (Hd2 & _ & Hhi2).
  apply binary_round_aux_valid.
  - apply Z.div_pos; lia.
  - assert (Hdz : 1 <= Zdigits2 (Zpos p) + s - Zdigits2 (Zpos q) ->
                  Zdigits2 (Zpos p) + s - Zdigits2 (Zpos q)
                  <= Zdigits2 (Zpos p * 2 ^ s / Zpos q)).
    { intros H. apply Zdigits2_lower; [lia|].
      apply Z.div_le_lower_bound; [lia|].
      assert (Hq : Zpos q * 2 ^ (Zdigits2 (Zpos p) + s - Zdigits2 (Zpos q) - 1)
                   <= 2 ^ Zdigits2 (Zpos q)
                      * 2 ^ (Zdigits2 (Zpos p) + s - Zdigits2 (Zpos q) - 1)).
      { apply Z.mul_le_mono_nonneg_r; [|lia]. apply Z.pow_nonneg. lia. }
      rewrite <- Z.pow_add_r in Hq by lia.
      replace (Zdigits2 (Zpos q)
               + (Zdigits2 (Zpos p) + s - Zdigits2 (Zpos q) - 1))
        with (Zdigits2 (Zpos p) - 1 + s) in Hq by lia.
      rewrite Z.pow_add_r in Hq by lia.
      etrans; [exact Hq|].
      apply Z.mul_le_mono_nonneg_r; lia. }
    pose proof (Zdigits2_nonneg (Zpos p * 2 ^ s / Zpos q)
                  ltac:(apply Z.div_pos; lia)) as Hnn.
    subst s ez. rewrite !fexp_eq in *. lia.
Qed.

(** The quotient of two integers that is a number of the format is that
    number. *)
Lemma SFdiv_exact sx m e p :
  bounded prec emax m e = true -> e < 0 ->
  Zpos p = Zpos m * 5 ^ (- e) ->
  forall q, Zpos q = 10 ^ (- e) ->
  SFdiv prec emax (S754_finite sx p 0) (S754_finite false q 0)
    = S754_finite sx m e.
Proof.
  intros Hb He Hp q Hq. pose proof Hb as [Hc _]%andb_prop.
  apply Z.eqb_eq in Hc. rewrite fexp_eq in Hc.
  cbn [SFdiv]. rewrite SFdiv_core_spec. cbv zeta. rewrite xorb_false_r.
  set (ez := Z.min _ 0).
  destruct (Zdigits2_spec (Zpos p) ltac:(lia)) as (Hd1 & Hlo1 & Hhi1).
  destruct (Zdigits2_spec (Zpos q) ltac:(lia)) as (Hd2 & Hlo2 & Hhi2).
  destruct (Zdigits2_spec (Zpos m) ltac:(lia)) as (Hdm & Hlom & Him).
  cbn [Zdigits2] in Hdm, Hlom, Him.
  set (k := - e) in *. assert (Hk : 0 < k) by lia.
  assert (H10 : 10 ^ k = 5 ^ k * 2 ^ k).
  { rewrite <- Z.pow_mul_l. done. }
  pose proof (Z.pow_pos_nonneg 2 k ltac:(lia) ltac:(lia)) as H2k.
  pose proof (Z.pow_pos_nonneg 5 k ltac:(lia) ltac:(lia)) as H5k.
  assert (Hdig : Zdigits2 (Zpos p) - Zdigits2 (Zpos q)
                 <= Zpos (digits2_pos m) + e).
  { assert (Hlt : 2 ^ (Zdigits2 (Zpos p) - 1 + k)
                  < 2 ^ (Zpos (digits2_pos m) + Zdigits2 (Zpos q))).
    { rewrite !Z.pow_add_r by lia.
      assert (Zpos p * 2 ^ k = Zpos m * Zpos q) by (rewrite Hp, Hq, H10; lia).
      nia. }
    apply pow2_lt_inv in Hlt; lia. }
  assert (Hez : ez <= e) by (subst ez; rewrite fexp_eq; lia).
  assert (Hezk : 0 <= - ez - k) by lia.
  assert (Hnum : Zpos p * 2 ^ (- ez) = Zpos m * 2 ^ (- ez - k) * Zpos q).
  { replace (- ez) with (- ez - k + k) at 1 by lia.
    rewrite Z.pow_add_r by lia. rewrite Hp, Hq, H10. lia. }
  rewrite Hnum, Z.div_mul, Z.mod_mul, new_location_exact by lia.
  replace ez with (e - (- ez - k)) at 2 by lia.
  by apply binary_round_aux_exact.
Qed.

(** *** The Number value of a decimal *)

Lemma number_of_decimal_valid neg m e10 :
  valid_binary prec emax (number_of_decimal neg m e10) = true.
Proof.
  unfold number_of_decimal, number_of_ratio, binary_normalize.
  destruct m as [|p]; [done|].
  destruct e10 as [|k|k]; [destruct neg| destruct neg|];
    auto using binary_round_valid, SFdiv_valid.
Qed.

Lemma number_of_decimal_opp m e10 :
  number_of_decimal true m e10 = SFopp (number_of_decimal false m e10).
Proof.
  unfold number_of_decimal, number_of_ratio, binary_normalize, binary_round.
  destruct m as [|p]; [done|].
  destruct e10 as [|k|k].
  - destruct (shl_align _ _ _). apply binary_round_aux_opp.
  - destruct (shl_align _ _ _). apply binary_round_aux_opp.
  - cbn [SFdiv]. destruct (SFdiv_core_binary _ _ _ _ _ _) as [[mz ez] lz].
    apply binary_round_aux_opp.
Qed.

(** The decimal that has exactly the value of a number of the format is
    read as that number. *)
Lemma number_of_decimal_integer m e v :
  bounded prec emax m e = true -> 0 <= e ->
  Z.of_N v = Zpos m * 2 ^ e ->
  number_of_decimal false v 0 = S754_finite false m e.
Proof.
  intros Hb He Hv. unfold number_of_decimal.
  destruct v as [|p].
  { pose proof (Z.pow_pos_nonneg 2 e ltac:(lia) He). cbn in Hv. lia. }
  cbn [binary_normalize]. by apply binary_round_exact.
Qed.

Lemma number_of_decimal_fraction m e v :
  bounded prec emax m e = true -> e < 0 ->
  Z.of_N v = Zpos m * 5 ^ (- e) ->
  number_of_decimal false v e = S754_finite false m e.
Proof.
  intros Hb He Hv. unfold number_of_decimal.
  destruct v as [|p].
  { pose proof (Z.pow_pos_nonneg 5 (- e) ltac:(lia) ltac:(lia)). cbn in Hv. lia. }
  destruct e as [|k|k]; [lia|lia|]. unfold number_of_ratio.
  apply SFdiv_exact; [done|lia|done|].
  rewrite Pos2Z.inj_pow. done.
Qed.

End Rounding.

(** ** The decimal exponent of a number *)

Section DecimalExponent.
Local Open Scope Z_scope.

Lemma ten_up_pos p : 0 < ten_up p.
Proof. apply Z.pow_pos_nonneg; lia. Qed.

Lemma ten_down_pos p : 0 < ten_down p.
Proof. apply Z.pow_pos_nonneg; lia. Qed.

Lemma pow10_spec k : Z.of_N (pow10 k) = ten_up k.
Proof.
  unfold pow10, ten_up. destruct k as [|p|p]; [done| |done].
  rewrite Z.max_l by lia. cbn [Z.of_N]. by rewrite Pos2Z.inj_pow.
Qed.

Lemma scale10_spec n d p :
  Z.of_N (fst (scale10 n d p)) = Z.of_N n * ten_up p /\
  Z.of_N (snd (scale10 n d p)) = Z.of_N d * ten_down p.
Proof.
  unfold scale10. destruct (0 <=? p) eqn:E; cbn [fst snd].
  - apply Z.leb_le in E. rewrite N2Z.inj_mul, pow10_spec. split; [done|].
    unfold ten_down. rewrite Z.max_r by lia. lia.
  - apply Z.leb_gt in E. rewrite N2Z.inj_mul, pow10_spec. split.
    + unfold ten_up. rewrite Z.max_r by lia. lia.
    + unfold ten_up, ten_down. by rewrite !Z.max_l by lia.
Qed.

(** [10^(p+j) = 10^p * 10^j], as fractions. *)
Lemma ten_shift p j :
  0 <= j -> ten_up (p + j) * ten_down p = ten_up p * ten_down (p + j) * 10 ^ j.
Proof.
  intros Hj. unfold ten_up, ten_down.
  rewrite <- !Z.pow_add_r by lia. f_equal. lia.
Qed.

Lemma below_scale10 num den n :
  (fst (scale10 num den (- n)) <? snd (scale10 num den (- n)))%N = true
  <-> below num den n.
Proof.
  destruct (scale10_spec num den (- n)) as [Ha Hb].
  rewrite N.ltb_lt. unfold below. rewrite <- Ha, <- Hb. lia.
Qed.

Lemma cross_lt a b a' b' c :
  0 < b -> 0 < b' -> 0 < c -> a' * b = a * b' * c ->
  (a < b <-> a' < b' * c).
Proof.
  intros Hb Hb' Hc H. split; intros Hlt.
  - apply Z.mul_lt_mono_pos_r with (p := b); [done|]. rewrite H.
    replace (b' * c * b) with (b * (b' * c)) by lia.
    replace (a * b' * c) with (a * (b' * c)) by lia.
    apply Z.mul_lt_mono_pos_r; lia.
  - apply Z.mul_lt_mono_pos_r with (p := b' * c); [lia|].
    replace (a * (b' * c)) with (a' * b) by lia.
    replace (b * (b' * c)) with (b' * c * b) by lia.
    apply Z.mul_lt_mono_pos_r; lia.
Qed.

Lemma scaled_shift num den p j :
  0 <= j ->
  (num * ten_up (p + j)) * (den * ten_down p)
    = (num * ten_up p) * (den * ten_down (p + j)) * 10 ^ j.
Proof.
  intros Hj.
  replace (num * ten_up (p + j) * (den * ten_down p))
    with (num * den * (ten_up (p + j) * ten_down p)) by lia.
  rewrite ten_shift by done. lia.
Qed.

(** [num / den * 10^(n+j) < 10^j] exactly when [num / den < 10^(-n)]. *)
Lemma below_shift num den n j :
  (0 < den)%N -> 0 <= j ->
  below num den n <->
  Z.of_N num * ten_up (j - n) < Z.of_N den * ten_down (j - n) * 10 ^ j.
Proof.
  intros Hden Hj. unfold below.
  pose proof (scaled_shift (Z.of_N num) (Z.of_N den) (- n) j Hj) as Hs.
  replace (- n + j) with (j - n) in Hs by lia.
  apply cross_lt; try done.
  - pose proof (ten_down_pos (- n)). lia.
  - pose proof (ten_down_pos (j - n)). lia.
  - apply Z.pow_pos_nonneg; lia.
Qed.

Lemma decimal_exponent_spec fuel num den n0 n1 :
  n0 <= n1 -> below num den n1 -> n1 - n0 < Z.of_nat fuel ->
  n0 <= decimal_exponent fuel num den n0 <= n1 /\
  below num den (decimal_exponent fuel num den n0) /\
  (n0 < decimal_exponent fuel num den n0 ->
   ~ below num den (decimal_exponent fuel num den n0 - 1)).
Proof.
  revert n0. induction fuel as [|fuel IH]; intros n0 Hle Hb Hfuel; [lia|].
  cbn [decimal_exponent].
  pose proof (below_scale10 num den n0) as Hs.
  destruct (scale10 num den (- n0)) as [a b]. cbn [fst snd] in Hs.
  destruct (a <? b)%N.
  - split; [lia|]. split; [by apply Hs|lia].
  - assert (Hn : ~ below num den n0) by (rewrite <- Hs; done).
    assert (n0 < n1).
    { destruct (Z.eq_dec n0 n1) as [->|]; [done|lia]. }
    destruct (IH (n0 + 1)) as (Hr & Hbel & Hprev); [lia|done|lia|].
    split; [lia|]. split; [done|]. intros _.
    destruct (Z.eq_dec (decimal_exponent fuel num den (n0 + 1)) (n0 + 1))
      as [->|Hne].
    + by replace (n0 + 1 - 1) with n0 by lia.
    + apply Hprev. lia.
Qed.

(** *** The fraction of a number of the format *)

Lemma float_fraction_spec m e :
  Z.of_N (fst (float_fraction m e)) = Zpos m * 2 ^ Z.max e 0 /\
  Z.of_N (snd (float_fraction m e)) = 2 ^ Z.max (- e) 0.
Proof.
  unfold float_fraction. destruct e as [|p|p]; cbn [fst snd Z.of_N].
  - change (Z.max 0 0) with 0. change (Z.max (- 0) 0) with 0.
    rewrite Z.pow_0_r. lia.
  - rewrite Pos2Z.inj_mul, Pos2Z.inj_pow, Z.max_l, Z.max_r by lia.
    by rewrite Z.pow_0_r.
  - rewrite Pos2Z.inj_pow, Z.max_r by lia. rewrite Z.max_l by lia.
    rewrite Z.pow_0_r. split; [lia|]. f_equal.
Qed.

Lemma bounded_spec m e :
  bounded prec emax m e = true ->
  -1074 <= e <= 971 /\ Zpos m < 2 ^ 53 /\
  fexp prec emax (Zpos (digits2_pos m) + e) = e.
Proof.
  unfold bounded, canonical_mantissa. intros [Hc Hb]%andb_prop.
  apply Z.eqb_eq in Hc. apply Z.leb_le in Hb.
  change (emax - prec) with 971 in Hb. split; [|split; [|done]].
  - rewrite fexp_eq in Hc. lia.
  - rewrite fexp_eq in Hc.
    destruct (digits2_spec m) as [_ Hhi].
    assert (Zpos (digits2_pos m) <= 53) by lia.
    pose proof (Z.pow_le_mono_r 2 (Zpos (digits2_pos m)) 53 ltac:(lia) H).
    lia.
Qed.

Lemma float_below m e :
  bounded prec emax m e = true ->
  below (fst (float_fraction m e)) (snd (float_fraction m e)) 309 /\
  ~ below (fst (float_fraction m e)) (snd (float_fraction m e)) (-324).
Proof.
  intros (He & Hm & _)%bounded_spec.
  destruct (float_fraction_spec m e) as [Hn Hd]. unfold below.
  rewrite Hn, Hd.
  replace (ten_up (- (309))) with 1 by done.
  replace (ten_down (- (309))) with (10 ^ 309) by done.
  replace (ten_up (- -324)) with (10 ^ 324) by done.
  replace (ten_down (- -324)) with 1 by done.
  rewrite !Z.mul_1_r.
  assert (H1 : 2 ^ Z.max e 0 <= 2 ^ 971) by (apply Z.pow_le_mono_r; lia).
  assert (H2 : 2 ^ Z.max (- e) 0 <= 2 ^ 1074) by (apply Z.pow_le_mono_r; lia).
  assert (H3 : 0 < 2 ^ Z.max e 0) by (apply Z.pow_pos_nonneg; lia).
  assert (H4 : 0 < 2 ^ Z.max (- e) 0) by (apply Z.pow_pos_nonneg; lia).
  assert (C1 : 2 ^ 53 * 2 ^ 971 < 10 ^ 309) by (by vm_compute).
  assert (C2 : 2 ^ 1074 <= 10 ^ 324) by (by vm_compute).
  assert (P1 : 0 < 10 ^ 309) by (by vm_compute).
  assert (P2 : 0 < 10 ^ 324) by (by vm_compute).
  assert (P3 : 0 < 2 ^ 971) by (by vm_compute).
  remember (2 ^ Z.max e 0) as n eqn:En in *.
  remember (2 ^ Z.max (- e) 0) as d eqn:Ed in *.
  remember (2 ^ 53) as a eqn:Ea in *. remember (2 ^ 971) as b eqn:Eb in *.
  remember (2 ^ 1074) as c eqn:Ec in *. remember (10 ^ 309) as u eqn:Eu in *.
  remember (10 ^ 324) as v eqn:Ev in *.
  clear En Ed Ea Eb Ec Eu Ev Hn Hd. split.
  - assert (Zpos m * n <= Zpos m * b) by (apply Z.mul_le_mono_nonneg_l; lia).
    assert (Zpos m * b < a * b) by (apply Z.mul_lt_mono_pos_r; lia).
    assert (1 * u <= d * u) by (apply Z.mul_le_mono_nonneg_r; lia). lia.
  - assert (1 * v <= Zpos m * n * v).
    { apply Z.mul_le_mono_nonneg_r; [lia|]. nia. }
    lia.
Qed.

(** The decimal exponent [n] of a number of the format:
    [10^(n-1) <= x < 10^n]. *)
Lemma float_exponent m e :
  bounded prec emax m e = true ->
  let num := fst (float_fraction m e) in
  let den := snd (float_fraction m e) in
  let n0 := decimal_exponent 700 num den (-324) in
  -324 < n0 <= 309 /\ below num den n0 /\ ~ below num den (n0 - 1).
Proof.
  intros Hb num den n0. destruct (float_below m e Hb) as [Hup Hlow].
  fold num den in Hup, Hlow.
  destruct (decimal_exponent_spec 700 num den (-324) 309 ltac:(lia) Hup
              ltac:(lia)) as (Hr & Hbel & Hprev).
  fold n0 in Hr, Hbel, Hprev.
  assert (n0 <> -324) by (intros E; rewrite E in Hbel; done).
  split; [lia|]. split; [done|]. apply Hprev. lia.
Qed.

Lemma below_mono num den n j :
  (0 < den)%N -> 0 <= j -> below num den n -> below num den (n + j).
Proof.
  unfold below. intros Hden Hj H.
  pose proof (scaled_shift (Z.of_N num) (Z.of_N den) (- (n + j)) j Hj) as Hs.
  replace (- (n + j) + j) with (- n) in Hs by lia.
  pose proof (ten_down_pos (- n)). pose proof (ten_down_pos (- (n + j))).
  pose proof (Z.pow_pos_nonneg 10 j ltac:(lia) Hj) as Hp.
  assert (Hb : 0 < Z.of_N den * ten_down (- (n + j))) by lia.
  assert (Hb' : 0 < Z.of_N den * ten_down (- n)) by lia.
  apply (proj2 (cross_lt _ _ _ _ _ Hb Hb' Hp Hs)).
  assert (Z.of_N den * ten_down (- n) <= Z.of_N den * ten_down (- n) * 10 ^ j).
  { apply Z.le_mul_diag_r; lia. }
  lia.
Qed.

Lemma pow10_lt_inv a b : 0 <= b -> 10 ^ a < 10 ^ b -> a < b.
Proof.
  intros Hb H. destruct (Z_lt_le_dec a b) as [|Hle]; [done|].
  pose proof (Z.pow_le_mono_r 10 b a ltac:(lia) Hle). lia.
Qed.

(** *** The digits [Number::toString] chooses *)

Lemma number_eqb_eq x y : number_eqb x y = true -> x = y.
Proof.
  destruct x as [a|a| |a m e], y as [b|b| |b m' e']; cbn; try done.
  - by intros ->%Bool.eqb_prop.
  - by intros ->%Bool.eqb_prop.
  - intros [[->%Bool.eqb_prop ->%Pos.eqb_eq]%andb_prop ->%Z.eqb_eq]%andb_prop.
    done.
Qed.

Lemma number_eqb_refl x : number_eqb x x = true.
Proof.
  destruct x as [a|a| |a m e]; cbn; try done; try by destruct a.
  by rewrite Bool.eqb_reflx, Pos.eqb_refl, Z.eqb_refl.
Qed.

(** The candidates of [shortest_at] are numerals of [k] digits that are
    read as [x]. *)
Lemma shortest_at_Some x num den n0 k c :
  1 <= k ->
  0 < Z.of_N (snd (scale10 num den (k - n0))) ->
  10 ^ (k - 1) * Z.of_N (snd (scale10 num den (k - n0)))
    <= Z.of_N (fst (scale10 num den (k - n0))) ->
  Z.of_N (fst (scale10 num den (k - n0)))
    < 10 ^ k * Z.of_N (snd (scale10 num den (k - n0))) ->
  shortest_at x num den n0 k = Some c ->
  has_digits (fst c) k /\
  number_of_decimal false (fst c) (snd c - k) = x.
Proof.
  intros Hk. unfold shortest_at.
  destruct (scale10 num den (k - n0)) as [a b]. cbn [fst snd].
  intros Hb Hlo Hhi.
  set (lo := (a / b)%N).
  set (hi := if (lo + 1 <? pow10 k)%N then ((lo + 1)%N, n0)
             else (pow10 (k - 1), n0 + 1)).
  assert (Hlo' : has_digits lo k).
  { unfold has_digits, lo. rewrite N2Z.inj_div. split.
    - apply Z.div_le_lower_bound; lia.
    - apply Z.div_lt_upper_bound; lia. }
  assert (Hhi' : has_digits (fst hi) k).
  { unfold hi. destruct (lo + 1 <? pow10 k)%N eqn:E; cbn [fst].
    - apply N.ltb_lt in E. unfold has_digits in *.
      assert (Z.of_N (lo + 1) < Z.of_N (pow10 k)) by lia.
      rewrite pow10_spec in H. unfold ten_up in H.
      rewrite Z.max_l in H by lia. lia.
    - unfold has_digits. rewrite pow10_spec. unfold ten_up.
      rewrite Z.max_l by lia. split; [lia|].
      apply Z.pow_lt_mono_r; lia. }
  cbv zeta. fold lo. fold hi.
  destruct (number_eqb (number_of_decimal false lo (n0 - k)) x) eqn:Elo;
  destruct (negb (a mod b =? 0)%N
            && number_eqb (number_of_decimal false (fst hi) (snd hi - k)) x)
    eqn:Ehi; cbn [andb].
  - apply andb_prop in Ehi as [_ Ehi]. apply number_eqb_eq in Elo, Ehi.
    destruct (2 * (a mod b) <? b)%N; [by intros [= Hc]; subst c|].
    destruct (b <? 2 * (a mod b))%N; [by intros [= Hc]; subst c|].
    destruct (N.even lo); by intros [= Hc]; subst c.
  - apply number_eqb_eq in Elo. by intros [= Hc]; subst c.
  - apply andb_prop in Ehi as [_ Ehi]. apply number_eqb_eq in Ehi.
    by intros [= Hc]; subst c.
  - done.
Qed.

(** A numeral with exactly the value of [x] that is read as [x] is a
    candidate. *)
Lemma shortest_at_exact x num den n0 k v :
  0 < Z.of_N (snd (scale10 num den (k - n0))) ->
  Z.of_N (fst (scale10 num den (k - n0)))
    = Z.of_N v * Z.of_N (snd (scale10 num den (k - n0))) ->
  number_of_decimal false v (n0 - k) = x ->
  shortest_at x num den n0 k <> None.
Proof.
  unfold shortest_at. destruct (scale10 num den (k - n0)) as [a b].
  cbn [fst snd]. intros Hb Ha Hx.
  assert (Hlo : (a / b)%N = v).
  { apply N2Z.inj. rewrite N2Z.inj_div, Ha. apply Z.div_mul. lia. }
  cbv zeta. rewrite Hlo. cbn [fst snd]. rewrite Hx, number_eqb_refl.
  cbn [andb].
  destruct (negb (a mod b =? 0)%N && _); [|done].
  destruct (2 * (a mod b) <? b)%N; [done|].
  destruct (b <? 2 * (a mod b))%N; [done|]. by destruct (N.even v).
Qed.

Lemma shortest_finds fuel x num den n0 k0 k1 :
  k0 <= k1 -> k1 - k0 < Z.of_nat fuel ->
  shortest_at x num den n0 k1 <> None ->
  exists k, k0 <= k <= k1 /\
    shortest_at x num den n0 k = Some (shortest fuel x num den n0 k0).
Proof.
  revert k0. induction fuel as [|fuel IH]; intros k0 Hle Hfuel Hk1; [lia|].
  cbn [shortest]. destruct (shortest_at x num den n0 k0) as [c|] eqn:E.
  - exists k0. split; [lia|done].
  - assert (k0 < k1).
    { destruct (Z.eq_dec k0 k1) as [->|]; [done|lia]. }
    destruct (IH (k0 + 1)) as (k & Hk & Hs); [lia|lia|done|].
    exists k. split; [lia|done].
Qed.

(** *** The digits of a number of the format *)

Section Float.
Variables (m : positive) (e : Z).
Hypothesis Hbounded : bounded prec emax m e = true.

Local Abbreviation num := (fst (float_fraction m e)).
Local Abbreviation den := (snd (float_fraction m e)).
Local Abbreviation n0 := (decimal_exponent 700 num den (-324)).

Lemma float_den_pos : (0 < den)%N.
Proof.
  destruct (float_fraction_spec m e) as [_ Hd].
  pose proof (Z.pow_pos_nonneg 2 (Z.max (- e) 0) ltac:(lia) ltac:(lia)). lia.
Qed.

(** With [k] digits, [x * 10^(k-n0)] lies between [10^(k-1)] and [10^k]. *)
Lemma float_range k :
  1 <= k ->
  0 < Z.of_N (snd (scale10 num den (k - n0))) /\
  10 ^ (k - 1) * Z.of_N (snd (scale10 num den (k - n0)))
    <= Z.of_N (fst (scale10 num den (k - n0))) /\
  Z.of_N (fst (scale10 num den (k - n0)))
    < 10 ^ k * Z.of_N (snd (scale10 num den (k - n0))).
Proof.
  intros Hk. destruct (float_exponent m e Hbounded) as (_ & Hbel & Hprev).
  destruct (scale10_spec num den (k - n0)) as [-> ->].
  pose proof float_den_pos as Hden.
  pose proof (ten_down_pos (k - n0)) as Hd.
  split; [lia|]. split.
  - rewrite (below_shift num den (n0 - 1) (k - 1) Hden ltac:(lia)) in Hprev.
    replace (k - 1 - (n0 - 1)) with (k - n0) in Hprev by lia. lia.
  - rewrite (below_shift num den n0 k Hden ltac:(lia)) in Hbel. lia.
Qed.

(** The decimal that is exactly [x], and the number of its digits. *)
Lemma float_exact_candidate :
  exists k1 v,
    1 <= k1 <= 800 /\
    0 < Z.of_N (snd (scale10 num den (k1 - n0))) /\
    Z.of_N (fst (scale10 num den (k1 - n0)))
      = Z.of_N v * Z.of_N (snd (scale10 num den (k1 - n0))) /\
    number_of_decimal false v (n0 - k1) = S754_finite false m e.
Proof.
  destruct (bounded_spec m e Hbounded) as (He & Hm & _).
  destruct (float_fraction_spec m e) as [Hn Hd].
  destruct (float_exponent m e Hbounded) as (_ & Hbel & _).
  pose proof float_den_pos as Hden.
  set (E := Z.min e 0).
  set (v := Z.to_N (Zpos m * 2 ^ Z.max e 0 * 5 ^ (- E))).
  assert (H5 : 0 < 5 ^ (- E)) by (apply Z.pow_pos_nonneg; lia).
  assert (H2 : 0 < 2 ^ Z.max e 0) by (apply Z.pow_pos_nonneg; lia).
  assert (Hv : Z.of_N v = Zpos m * 2 ^ Z.max e 0 * 5 ^ (- E)).
  { unfold v. rewrite Z2N.id; [done|]. nia. }
  assert (Hv1 : 1 <= Z.of_N v) by (rewrite Hv; nia).
  assert (Hscale :
    Z.of_N (fst (scale10 num den (- E)))
    = Z.of_N v * Z.of_N (snd (scale10 num den (- E)))).
  { destruct (scale10_spec num den (- E)) as [-> ->].
    rewrite Hn, Hd, Hv. unfold ten_up, ten_down.
    rewrite (Z.max_l (- E)), (Z.max_r (- - E)) by lia.
    rewrite Z.pow_0_r, Z.mul_1_r.
    replace (10 ^ (- E)) with (5 ^ (- E) * 2 ^ (- E))
      by (by rewrite <- Z.pow_mul_l).
    replace (Z.max (- e) 0) with (- E) by lia. lia. }
  assert (Hnb : ~ below num den E).
  { unfold below. destruct (scale10_spec num den (- E)) as [Ha Hb].
    rewrite <- Ha, <- Hb, Hscale.
    assert (0 < Z.of_N (snd (scale10 num den (- E)))).
    { rewrite Hb. pose proof (ten_down_pos (- E)). lia. }
    nia. }
  assert (Hn0 : E < n0).
  { destruct (Z_lt_le_dec E n0) as [|Hle]; [done|]. exfalso. apply Hnb.
    replace E with (n0 + (E - n0)) by lia. apply below_mono; [done|lia|done]. }
  exists (n0 - E), v.
  replace (n0 - E - n0) with (- E) by lia.
  replace (n0 - (n0 - E)) with E by lia.
  assert (Hb : 0 < Z.of_N (snd (scale10 num den (- E)))).
  { destruct (scale10_spec num den (- E)) as [_ ->].
    pose proof (ten_down_pos (- E)). lia. }
  split; [|split; [done|split; [done|]]].
  - split; [lia|].
    destruct (float_range (n0 - E) ltac:(lia)) as (_ & Hlo & _).
    replace (n0 - E - n0) with (- E) in Hlo by lia.
    rewrite Hscale in Hlo.
    assert (Hlo' : 10 ^ (n0 - E - 1) <= Z.of_N v) by nia.
    assert (Hvb : Z.of_N v < 10 ^ 767).
    { rewrite Hv. unfold E. clear Hlo Hlo'.
      assert (C1 : 2 ^ 53 * 2 ^ 971 < 10 ^ 767) by (by vm_compute).
      assert (C2 : 2 ^ 53 * 5 ^ 1074 < 10 ^ 767) by (by vm_compute).
      assert (P2 : 0 < 2 ^ 971) by (by vm_compute).
      assert (P5 : 0 < 5 ^ 1074) by (by vm_compute).
      destruct (Z_lt_le_dec e 0) as [Hneg|Hpos].
      - rewrite Z.min_l, Z.max_r by lia. rewrite Z.pow_0_r, Z.mul_1_r.
        assert (B5 : 5 ^ (- e) <= 5 ^ 1074) by (apply Z.pow_le_mono_r; lia).
        assert (Q5 : 0 < 5 ^ (- e)) by (apply Z.pow_pos_nonneg; lia).
        remember (5 ^ (- e)) as b eqn:Eb in *.
        remember (2 ^ 53) as c eqn:Ec in *.
        remember (5 ^ 1074) as f eqn:Ef in *.
        remember (10 ^ 767) as g eqn:Eg in *. clear Eb Ec Ef Eg.
        assert (Zpos m * b <= Zpos m * f)
          by (apply Z.mul_le_mono_nonneg_l; lia).
        assert (Zpos m * f < c * f) by (apply Z.mul_lt_mono_pos_r; lia). lia.
      - rewrite Z.min_r, Z.max_l by lia. change (- 0) with 0.
        rewrite Z.pow_0_r, Z.mul_1_r.
        assert (B2 : 2 ^ e <= 2 ^ 971) by (apply Z.pow_le_mono_r; lia).
        assert (Q2 : 0 < 2 ^ e) by (apply Z.pow_pos_nonneg; lia).
        remember (2 ^ e) as b eqn:Eb in *.
        remember (2 ^ 53) as c eqn:Ec in *.
        remember (2 ^ 971) as f eqn:Ef in *.
        remember (10 ^ 767) as g eqn:Eg in *. clear Eb Ec Ef Eg.
        assert (Zpos m * b <= Zpos m * f)
          by (apply Z.mul_le_mono_nonneg_l; lia).
        assert (Zpos m * f < c * f) by (apply Z.mul_lt_mono_pos_r; lia). lia. }
    assert (n0 - E - 1 < 767) by (apply pow10_lt_inv; lia). lia.
  - unfold E. destruct (Z_lt_le_dec e 0) as [Hneg|Hpos].
    + rewrite Z.min_l by lia. apply number_of_decimal_fraction; [done|done|].
      rewrite Hv. unfold E. rewrite Z.min_l, Z.max_r by lia.
      rewrite Z.pow_0_r. lia.
    + rewrite Z.min_r by lia. apply number_of_decimal_integer; [done|done|].
      rewrite Hv. unfold E. rewrite Z.min_r, Z.max_l by lia.
      change (- 0) with 0. rewrite Z.pow_0_r. lia.
Qed.

(** [Number::toString] finds digits, and they are read as [x]. *)
Lemma shortest_float :
  exists k,
    1 <= k /\
    has_digits (fst (shortest 800 (S754_finite false m e) num den n0 1)) k /\
    number_of_decimal false
      (fst (shortest 800 (S754_finite false m e) num den n0 1))
      (snd (shortest 800 (S754_finite false m e) num den n0 1) - k)
    = S754_finite false m e.
Proof.
  destruct float_exact_candidate as (k1 & v & Hk1 & Hb & Ha & Hx).
  pose proof (shortest_at_exact _ _ _ _ _ _ Hb Ha Hx) as Hsome.
  assert (H1 : 1 <= k1) by lia.
  assert (H2 : k1 - 1 < Z.of_nat 800)
    by (change (Z.of_nat 800) with 800; lia).
  destruct (shortest_finds 800 _ _ _ _ 1 k1 H1 H2 Hsome) as (k & Hk & Hs).
  exists k. split; [lia|].
  destruct (float_range k ltac:(lia)) as (Hb' & Hlo & Hhi).
  by apply (shortest_at_Some _ _ _ _ _ _ (proj1 Hk) Hb' Hlo Hhi Hs).
Qed.

End Float.

End DecimalExponent.

(** ** Reading the numeral [Number::toString] writes *)

Lemma digits_value_app acc a b :
  digits_value acc (a ++ b) = digits_value (digits_value acc a) b.
Proof. revert acc. induction a as [|c a IH]; intros acc; cbn; [done|apply IH]. Qed.

Lemma digits_value_shift acc t :
  digits_value acc t
    = (acc * 10 ^ N.of_nat (length t) + digits_value 0 t)%N.
Proof.
  revert acc. induction t as [|c t IH]; intros acc.
  - cbn. lia.
  - cbn [digits_value length]. rewrite IH, (IH (10 * 0 + digit_value c)%N).
    rewrite Nat2N.inj_succ, N.pow_succ_r by lia. lia.
Qed.

Lemma zeros_digits j : forallb is_digit (zeros j) = true.
Proof.
  unfold zeros. induction (Z.to_nat j) as [|n IH]; [done|]. cbn. by rewrite IH.
Qed.

Lemma zeros_length j : length (zeros j) = Z.to_nat j.
Proof. unfold zeros. apply repeat_length. Qed.

Lemma zeros_value acc j : digits_value acc (zeros j) = (acc * 10 ^ Z.to_N j)%N.
Proof.
  rewrite digits_value_shift, zeros_length.
  assert (H : digits_value 0 (zeros j) = 0%N).
  { unfold zeros. induction (Z.to_nat j) as [|n IH]; [done|]. cbn. apply IH. }
  rewrite H, Z_nat_N. lia.
Qed.

Lemma digit_not_char c x :
  is_digit c = true -> (code x < 48 \/ 57 < code x)%N -> is_char x c = false.
Proof.
  unfold is_digit, is_char. intros H Hx. bools. apply N.eqb_neq. lia.
Qed.

(** The digits of a numeral of [k] digits. *)
Lemma decimal_digits_of s k :
  (1 <= k)%Z -> has_digits s k ->
  forallb is_digit (decimal s) = true /\
  digits_value 0 (decimal s) = s /\
  Z.of_nat (length (decimal s)) = k /\
  exists d rest, decimal s = d :: rest /\ is_char "0" d = false /\
                 is_digit d = true.
Proof.
  intros Hk [Hlo Hhi].
  destruct (decimal_spec s) as (ds & -> & Hd & Hv & Hne & Hhead & Hlt & Hge).
  assert (Hs : s <> 0%N).
  { intros ->. pose proof (Z.pow_pos_nonneg 10 (k - 1) ltac:(lia) ltac:(lia)).
    cbn in Hlo. lia. }
  specialize (Hhead Hs). specialize (Hge Hs).
  split; [done|]. split; [done|]. split.
  - assert (Hlt' : (Z.of_N s < 10 ^ Z.of_nat (length ds))%Z).
    { apply N2Z.inj_lt in Hlt. rewrite N2Z.inj_pow in Hlt.
      by rewrite nat_N_Z in Hlt. }
    assert (Hge' : (10 ^ (Z.of_nat (length ds) - 1) <= Z.of_N s)%Z).
    { apply N2Z.inj_le in Hge. rewrite N2Z.inj_pow in Hge.
      rewrite N2Z.inj_sub in Hge by (destruct ds; [done|cbn [length]; lia]).
      by rewrite nat_N_Z in Hge. }
    assert (Hl : (1 <= Z.of_nat (length ds))%Z)
      by (destruct ds; [done|cbn [length]; lia]).
    assert (k - 1 < Z.of_nat (length ds))%Z by (apply pow10_lt_inv; lia).
    assert (Z.of_nat (length ds) - 1 < k)%Z by (apply pow10_lt_inv; lia).
    lia.
  - destruct ds as [|d rest]; [done|]. exists d, rest. split; [done|].
    split; [done|]. cbn in Hd. by apply andb_prop in Hd as [-> _].
Qed.

(** The Number value of [s * 10^j], written with its zeros or with an
    exponent. *)
Lemma number_of_decimal_zeros neg s j :
  (0 <= j)%Z -> s <> 0%N ->
  number_of_decimal neg (s * 10 ^ Z.to_N j) 0 = number_of_decimal neg s j.
Proof.
  intros Hj Hs. destruct s as [|p]; [done|]. unfold number_of_decimal.
  destruct j as [|q|q]; [| |lia].
  - cbn [Z.to_N]. by rewrite N.pow_0_r, N.mul_1_r.
  - cbn [Z.to_N]. change (10 ^ N.pos q)%N with (N.pos (10 ^ q)). done.
Qed.

Lemma span_digits_all ds :
  forallb is_digit ds = true -> span_digits ds = (ds, []).
Proof.
  intros H. rewrite <- (app_nil_r ds) at 1. by apply span_digits_app.
Qed.

Lemma int_part_digits ds r :
  forallb is_digit ds = true ->
  match ds with d :: _ => is_char "0" d = false | [] => False end ->
  match r with c :: _ => is_digit c = false | [] => True end ->
  int_part (ds ++ r) = Some (ds, r).
Proof.
  intros Hd Hhead Hr. destruct ds as [|d ds]; [done|].
  unfold int_part. cbn [app]. rewrite Hhead.
  pose proof Hd as Hd'. cbn in Hd'. apply andb_prop in Hd' as [-> _].
  change (d :: ds ++ r) with ((d :: ds) ++ r). by rewrite span_digits_app.
Qed.

Lemma frac_part_digits ds r :
  forallb is_digit ds = true -> ds <> [] ->
  match r with c :: _ => is_digit c = false | [] => True end ->
  frac_part ("."%char :: ds ++ r) = Some (ds, r).
Proof.
  intros Hd Hne Hr. unfold frac_part.
  change (is_char "." ".") with true. cbv iota.
  rewrite span_digits_app by done. by destruct ds.
Qed.

(** The exponent part [e+N] or [e-N]. *)
Lemma exp_part_written (e : Z) :
  exp_part ("e"%char :: (if (e <? 0)%Z then "-"%char else "+"%char)
              :: decimal (Z.to_N (Z.abs e)))
    = Some (e, []).
Proof.
  destruct (decimal_spec (Z.to_N (Z.abs e))) as (ds & -> & Hd & Hv & Hne & _).
  unfold exp_part. change (is_char "e" "e" || is_char "E" "e") with true.
  cbv iota. destruct (e <? 0)%Z eqn:E.
  - change (is_char "-" "-") with true. cbv iota.
    rewrite span_digits_all by done. destruct ds as [|d ds']; [done|].
    rewrite Hv. apply Z.ltb_lt in E. repeat f_equal. lia.
  - change (is_char "-" "+") with false. change (is_char "+" "+") with true.
    cbv iota. rewrite span_digits_all by done. destruct ds as [|d ds']; [done|].
    rewrite Hv. apply Z.ltb_ge in E. repeat f_equal. lia.
Qed.

Lemma take_drop_digits (n : nat) (ds : text) :
  forallb is_digit ds = true ->
  forallb is_digit (take n ds) = true /\ forallb is_digit (drop n ds) = true.
Proof.
  intros H. rewrite <- (take_drop n ds) in H at 1.
  rewrite forallb_app in H. by apply andb_prop in H.
Qed.

(** [format_decimal] writes a numeral of [k] digits with the exponent [n]
    so that it is read as the digits times [10^(n-k)]. *)
Lemma format_decimal_read neg s k n :
  (1 <= k)%Z -> has_digits s k ->
  unsigned_lit neg (format_decimal (decimal s) n)
    = Some (number_of_decimal neg s (n - k), []).
Proof.
  intros Hk Hs.
  destruct (decimal_digits_of s k Hk Hs) as (Hd & Hv & Hl & d & rest & E & H0 & Hdd).
  assert (Hs0 : s <> 0%N).
  { intros ->. destruct Hs as [Hlo _].
    pose proof (Z.pow_pos_nonneg 10 (k - 1) ltac:(lia) ltac:(lia)).
    cbn in Hlo. lia. }
  unfold format_decimal. rewrite Hl.
  destruct ((k <=? n)%Z && (n <=? 21)%Z) eqn:A.
  { bools. unfold unsigned_lit.
    rewrite <- (app_nil_r (decimal s ++ zeros (n - k))).
    rewrite int_part_digits; [| |by rewrite E|done].
    2:{ by rewrite forallb_app, Hd, zeros_digits. }
    cbn [frac_part exp_part]. rewrite app_nil_r, digits_value_app, Hv.
    rewrite zeros_value. cbn [length]. f_equal. f_equal.
    apply number_of_decimal_zeros; [lia|done]. }
  destruct ((0 <? n)%Z && (n <=? 21)%Z) eqn:B.
  { bools. assert (n < k)%Z by lia.
    destruct (take_drop_digits (Z.to_nat n) (decimal s) Hd) as [Ht Hr].
    assert (Hlen : length (drop (Z.to_nat n) (decimal s)) = Z.to_nat (k - n)).
    { rewrite length_drop. lia. }
    unfold unsigned_lit.
    rewrite int_part_digits; [|done| |done].
    2:{ rewrite E. destruct (Z.to_nat n) as [|n'] eqn:N; [lia|]. done. }
    rewrite <- (app_nil_r (drop (Z.to_nat n) (decimal s))).
    rewrite frac_part_digits; [|done| |done].
    2:{ intros Hnil. rewrite Hnil in Hlen. cbn in Hlen. lia. }
    cbn [exp_part]. rewrite take_drop, Hv, Hlen. f_equal. f_equal. f_equal. lia. }
  destruct ((-6 <? n)%Z && (n <=? 0)%Z) eqn:C.
  { bools. unfold unsigned_lit. cbn [int_part].
    change (is_char "0" "0") with true. cbv iota.
    rewrite <- (app_nil_r (zeros (- n) ++ decimal s)).
    rewrite frac_part_digits; [| |by rewrite E; destruct (zeros (- n))|done].
    2:{ by rewrite forallb_app, Hd, zeros_digits. }
    cbn [exp_part]. cbn [app digits_value].
    change (10 * 0 + digit_value "0")%N with 0%N.
    rewrite digits_value_app, zeros_value, N.mul_0_l, Hv.
    rewrite length_app, zeros_length. f_equal. f_equal. f_equal. lia. }
  cbv zeta. rewrite E. rewrite E in Hd, Hv, Hl.
  destruct rest as [|d' rest'].
  - cbn [length] in Hl. unfold unsigned_lit.
    change (d :: "e"%char :: ?t) with ([d] ++ "e"%char :: t).
    rewrite int_part_digits; [|done|done|done].
    cbn [frac_part]. change (is_char "." "e") with false. cbv iota.
    rewrite exp_part_written. rewrite app_nil_r, Hv. cbn [length].
    f_equal. f_equal. f_equal. lia.
  - unfold unsigned_lit.
    change (d :: "."%char :: ?t) with ([d] ++ "."%char :: t).
    rewrite int_part_digits; [| |done|done].
    2:{ cbn. by rewrite Hdd. }
    assert (Hrest : forallb is_digit (d' :: rest') = true).
    { cbn [forallb] in Hd. apply andb_prop in Hd as [_ Hd']. exact Hd'. }
    rewrite frac_part_digits; [|done|done|done].
    rewrite exp_part_written.
    change ([d] ++ d' :: rest') with (d :: d' :: rest'). rewrite Hv.
    f_equal. f_equal. f_equal. cbn [length] in *. lia.
Qed.

(** The numeral starts with a digit. *)
Lemma format_decimal_first s k n :
  (1 <= k)%Z -> has_digits s k ->
  exists c t, format_decimal (decimal s) n = c :: t /\ is_digit c = true.
Proof.
  intros Hk Hs.
  destruct (decimal_digits_of s k Hk Hs) as (Hd & Hv & Hl & d & rest & E & H0 & Hdd).
  unfold format_decimal. rewrite Hl.
  destruct ((k <=? n)%Z && (n <=? 21)%Z) eqn:A.
  { rewrite E. cbn [app]. eauto. }
  destruct ((0 <? n)%Z && (n <=? 21)%Z) eqn:B.
  { bools. rewrite E. destruct (Z.to_nat n) as [|n'] eqn:N; [lia|].
    cbn [take app]. eauto. }
  destruct ((-6 <? n)%Z && (n <=? 0)%Z) eqn:C.
  { exists "0"%char, ("."%char :: zeros (- n) ++ decimal s). by split. }
  cbv zeta. rewrite E. destruct rest; eauto.
Qed.

Lemma number_lit_written (neg : bool) s k n :
  (1 <= k)%Z -> has_digits s k ->
  number_lit ((if neg then ["-"%char] else []) ++ format_decimal (decimal s) n)
    = Some (number_of_decimal neg s (n - k), []).
Proof.
  intros Hk Hs. rewrite number_lit_unsigned. destruct neg.
  - cbn [app]. change (is_char "-" "-") with true. cbv iota.
    by apply format_decimal_read.
  - cbn [app]. destruct (format_decimal_first s k n Hk Hs) as (c & t & E & Hc).
    pose proof (format_decimal_read false s k n Hk Hs) as R. rewrite E in *.
    rewrite (digit_not_char c "-" Hc); [done|]. left. by vm_compute.
Qed.

(** ** The round trip of a Number *)

Lemma Number_toString_finite neg m e :
  Number_toString (S754_finite neg m e)
    = let num := fst (float_fraction m e) in
      let den := snd (float_fraction m e) in
      let n0 := decimal_exponent 700 num den (-324) in
      let c := shortest 800 (S754_finite false m e) num den n0 1 in
      (if neg then ["-"%char] else []) ++ format_decimal (decimal (fst c)) (snd c).
Proof.
  unfold Number_toString, float_fraction. cbv zeta.
  destruct e as [|p|p]; cbn [fst snd];
    by destruct (shortest _ _ _ _ _ _) as [s n].
Qed.

(** Every finite Number other than [-0] is read back from its numeral. *)
Lemma stable_number_valid x :
  valid_binary prec emax x = true -> writable_number x = true ->
  stable_number x = true.
Proof.
  intros Hvalid Hw. destruct x as [[|]|s| |neg m e]; try done.
  unfold stable_number. cbn [is_finite andb].
  rewrite Number_toString_finite. cbv zeta.
  cbn [valid_binary] in Hvalid.
  destruct (shortest_float m e Hvalid) as (k & Hk & Hs & Hread).
  rewrite (number_lit_written neg _ k _ Hk Hs).
  destruct neg.
  - rewrite number_of_decimal_opp, Hread. cbn [SFopp negb].
    apply number_eqb_refl.
  - rewrite Hread. apply number_eqb_refl.
Qed.

(** What a number literal denotes is a binary64 value. *)
Lemma number_lit_valid t x r :
  number_lit t = Some (x, r) -> valid_binary prec emax x = true.
Proof.
  assert (H : forall neg t0, unsigned_lit neg t0 = Some (x, r) ->
                valid_binary prec emax x = true).
  { intros neg t0. unfold unsigned_lit.
    destruct (int_part t0) as [[i t2]|]; [|done].
    destruct (frac_part t2) as [[f t3]|]; [|done].
    destruct (exp_part t3) as [[e t4]|]; [|done].
    intros [= <- _]. apply number_of_decimal_valid. }
  rewrite number_lit_unsigned. destruct t as [|c t]; [done|].
  destruct (is_char "-" c); apply H.
Qed.

(** ** What [JSON.parse] returns on a text without backslash *)

Lemma clean_suffix t rest : clean t -> rest `suffix_of` t -> clean rest.
Proof. intros Hc [pre ->]. by apply Forall_app in Hc as [_ ?]. Qed.

Lemma skip_ws_suffix t : skip_ws t `suffix_of` t.
Proof.
  induction t as [|c t IH]; cbn; [done|].
  destruct (is_json_ws c); [by apply suffix_cons_r|done].
Qed.

Lemma strip_prefix_Some p t r : strip_prefix p t = Some r -> t = p ++ r.
Proof.
  revert t. induction p as [|a p IH]; intros [|c t]; cbn; try done.
  - by intros [= ->].
  - by intros [= ->].
  - destruct (is_char a c) eqn:E; [|done]. apply is_char_eq in E as ->.
    by intros ->%IH.
Qed.

Lemma keyword_spec t v rest :
  keyword t = Some (v, rest) ->
  (v = JBool true /\ t = chars "true" ++ rest) \/
  (v = JBool false /\ t = chars "false" ++ rest) \/
  (v = JNull /\ t = chars "null" ++ rest).
Proof.
  unfold keyword.
  destruct (strip_prefix (chars "true") t) eqn:T.
  { intros [= <- <-]. left. split; [done|]. by apply strip_prefix_Some. }
  destruct (strip_prefix (chars "false") t) eqn:F.
  { intros [= <- <-]. right. left. split; [done|]. by apply strip_prefix_Some. }
  destruct (strip_prefix (chars "null") t) eqn:N; [|done].
  intros [= <- <-]. right. right. split; [done|]. by apply strip_prefix_Some.
Qed.

Lemma string_body_spec t s rest :
  string_body t = Some (s, rest) -> clean t ->
  plain s = true /\ t = chars s ++ dquote :: rest.
Proof.
  revert s rest. induction t as [|c t IH]; intros s rest; [done|].
  cbn [string_body]. intros H Hc. apply Forall_cons in Hc as [Hb Hc].
  destruct (is_char dquote c) eqn:Q.
  - injection H as <- <-. apply is_char_eq in Q as <-. done.
  - rewrite Hb in H. destruct (code c <? 32)%N eqn:L; [done|].
    destruct (string_body t) as [[s' rest']|] eqn:S; [|done].
    injection H as <- <-. destruct (IH _ _ eq_refl Hc) as [Hp ->].
    split; [|done]. unfold plain in *. cbn [chars list_ascii_of_string forallb].
    fold (chars s'). rewrite Hp. unfold plain_char. by rewrite L, Q, Hb.
Qed.

Lemma value_S fuel t :
  value (S fuel) t =
    match skip_ws t with
    | [] => None
    | c :: r =>
        if is_char "{" c then
          match skip_ws r with
          | c' :: r' =>
              if is_char "}" c' then Some (JObject [], r')
              else members fuel (c' :: r') []
          | [] => None
          end
        else if is_char "[" c then
          match skip_ws r with
          | c' :: r' =>
              if is_char "]" c' then Some (JArray [], r')
              else match elements fuel (c' :: r') with
                   | Some (l, rest) => Some (JArray l, rest)
                   | None => None
                   end
          | [] => None
          end
        else if is_char dquote c then
          match string_body r with
          | Some (s, rest) => Some (JString s, rest)
          | None => None
          end
        else if is_digit c || is_char "-" c then
          match number_lit (c :: r) with
          | Some (x, rest) => Some (JNumber x, rest)
          | None => None
          end
        else keyword (c :: r)
    end.
Proof. reflexivity. Qed.

Lemma elements_S fuel t :
  elements (S fuel) t =
    match value fuel t with
    | Some (v, r) =>
        match skip_ws r with
        | c :: r' =>
            if is_char "," c then
              match elements fuel r' with
              | Some (l, rest) => Some (v :: l, rest)
              | None => None
              end
            else if is_char "]" c then Some ([v], r')
            else None
        | [] => None
        end
    | None => None
    end.
Proof. reflexivity. Qed.

Lemma members_S fuel t o :
  members (S fuel) t o =
    match skip_ws t with
    | c :: r =>
        if is_char dquote c then
          match string_body r with
          | Some (k, r1) =>
              match skip_ws r1 with
              | c1 :: r2 =>
                  if is_char ":" c1 then
                    match value fuel r2 with
                    | Some (v, r3) =>
                        match skip_ws r3 with
                        | c3 :: r4 =>
                            if is_char "," c3 then members fuel r4 (put k v o)
                            else if is_char "}" c3
                                 then Some (JObject (put k v o), r4)
                                 else None
                        | [] => None
                        end
                    | None => None
                    end
                  else None
              | [] => None
              end
          | None => None
          end
        else None
    | [] => None
    end.
Proof. reflexivity. Qed.

Lemma good_empty_object : good (JObject []).
Proof. constructor; [exact I|constructor]. Qed.

Lemma put_good k v o :
  plain k = true -> good v -> good (JObject o) -> good (JObject (put k v o)).
Proof.
  intros Hk Hv Ho. inversion Ho as [| | | | |o' Hc Hall]; subst.
  constructor; [by apply put_canonical|].
  apply Forall_forall. intros e [->|He]%list_elem_of_In%In_put; [done|].
  rewrite Forall_forall in Hall. by apply Hall, list_elem_of_In.
Qed.

Lemma clean_tail c t : clean (c :: t) -> clean t.
Proof. by intros [_ ?]%Forall_cons. Qed.

Lemma clean_skip_ws t : clean t -> clean (skip_ws t).
Proof. intros H. apply (clean_suffix t); [done|apply skip_ws_suffix]. Qed.

Lemma parse_good fuel :
  (forall t v rest, value fuel t = Some (v, rest) -> clean t ->
     good v /\ clean rest) /\
  (forall t l rest, elements fuel t = Some (l, rest) -> clean t ->
     Forall good l /\ clean rest) /\
  (forall t o v rest, members fuel t o = Some (v, rest) -> clean t ->
     good (JObject o) -> good v /\ clean rest).
Proof.
  induction fuel as [|fuel (IHv & IHe & IHm)]; [done|].
  split; [|split].
  - intros t v rest. rewrite value_S. intros H Hc.
    apply clean_skip_ws in Hc. destruct (skip_ws t) as [|c r]; [done|].
    pose proof (clean_tail _ _ Hc) as Hr.
    destruct (is_char "{" c).
    { apply clean_skip_ws in Hr. destruct (skip_ws r) as [|c' r']; [done|].
      destruct (is_char "}" c').
      - injection H as <- <-. split; [apply good_empty_object|].
        by apply clean_tail in Hr.
      - by apply (IHm _ _ _ _ H Hr), good_empty_object. }
    destruct (is_char "[" c).
    { apply clean_skip_ws in Hr. destruct (skip_ws r) as [|c' r']; [done|].
      destruct (is_char "]" c').
      - injection H as <- <-. split; [by constructor|].
        by apply clean_tail in Hr.
      - destruct (elements fuel (c' :: r')) as [[l rest']|] eqn:E; [|done].
        injection H as <- <-. destruct (IHe _ _ _ E Hr) as [Hl Hrest].
        split; [by constructor|done]. }
    destruct (is_char dquote c).
    { destruct (string_body r) as [[s rest']|] eqn:S; [|done].
      injection H as <- <-. destruct (string_body_spec _ _ _ S Hr) as [Hp ->].
      split; [by constructor|].
      apply Forall_app in Hr as [_ Hr]. by apply clean_tail in Hr. }
    destruct (is_digit c || is_char "-" c).
    { destruct (number_lit (c :: r)) as [[x rest']|] eqn:N; [|done].
      injection H as <- <-.
      split; [constructor; by apply (number_lit_valid _ _ _ N)|].
      destruct (number_lit_reads _ _ _ N) as ((cs & Heq & _) & _).
      rewrite Heq in Hc. by apply Forall_app in Hc as [_ ?]. }
    apply keyword_spec in H as [[-> Heq]|[[-> Heq]|[-> Heq]]];
      (split; [constructor|]); rewrite Heq in Hc;
      by apply Forall_app in Hc as [_ ?].
  - intros t l rest. rewrite elements_S. intros H Hc.
    destruct (value fuel t) as [[v r]|] eqn:V; [|done].
    destruct (IHv _ _ _ V Hc) as [Hv Hr].
    apply clean_skip_ws in Hr. destruct (skip_ws r) as [|c r']; [done|].
    apply clean_tail in Hr.
    destruct (is_char "," c).
    { destruct (elements fuel r') as [[l' rest']|] eqn:E; [|done].
      injection H as <- <-. destruct (IHe _ _ _ E Hr) as [Hl Hrest].
      split; [by constructor|done]. }
    destruct (is_char "]" c); [|done].
    injection H as <- <-. split; [by repeat constructor|done].
  - intros t o v rest. rewrite members_S. intros H Hc Ho.
    apply clean_skip_ws in Hc. destruct (skip_ws t) as [|c r]; [done|].
    apply clean_tail in Hc.
    destruct (is_char dquote c); [|done].
    destruct (string_body r) as [[k r1]|] eqn:S; [|done].
    destruct (string_body_spec _ _ _ S Hc) as [Hk ->].
    apply Forall_app in Hc as [_ Hc]. apply clean_tail, clean_skip_ws in Hc.
    destruct (skip_ws r1) as [|c1 r2]; [done|]. apply clean_tail in Hc.
    destruct (is_char ":" c1); [|done].
    destruct (value fuel r2) as [[v' r3]|] eqn:V; [|done].
    destruct (IHv _ _ _ V Hc) as [Hv Hr3].
    apply clean_skip_ws in Hr3. destruct (skip_ws r3) as [|c3 r4]; [done|].
    apply clean_tail in Hr3.
    pose proof (put_good _ _ _ Hk Hv Ho) as Hput.
    destruct (is_char "," c3).
    { by apply (IHm _ _ _ _ H Hr3). }
    destruct (is_char "}" c3); [|done].
    injection H as <- <-. done.
Qed.

(** ** Reading back what [JSON.stringify] writes *)

Ltac by_cases c :=
  destruct c as [[] [] [] [] [] [] [] []]; vm_compute; intuition congruence.

Lemma start_char_facts c :
  is_start c = true ->
  is_json_ws c = false /\ is_char "]" c = false /\ is_char "}" c = false /\
  is_char "," c = false /\ is_trim_space c = false /\
  is_char squote c = false /\ is_char backslash c = false.
Proof. by_cases c. Qed.

Lemma number_start c : is_digit c || is_char "-" c = true ->
  is_start c = true /\ is_char "{" c = false /\ is_char "[" c = false /\
  is_char dquote c = false.
Proof. by_cases c. Qed.

Lemma number_char_facts c :
  is_number_char c = true ->
  is_trim_space c = false /\ is_char backslash c = false /\
  is_char dquote c = false /\ is_char squote c = false.
Proof. by_cases c. Qed.

Lemma separator_stop c :
  is_char "," c || is_char "]" c || is_char "}" c = true ->
  is_number_char c = false /\ is_json_ws c = false.
Proof. by_cases c. Qed.

Lemma plain_char_quote c : plain_char c = true -> quote_char c = [c].
Proof. by_cases c. Qed.

Lemma plain_char_facts c :
  plain_char c = true ->
  is_char dquote c = false /\ is_char backslash c = false /\
  (code c <? 32)%N = false.
Proof. by_cases c. Qed.

Lemma quote_plain s : plain s = true -> Quote s = dquote :: chars s ++ [dquote].
Proof.
  unfold Quote, plain. intros H. do 2 f_equal.
  induction (chars s) as [|c t IH]; cbn in *; [done|]. bools.
  by rewrite plain_char_quote, IH.
Qed.

Lemma string_body_plain s rest :
  plain s = true -> string_body (chars s ++ dquote :: rest) = Some (s, rest).
Proof.
  unfold plain. induction s as [|c s IH]; cbn [chars list_ascii_of_string app].
  - intros _. cbn. by rewrite is_char_refl.
  - fold (chars s). cbn [forallb]. intros H. bools.
    destruct (plain_char_facts _ H) as (Q & B & L).
    cbn [string_body]. rewrite Q, B, L. by rewrite IH.
Qed.

Lemma plain_clean s : plain s = true -> clean (chars s).
Proof.
  unfold plain, clean. intros H. apply Forall_forall. intros c Hc.
  rewrite forallb_forall in H. apply list_elem_of_In, H in Hc.
  by apply plain_char_facts in Hc as (_ & ? & _).
Qed.

Lemma stable_number_spec x :
  stable_number x = true ->
  is_finite x = true /\ number_lit (Number_toString x) = Some (x, []).
Proof.
  unfold stable_number. intros H. bools. split; [done|].
  destruct (number_lit (Number_toString x)) as [[y [|? ?]]|]; try done.
  by apply number_eqb_eq in H0 as ->.
Qed.

(** A serialised value starts with a start character. *)
Lemma stringify_first v :
  stable_numbers v = true ->
  exists c t, JSON_stringify v = c :: t /\ is_start c = true.
Proof.
  destruct v as [|[]|x|s|l|o]; cbn [JSON_stringify stable_numbers];
    intros H; try (eexists _, _; split; [reflexivity|reflexivity]).
  apply stable_number_spec in H as [-> H].
  destruct (number_lit_first _ _ _ H) as (c & t & -> & Hc).
  exists c, t. split; [done|]. by apply number_start.
Qed.

Lemma stringify_array l :
  JSON_stringify (JArray l) = "["%char :: elements_text l ++ ["]"%char].
Proof. reflexivity. Qed.

Lemma stringify_object o :
  JSON_stringify (JObject o) = "{"%char :: members_text o ++ ["}"%char].
Proof. reflexivity. Qed.

Lemma join_cons (x y : text) (r : list text) :
  join [","%char] (x :: y :: r) = x ++ ","%char :: join [","%char] (y :: r).
Proof. reflexivity. Qed.

(** Evaluates the character tests on literal characters in the goal. *)
Ltac eval_chars_once :=
  match goal with
  | |- context [is_char ?a ?b] =>
      let r := eval vm_compute in (is_char a b) in
      match r with true => idtac | false => idtac end;
      change (is_char a b) with r
  | |- context [is_json_ws ?a] =>
      let r := eval vm_compute in (is_json_ws a) in
      match r with true => idtac | false => idtac end;
      change (is_json_ws a) with r
  end.

Ltac eval_chars :=
  repeat first
    [ progress (rewrite <- !app_assoc)
    | progress (cbn [app skip_ws])
    | eval_chars_once
    | progress (cbv iota) ].

Lemma elements_read_back l :
  l <> [] -> Forall reads_back l ->
  forall fuel rest,
    length (elements_text l) + 1 <= fuel ->
    elements fuel (elements_text l ++ "]"%char :: rest) = Some (l, rest).
Proof.
  unfold elements_text.
  induction l as [|v l IH]; [done|]. intros _ [Hv Hl]%Forall_cons fuel rest Hlen.
  destruct fuel as [|fuel]; [lia|]. rewrite elements_S.
  destruct l as [|v2 l].
  - cbn [map join] in *. rewrite Hv; [|lia|reflexivity]. by eval_chars.
  - cbn [map] in *. rewrite join_cons in *. rewrite length_app in Hlen.
    cbn [length] in Hlen. rewrite <- app_assoc. cbn [app].
    rewrite Hv; [|lia|reflexivity]. eval_chars.
    rewrite IH; [done|done|done|lia].
Qed.

Lemma members_read_back o :
  o <> [] ->
  Forall (fun kv => plain (fst kv) = true /\ reads_back (snd kv)) o ->
  forall acc fuel rest,
    length (members_text o) + 1 <= fuel ->
    members fuel (members_text o ++ "}"%char :: rest) acc
      = Some (JObject (fold_left (fun o kv => put (fst kv) (snd kv) o) o acc),
              rest).
Proof.
  unfold members_text.
  induction o as [|[k v] o IH]; [done|].
  intros _ [[Hk Hv] Ho]%Forall_cons acc fuel rest Hlen.
  cbn [fst snd] in Hk, Hv.
  destruct fuel as [|fuel]; [lia|]. rewrite members_S.
  destruct o as [|kv2 o].
  - cbn [map join fold_left fst snd] in *. unfold member_text in *.
    cbn [fst snd] in *. rewrite quote_plain in * by done.
    rewrite !length_app in Hlen. cbn [length] in Hlen.
    eval_chars. rewrite string_body_plain by done. eval_chars.
    rewrite Hv; [|lia|reflexivity]. by eval_chars.
  - cbn [map fold_left] in *. rewrite join_cons in *.
    unfold member_text at 1. unfold member_text at 1 in Hlen.
    cbn [fst snd] in *. rewrite quote_plain in * by done.
    rewrite !length_app in Hlen. cbn [length] in Hlen.
    rewrite !length_app in Hlen. cbn [length] in Hlen.
    eval_chars. rewrite string_body_plain by done. eval_chars.
    rewrite Hv; [|lia|reflexivity]. eval_chars.
    rewrite IH; [done|done|done|lia].
Qed.

Lemma elements_text_first l :
  l <> [] -> forallb stable_numbers l = true ->
  exists c t, elements_text l = c :: t /\ is_start c = true.
Proof.
  unfold elements_text. destruct l as [|v l]; [done|]. intros _ H.
  cbn [forallb] in H. bools.
  destruct (stringify_first v) as (c & t & Heq & Hc); [done|].
  destruct l as [|v2 l]; cbn [map].
  - cbn [join]. eauto.
  - rewrite join_cons, Heq. cbn [app]. eauto.
Qed.

Lemma members_text_first o :
  o <> [] -> exists t, members_text o = dquote :: t.
Proof.
  unfold members_text. destruct o as [|kv o]; [done|]. intros _.
  destruct o as [|kv2 o]; cbn [map].
  - cbn [join]. unfold member_text, Quote. cbn [app]. eauto.
  - rewrite join_cons. unfold member_text at 1. unfold Quote. cbn [app]. eauto.
Qed.

Lemma stringify_reads_back v :
  good v -> stable_numbers v = true -> reads_back v.
Proof.
  induction v as [|b|x|s|l IH|o IH] using json_nested_ind;
    intros Hgood Hstable fuel rest Hlen Hstop.
  - destruct fuel as [|fuel]; [cbn in Hlen; lia|]. reflexivity.
  - destruct fuel as [|fuel]; [destruct b; cbn in Hlen; lia|].
    destruct b; reflexivity.
  - cbn [stable_numbers] in Hstable.
    apply stable_number_spec in Hstable as [Hfin Hlit].
    cbn [JSON_stringify] in *. rewrite Hfin in *.
    destruct (number_lit_first _ _ _ Hlit) as (c & t & Heq & Hc).
    destruct (number_start _ Hc) as (Hs & H1 & H2 & H3).
    destruct (start_char_facts _ Hs) as (Hws & _).
    destruct fuel as [|fuel]; [rewrite Heq in Hlen; cbn in Hlen; lia|].
    rewrite value_S. rewrite Heq. cbn [app skip_ws]. rewrite Hws, H1, H2, H3, Hc.
    change (c :: t ++ rest) with ((c :: t) ++ rest). rewrite <- Heq.
    by rewrite (proj2 (number_lit_reads _ _ _ Hlit) rest (fun _ => Hstop)).
  - inversion Hgood as [| | |s' Hp| |]; subst.
    cbn [JSON_stringify] in *. rewrite quote_plain in * by done.
    destruct fuel as [|fuel]; [cbn in Hlen; lia|].
    rewrite value_S. eval_chars. by rewrite string_body_plain.
  - inversion Hgood as [| | | |l' Hl|]; subst. cbn [stable_numbers] in Hstable.
    rewrite stringify_array in *. cbn [length] in Hlen.
    rewrite length_app in Hlen. cbn [length] in Hlen.
    destruct fuel as [|fuel]; [lia|]. rewrite value_S. eval_chars.
    destruct l as [|v l]; [by eval_chars|].
    destruct (elements_text_first (v :: l)) as (c & t & Heq & Hc); [done..|].
    destruct (start_char_facts _ Hc) as (Hws & Hb & _).
    rewrite Heq. cbn [app skip_ws]. rewrite Hws, Hb.
    change (c :: t ++ "]"%char :: rest) with ((c :: t) ++ "]"%char :: rest).
    rewrite <- Heq. rewrite elements_read_back; [done|done| |lia].
    rewrite Forall_forall in IH, Hl |- *. intros e He.
    apply IH; [done|by apply Hl|].
    rewrite forallb_forall in Hstable. by apply Hstable, list_elem_of_In.
  - inversion Hgood as [| | | | |o' Hc Ho]; subst. cbn [stable_numbers] in Hstable.
    rewrite stringify_object in *. cbn [length] in Hlen.
    rewrite length_app in Hlen. cbn [length] in Hlen.
    destruct fuel as [|fuel]; [lia|]. rewrite value_S. eval_chars.
    destruct o as [|kv o]; [by eval_chars|].
    destruct (members_text_first (kv :: o)) as (t & Heq); [done|].
    rewrite Heq. eval_chars.
    change (dquote :: t ++ "}"%char :: rest)
      with ((dquote :: t) ++ "}"%char :: rest).
    rewrite <- Heq. rewrite members_read_back; [|done| |lia].
    + by rewrite (rebuild [] (kv :: o)).
    + rewrite Forall_forall in IH, Ho |- *. intros e He.
      destruct (Ho e He) as [Hk Hv]. split; [done|].
      apply IH; [done|done|].
      rewrite forallb_forall in Hstable. by apply Hstable, list_elem_of_In.
Qed.

(** ** Decoding twice *)

Lemma clean_join (l : list text) :
  Forall clean l -> clean (join [","%char] l).
Proof.
  induction l as [|x l IH]; intros H; [constructor|].
  apply Forall_cons in H as [Hx Hl]. destruct l as [|y l]; [done|].
  rewrite join_cons. apply Forall_app. split; [done|].
  apply Forall_cons. split; [done|]. by apply IH.
Qed.

(** The text of a good value with stable numbers holds no backslash. *)
Lemma stringify_clean v :
  good v -> stable_numbers v = true -> clean (JSON_stringify v).
Proof.
  induction v as [|b|x|s|l IH|o IH] using json_nested_ind; intros Hgood Hstable.
  - by repeat constructor.
  - destruct b; by repeat constructor.
  - apply stable_number_spec in Hstable as [Hfin Hlit].
    cbn [JSON_stringify]. rewrite Hfin.
    destruct (number_lit_reads _ _ _ Hlit) as ((c & -> & Hc) & _).
    rewrite app_nil_r. apply Forall_forall. intros a Ha.
    rewrite forallb_forall in Hc. apply list_elem_of_In, Hc in Ha.
    by apply number_char_facts in Ha as (_ & ? & _).
  - inversion Hgood as [| | |s' Hp| |]; subst.
    cbn [JSON_stringify]. rewrite quote_plain by done.
    apply Forall_cons. split; [done|]. apply Forall_app.
    split; [by apply plain_clean|by repeat constructor].
  - inversion Hgood as [| | | |l' Hl|]; subst. cbn [stable_numbers] in Hstable.
    rewrite stringify_array. apply Forall_cons. split; [done|].
    apply Forall_app. split; [|by repeat constructor].
    apply clean_join. apply Forall_forall.
    intros t (e & <- & He)%list_elem_of_In%in_map_iff.
    rewrite Forall_forall in IH, Hl. apply list_elem_of_In in He.
    apply IH; [done|by apply Hl|].
    rewrite forallb_forall in Hstable. by apply Hstable, list_elem_of_In.
  - inversion Hgood as [| | | | |o' Hc Ho]; subst. cbn [stable_numbers] in Hstable.
    rewrite stringify_object. apply Forall_cons. split; [done|].
    apply Forall_app. split; [|by repeat constructor].
    apply clean_join. apply Forall_forall.
    intros t (e & <- & He)%list_elem_of_In%in_map_iff.
    rewrite Forall_forall in IH, Ho. apply list_elem_of_In in He.
    destruct (Ho e He) as [Hk Hv]. unfold member_text.
    rewrite quote_plain by done. cbn [app]. rewrite <- app_assoc. cbn [app].
    apply Forall_cons. split; [done|].
    apply Forall_app. split; [by apply plain_clean|].
    apply Forall_cons. split; [done|]. apply Forall_cons. split; [done|].
    apply IH; [done|done|].
    rewrite forallb_forall in Hstable. by apply Hstable, list_elem_of_In.
Qed.

(** The text of a value ends with a character that [trim] keeps. *)
Lemma stringify_last v :
  stable_numbers v = true ->
  exists t c, JSON_stringify v = t ++ [c] /\ is_trim_space c = false.
Proof.
  destruct v as [|[]|x|s|l|o]; cbn [stable_numbers]; intros Hstable.
  - by exists (chars "nul"), "l"%char.
  - by exists (chars "tru"), "e"%char.
  - by exists (chars "fals"), "e"%char.
  - apply stable_number_spec in Hstable as [Hfin Hlit].
    cbn [JSON_stringify]. rewrite Hfin.
    destruct (number_lit_first _ _ _ Hlit) as (c0 & t0 & Heq & _).
    destruct (number_lit_reads _ _ _ Hlit) as ((cs & Hcs & Hc) & _).
    rewrite app_nil_r in Hcs. subst cs.
    destruct (exists_last (l := Number_toString x)) as (t & c & Hl);
      [by rewrite Heq|].
    exists t, c. split; [done|]. rewrite Hl, forallb_app in Hc. cbn in Hc.
    bools. by apply number_char_facts in H0 as (? & _).
  - exists (dquote :: flat_map quote_char (chars s)), dquote. done.
  - rewrite stringify_array. by exists ("["%char :: elements_text l), "]"%char.
  - rewrite stringify_object. by exists ("{"%char :: members_text o), "}"%char.
Qed.

(** Only the text of a string starts with a double quote. *)
Lemma stringify_first_quote v c t :
  stable_numbers v = true ->
  JSON_stringify v = c :: t -> typeof_string (Some v) = false ->
  is_char dquote c = false.
Proof.
  destruct v as [|[]|x|s|l|o]; cbn [stable_numbers typeof_string];
    intros Hstable Heq Hs; try done; try (by injection Heq as <- _).
  apply stable_number_spec in Hstable as [Hfin Hlit].
  cbn [JSON_stringify] in Heq. rewrite Hfin in Heq.
  destruct (number_lit_first _ _ _ Hlit) as (c0 & t0 & Heq0 & Hc).
  rewrite Heq in Heq0. injection Heq0 as <- <-.
  by apply number_start in Hc as (_ & _ & _ & ?).
Qed.

Lemma trim_keeps c t t' c' :
  c :: t = t' ++ [c'] -> is_trim_space c = false -> is_trim_space c' = false ->
  trim (c :: t) = c :: t.
Proof.
  intros Heq Hc Hc'. unfold trim, trim_end. cbn [trim_start]. rewrite Hc.
  rewrite Heq, rev_app_distr. cbn [rev app trim_start]. rewrite Hc'.
  change (c' :: rev t') with (rev [c'] ++ rev t').
  by rewrite <- rev_app_distr, rev_involutive.
Qed.

Lemma remove_backslashes_clean t : clean t -> remove_backslashes t = t.
Proof.
  unfold remove_backslashes. induction 1 as [|c t Hc Ht IH]; [done|].
  cbn [List.filter]. by rewrite Hc, IH.
Qed.

Lemma remove_backslashes_is_clean t : clean (remove_backslashes t).
Proof.
  unfold remove_backslashes, clean. apply Forall_forall.
  intros c [_ Hc]%list_elem_of_In%filter_In. by destruct (is_char backslash c).
Qed.

Lemma removelast_clean t : clean t -> clean (removelast t).
Proof.
  induction 1 as [|c t Hc Ht IH]; [constructor|].
  cbn. destruct t; [constructor|]. by constructor.
Qed.

Lemma prepare_clean raw : clean (prepare raw).
Proof.
  unfold prepare, strip_quotes.
  pose proof (remove_backslashes_is_clean (trim (chars raw))) as H.
  destruct (_ || _); [|done].
  unfold slice_1_m1. apply removelast_clean.
  destruct (remove_backslashes _); [done|]. by apply clean_tail in H.
Qed.

(** What [parseJson] returns is a good value. *)
Lemma parseJson_good name rawJson parsed :
  parseJson name rawJson = Ok parsed -> good parsed.
Proof.
  intros (raw & -> & _ & H)%parseJson_Ok_nonempty.
  unfold JSON_parse in H.
  destruct (value _ _) as [[v rest]|] eqn:V; [|done].
  destruct (skip_ws rest); [|done]. injection H as ->.
  by apply (parse_good _) in V as [? _]; [|apply prepare_clean].
Qed.

Lemma good_own_property v key x :
  good v -> own_property v key = Some x -> good x.
Proof.
  intros Hgood Hown. destruct v as [| | | |l|o]; cbn [own_property] in Hown;
    try done.
  - destruct (String.eqb key "length").
    { injection Hown as <-. constructor. apply number_of_decimal_valid. }
    destruct (array_index key); [|done]. apply nth_error_In in Hown.
    inversion Hgood as [| | | |l' Hl|]; subst.
    rewrite Forall_forall in Hl. by apply Hl, list_elem_of_In.
  - inversion Hgood as [| | | | |o' _ Ho]; subst. clear Hgood.
    induction Ho as [|[k v] o [_ Hv] Ho IH]; cbn [get] in Hown; [done|].
    destruct (String.eqb key k); [by injection Hown as <-|auto].
Qed.

(** A string without control characters is its own C string. *)
Lemma c_string_plain s : plain s = true -> c_string (chars s) = chars s.
Proof.
  unfold plain. induction (chars s) as [|c t IH]; [done|].
  cbn [forallb c_string]. intros [Hc Ht]%andb_prop. unfold plain_char in Hc.
  apply andb_prop in Hc as [[Hc _]%andb_prop _].
  apply negb_true_iff, N.ltb_ge in Hc.
  destruct (code c =? 0)%N eqn:E; [apply N.eqb_eq in E; lia|]. by rewrite IH.
Qed.

(** A string field of a decoded value is assigned as it is. *)
Lemma decoded_string name rawJson parsed key s :
  parseJson name rawJson = Ok parsed ->
  own_property parsed key = Some (JString s) ->
  env_value (chars s) = s.
Proof.
  intros Hparse%parseJson_good Hown.
  pose proof (good_own_property _ _ _ Hparse Hown) as Hs.
  inversion Hs as [| | |s' Hp| |]; subst.
  unfold env_value. by rewrite c_string_plain, str_chars.
Qed.

Lemma write_string v env key envVar name s :
  own_property v key = Some (JString s) ->
  variable_name envVar = Some name ->
  env_value (chars s) = s ->
  write v env (key, envVar) = <[name := s]> env.
Proof.
  intros Hown Hname Hs.
  rewrite (write_mappable _ _ _ _ _ (chars s) Hown eq_refl).
  rewrite (setenv_variable _ _ _ _ Hname). unfold env_value in Hs.
  by rewrite Hs.
Qed.

(** ** Default mappings and overrides *)

Ltac field_of Hverify kind name s H :=
  destruct (verify_required _ kind name Hverify) as [s H];
  [cbn [required_fields In]; tauto|].

Ltac run_writes :=
  unfold mapSecret;
  cbn [type database_mapping credentials_mapping kv_mapping ssh_mapping];
  match goal with Hv : verify _ _ = true |- _ => rewrite Hv end;
  cbn [negb]; rewrite mapEntries_all;
  [ match goal with
    | |- context [writes _ ?l _] =>
        let l' := eval vm_compute in l in change l with l'
    end;
    cbn [writes fold_left]
  | let e := fresh "e" in let Hin := fresh "Hin" in
    intros e Hin; vm_compute in Hin; unfold mappable;
    repeat (destruct Hin as [<-|Hin]; [cbn [fst]; by simplify_option_eq|]);
    done ].

(** The assignment of a decoded string field to a variable. *)
Ltac write_field Hparse H envVar :=
  rewrite (write_string _ _ _ envVar envVar _ H eq_refl
             (decoded_string _ _ _ _ _ Hparse H)).

(** C5: the handler that [database] builds for the override
    [{host: "CUSTOM_HOST"}] maps with the defaults merged with the
    override, field by field; the merge is made when the handler is built,
    and the handler is [createHandler] of the merged mapping.  On a
    well-formed payload it writes the host to [CUSTOM_HOST], leaves
    [DB_HOST] as it was, and writes the other five fields to their default
    variables. *)
Theorem database_host_override (name : string) (rawJson : option string)
    (parsed : json) (st : state) :
  parseJson name rawJson = Ok parsed ->
  verify parsed database_credentials = true ->
  let override := literal [("host", "CUSTOM_HOST")] in
  (forall (other : props string) (field : string),
      NoDup (map fst other) ->
      get field (envMapping (database_mapping other))
        = match get field other with
          | Some envVar => Some envVar
          | None => get field database_defaults
          end) /\
  method database (Some override)
    = createHandler
        {| type := database_credentials;
           envMapping :=
             [("engine", "DB_CONNECTION"); ("host", "CUSTOM_HOST");
              ("port", "DB_PORT"); ("username", "DB_USER");
              ("password", "DB_PASSWORD"); ("dbname", "DB_DATABASE")] |} /\
  exists engine host port username password dbname env',
    own_property parsed "engine" = Some (JString engine) /\
    own_property parsed "host" = Some (JString host) /\
    own_property parsed "port" = Some (JString port) /\
    own_property parsed "username" = Some (JString username) /\
    own_property parsed "password" = Some (JString password) /\
    own_property parsed "dbname" = Some (JString dbname) /\
    handle (method database (Some override)) name rawJson st
      = (None, with_env (remember name parsed st) env') /\
    env' = <["DB_DATABASE" := dbname]> (<["DB_PASSWORD" := password]>
             (<["DB_USER" := username]> (<["DB_PORT" := port]>
               (<["CUSTOM_HOST" := host]> (<["DB_CONNECTION" := engine]>
                 (process_env st)))))) /\
    env' !! "CUSTOM_HOST" = Some host /\
    env' !! "DB_HOST" = process_env st !! "DB_HOST".
Proof.
  intros Hparse Hverify override. split; [|split; [reflexivity|]].
  - intros other field Hnd. apply get_spread, Hnd.
  - field_of Hverify database_credentials "engine" engine He.
    field_of Hverify database_credentials "host" host Hh.
    field_of Hverify database_credentials "port" port Hp.
    field_of Hverify database_credentials "username" username Hu.
    field_of Hverify database_credentials "password" password Hpw.
    field_of Hverify database_credentials "dbname" dbname Hd.
    exists engine, host, port, username, password, dbname. eexists.
    do 6 (split; [done|]). split; [|split; [reflexivity|split]].
    + change (method database (Some override))
        with (createHandler (database_mapping override)).
      rewrite (proj1 (handle_decoded _ _ _ _ st Hparse)).
      subst override. run_writes. rewrite remember_env.
      write_field Hparse He "DB_CONNECTION". write_field Hparse Hh "CUSTOM_HOST".
      write_field Hparse Hp "DB_PORT". write_field Hparse Hu "DB_USER".
      write_field Hparse Hpw "DB_PASSWORD". write_field Hparse Hd "DB_DATABASE".
      done.
    + by simplify_map_eq.
    + by simplify_map_eq.
Qed.

Lemma database_host_override_witness :
  parseJson "DB" (Some database_payload) = Ok database_value /\
  verify database_value database_credentials = true /\
  exists env',
    handle (method database (Some (literal [("host", "CUSTOM_HOST")])))
      "DB" (Some database_payload) no_state
      = (None, with_env (remember "DB" database_value no_state) env') /\
    env' !! "CUSTOM_HOST" = Some "h" /\
    env' !! "DB_HOST" = None.
Proof.
  split; [vm_compute; reflexivity|]. split; [reflexivity|].
  destruct (database_host_override "DB" (Some database_payload) database_value
              no_state ltac:(vm_compute; reflexivity) eq_refl)
    as (_ & _ & engine & host & port & username & password & dbname & env'
        & _ & Hhost & _ & _ & _ & _ & Hrun & _ & Hcustom & Hdefault).
  exists env'. split; [exact Hrun|]. split.
  - rewrite Hcustom. by injection Hhost as <-.
  - exact Hdefault.
Defined.

(** C2, as the code has it: [credentials] and [database] have a non-empty
    default mapping, and their handlers built without an override write
    every default variable on a well-formed payload; [kv] and [ssh] have
    the empty default, and their handlers built without a mapping return
    normally and write nothing. *)
Theorem default_mappings (kind : SecretType) (name : string)
    (rawJson : option string) (parsed : json) (st : state) :
  parseJson name rawJson = Ok parsed ->
  verify parsed kind = true ->
  match kind with
  | basic_credentials =>
      envMapping (credentials_mapping [])
        = [("username", "USERNAME"); ("password", "PASSWORD")] /\
      exists username password,
        own_property parsed "username" = Some (JString username) /\
        own_property parsed "password" = Some (JString password) /\
        handle (method credentials None) name rawJson st
          = (None, with_env (remember name parsed st)
                     (<["PASSWORD" := password]>
                        (<["USERNAME" := username]> (process_env st))))
  | database_credentials =>
      envMapping (database_mapping [])
        = [("engine", "DB_CONNECTION"); ("host", "DB_HOST");
           ("port", "DB_PORT"); ("username", "DB_USER");
           ("password", "DB_PASSWORD"); ("dbname", "DB_DATABASE")] /\
      exists engine host port username password dbname,
        own_property parsed "engine" = Some (JString engine) /\
        own_property parsed "host" = Some (JString host) /\
        own_property parsed "port" = Some (JString port) /\
        own_property parsed "username" = Some (JString username) /\
        own_property parsed "password" = Some (JString password) /\
        own_property parsed "dbname" = Some (JString dbname) /\
        handle (method database None) name rawJson st
          = (None, with_env (remember name parsed st)
                     (<["DB_DATABASE" := dbname]> (<["DB_PASSWORD" := password]>
                        (<["DB_USER" := username]> (<["DB_PORT" := port]>
                           (<["DB_HOST" := host]> (<["DB_CONNECTION" := engine]>
                              (process_env st))))))))
  | key_value =>
      envMapping (kv_mapping []) = [] /\
      handle (method kv None) name rawJson st
        = (None, remember name parsed st)
  | ssh_key =>
      envMapping (ssh_mapping []) = [] /\
      handle (method ssh None) name rawJson st
        = (None, remember name parsed st)
  end.
Proof.
  intros Hparse Hverify. destruct kind.
  - split; [reflexivity|].
    field_of Hverify basic_credentials "username" username Hu.
    field_of Hverify basic_credentials "password" password Hpw.
    exists username, password. do 2 (split; [done|]).
    change (method credentials None) with (createHandler (credentials_mapping [])).
    rewrite (proj1 (handle_decoded _ _ _ _ st Hparse)).
    run_writes. rewrite remember_env.
    write_field Hparse Hu "USERNAME". write_field Hparse Hpw "PASSWORD". done.
  - split; [reflexivity|].
    field_of Hverify database_credentials "engine" engine He.
    field_of Hverify database_credentials "host" host Hh.
    field_of Hverify database_credentials "port" port Hp.
    field_of Hverify database_credentials "username" username Hu.
    field_of Hverify database_credentials "password" password Hpw.
    field_of Hverify database_credentials "dbname" dbname Hd.
    exists engine, host, port, username, password, dbname.
    do 6 (split; [done|]).
    change (method database None) with (createHandler (database_mapping [])).
    rewrite (proj1 (handle_decoded _ _ _ _ st Hparse)).
    run_writes. rewrite remember_env.
    write_field Hparse He "DB_CONNECTION". write_field Hparse Hh "DB_HOST".
    write_field Hparse Hp "DB_PORT". write_field Hparse Hu "DB_USER".
    write_field Hparse Hpw "DB_PASSWORD". write_field Hparse Hd "DB_DATABASE".
    done.
  - split; [reflexivity|].
    change (method kv None) with (createHandler (kv_mapping [])).
    rewrite (proj1 (handle_decoded _ _ _ _ st Hparse)).
    unfold mapSecret. cbn [type kv_mapping]. rewrite Hverify. cbn.
    apply f_equal, with_env_same.
  - split; [reflexivity|].
    change (method ssh None) with (createHandler (ssh_mapping [])).
    rewrite (proj1 (handle_decoded _ _ _ _ st Hparse)).
    unfold mapSecret. cbn [type ssh_mapping]. rewrite Hverify. cbn.
    apply f_equal, with_env_same.
Qed.

Lemma default_mappings_witness :
  parseJson "CREDS" (Some basic_payload) = Ok basic_value /\
  verify basic_value basic_credentials = true /\
  handle (method credentials None) "CREDS" (Some basic_payload) no_state
    = (None, {| process_env := <["PASSWORD" := "b"]> (<["USERNAME" := "a"]> ∅);
                secrets := <["CREDS" := basic_value]> ∅;
                secrets_proto := ObjectPrototype |}).
Proof.
  split; [vm_compute; reflexivity|]. split; [reflexivity|].
  destruct (default_mappings basic_credentials "CREDS" (Some basic_payload)
              basic_value no_state ltac:(vm_compute; reflexivity) eq_refl)
    as (_ & username & password & Hu & Hp & Hrun).
  rewrite Hrun. injection Hu as <-. injection Hp as <-. reflexivity.
Defined.

(** C2 as stated fails for [ssh_key]: the handler that [ssh] builds without
    a mapping has the empty mapping, and on a well-formed payload it
    returns normally with [process.env] still empty. *)
Lemma ssh_default_mapping_is_empty :
  envMapping (ssh_mapping (default [] None)) = [] /\
  parseJson "SSH" (Some ssh_payload) = Ok ssh_value /\
  verify ssh_value ssh_key = true /\
  handle (method ssh None) "SSH" (Some ssh_payload) no_state
    = (None, {| process_env := ∅; secrets := <["SSH" := ssh_value]> ∅;
                secrets_proto := ObjectPrototype |}).
Proof. repeat split; vm_compute; reflexivity. Qed.

(** The numbers of a good value that are finite and not [-0] are read back
    from their numerals. *)
Lemma writable_stable v :
  good v -> writable_numbers v = true -> stable_numbers v = true.
Proof.
  induction v as [|b|x|s|l IH|o IH] using json_nested_ind;
    cbn [writable_numbers stable_numbers]; intros Hgood; try done.
  - inversion Hgood as [| |x' Hx| | |]; subst.
    intros Hw. by apply stable_number_valid.
  - inversion Hgood as [| | | |l' Hl|]; subst.
    rewrite !forallb_forall. rewrite Forall_forall in IH, Hl.
    intros H e He. apply IH; [by apply list_elem_of_In| |by apply H].
    by apply Hl, list_elem_of_In.
  - inversion Hgood as [| | | | |o' _ Ho]; subst.
    rewrite !forallb_forall. rewrite Forall_forall in IH, Ho.
    intros H e He. apply IH; [by apply list_elem_of_In| |by apply H].
    by apply Ho, list_elem_of_In.
Qed.




(** Numbers that are not finite or are [-0] do not survive either: [1e400]
    is read as infinity and written as [null]; [-0] is written as [0]. *)
Example decode_twice_unstable_numbers :
  parseJson "S" (Some "1e400") = Ok (JNumber (S754_infinity false)) /\
  parseJson "S" (Some (str (JSON_stringify (JNumber (S754_infinity false)))))
    = Ok JNull /\
  parseJson "S" (Some "[-0]") = Ok (JArray [JNumber (S754_zero true)]) /\
  parseJson "S" (Some (str (JSON_stringify (JArray [JNumber (S754_zero true)]))))
    = Ok (JArray [JNumber (S754_zero false)]).
Proof. repeat split; vm_compute; reflexivity. Qed.

(** Numbers as they occur in payloads, and their numerals. *)
Example decode_twice_with_numbers :
  parseJson "S" (Some (dq "{'port':5432,'ratio':0.1,'big':1e21,'ok':true}"))
    = Ok (JObject [("port", JNumber (number_of_decimal false 5432 0));
                   ("ratio", JNumber (number_of_decimal false 1 (-1)));
                   ("big", JNumber (number_of_decimal false 1 21));
                   ("ok", JBool true)]) /\
  stable_numbers
    (JObject [("port", JNumber (number_of_decimal false 5432 0));
              ("ratio", JNumber (number_of_decimal false 1 (-1)));
              ("big", JNumber (number_of_decimal false 1 21));
              ("ok", JBool true)]) = true /\
  str (JSON_stringify
         (JObject [("port", JNumber (number_of_decimal false 5432 0));
                   ("ratio", JNumber (number_of_decimal false 1 (-1)));
                   ("big", JNumber (number_of_decimal false 1 21));
                   ("ok", JBool true)]))
    = dq "{'port':5432,'ratio':0.1,'big':1e+21,'ok':true}".
Proof. repeat split; vm_compute; reflexivity. Qed.

(** ** The parser never runs out of fuel

    [JSON_parse] gives its parser [2 * length t + 2] steps.  More would
    change nothing: a failure of [JSON_parse] is a syntax error. *)

Lemma suffix_le (rest t : text) : rest `suffix_of` t -> length rest <= length t.
Proof. intros [pre ->]. rewrite length_app. lia. Qed.

Lemma skip_ws_le t : length (skip_ws t) <= length t.
Proof. apply suffix_le, skip_ws_suffix. Qed.

Lemma cons_char_Some c r s rest :
  cons_char c r = Some (s, rest) -> exists s', r = Some (s', rest).
Proof. destruct r as [[s' rest']|]; cbn; [|done]. intros [= <- <-]. eauto. Qed.

Lemma string_body_le t s rest :
  string_body t = Some (s, rest) -> length rest <= length t.
Proof.
  remember (length t) as n eqn:Hn. assert (Hle : length t <= n) by lia.
  clear Hn. revert t s rest Hle.
  induction n as [|n IH]; intros [|c t] s rest Hle; try done.
  { cbn in Hle. lia. }
  cbn [length] in *. cbn [string_body].
  destruct (is_char dquote c).
  { intros [= <- <-]. lia. }
  destruct (is_char backslash c).
  - destruct t as [|e r1]; [done|].
    destruct (is_char "u" e).
    + destruct r1 as [|h1 [|h2 [|h3 [|h4 r2]]]]; try done.
      destruct (hex4 h1 h2 h3 h4) as [m|]; [|done].
      destruct (m <? 256)%N; [|done].
      intros (s' & H)%cons_char_Some. apply IH in H; cbn [length] in *; lia.
    + destruct (escape e); [|done].
      intros (s' & H)%cons_char_Some. apply IH in H; cbn [length] in *; lia.
  - destruct (code c <? 32)%N; [done|].
    intros (s' & H)%cons_char_Some. apply IH in H; lia.
Qed.

Lemma number_lit_le t x rest :
  number_lit t = Some (x, rest) -> length rest <= length t.
Proof.
  intros ((c & -> & _) & _)%number_lit_reads. rewrite length_app. lia.
Qed.

Lemma keyword_le t v rest :
  keyword t = Some (v, rest) -> length rest <= length t.
Proof.
  intros [[_ ->]|[[_ ->]|[_ ->]]]%keyword_spec; rewrite length_app; lia.
Qed.

Lemma parse_le fuel :
  (forall t v rest, value fuel t = Some (v, rest) ->
     length rest <= length t) /\
  (forall t l rest, elements fuel t = Some (l, rest) ->
     length rest <= length t) /\
  (forall t o v rest, members fuel t o = Some (v, rest) ->
     length rest <= length t).
Proof.
  induction fuel as [|fuel (IHv & IHe & IHm)]; [done|].
  split; [|split].
  - intros t v rest. rewrite value_S. pose proof (skip_ws_le t) as Ht.
    destruct (skip_ws t) as [|c r]; [done|]. cbn [length] in Ht.
    destruct (is_char "{" c).
    { pose proof (skip_ws_le r) as Hr.
      destruct (skip_ws r) as [|c' r']; [done|]. cbn [length] in Hr.
      destruct (is_char "}" c').
      - intros [= <- <-]. lia.
      - intros H%IHm. cbn [length] in H. lia. }
    destruct (is_char "[" c).
    { pose proof (skip_ws_le r) as Hr.
      destruct (skip_ws r) as [|c' r']; [done|]. cbn [length] in Hr.
      destruct (is_char "]" c').
      - intros [= <- <-]. lia.
      - destruct (elements fuel (c' :: r')) as [[l rest']|] eqn:E; [|done].
        intros [= <- <-]. apply IHe in E. cbn [length] in E. lia. }
    destruct (is_char dquote c).
    { destruct (string_body r) as [[s rest']|] eqn:S; [|done].
      intros [= <- <-]. apply string_body_le in S. lia. }
    destruct (is_digit c || is_char "-" c).
    { destruct (number_lit (c :: r)) as [[x rest']|] eqn:N; [|done].
      intros [= <- <-]. apply number_lit_le in N. cbn [length] in N. lia. }
    intros H%keyword_le. cbn [length] in H. lia.
  - intros t l rest. rewrite elements_S.
    destruct (value fuel t) as [[v r]|] eqn:V; [|done]. apply IHv in V.
    pose proof (skip_ws_le r) as Hr.
    destruct (skip_ws r) as [|c r']; [done|]. cbn [length] in Hr.
    destruct (is_char "," c).
    { destruct (elements fuel r') as [[l' rest']|] eqn:E; [|done].
      intros [= <- <-]. apply IHe in E. lia. }
    destruct (is_char "]" c); [|done]. intros [= <- <-]. lia.
  - intros t o v rest. rewrite members_S. pose proof (skip_ws_le t) as Ht.
    destruct (skip_ws t) as [|c r]; [done|]. cbn [length] in Ht.
    destruct (is_char dquote c); [|done].
    destruct (string_body r) as [[k r1]|] eqn:S; [|done].
    apply string_body_le in S. pose proof (skip_ws_le r1) as Hr1.
    destruct (skip_ws r1) as [|c1 r2]; [done|]. cbn [length] in Hr1.
    destruct (is_char ":" c1); [|done].
    destruct (value fuel r2) as [[v' r3]|] eqn:V; [|done]. apply IHv in V.
    pose proof (skip_ws_le r3) as Hr3.
    destruct (skip_ws r3) as [|c3 r4]; [done|]. cbn [length] in Hr3.
    destruct (is_char "," c3).
    { intros H%IHm. lia. }
    destruct (is_char "}" c3); [|done]. intros [= <- <-]. lia.
Qed.

Lemma fuel_step fuel :
  (forall t, 2 * length t + 1 <= fuel -> value (S fuel) t = value fuel t) /\
  (forall t, 2 * length t + 2 <= fuel -> elements (S fuel) t = elements fuel t) /\
  (forall t o, 2 * length t + 1 <= fuel ->
     members (S fuel) t o = members fuel t o).
Proof.
  induction fuel as [|fuel (IHv & IHe & IHm)].
  { split; [|split]; intros; lia. }
  split; [|split].
  - intros t Hlen. rewrite (value_S (S fuel)), (value_S fuel).
    pose proof (skip_ws_le t) as Ht.
    destruct (skip_ws t) as [|c r]; [done|]. cbn [length] in Ht.
    destruct (is_char "{" c).
    { pose proof (skip_ws_le r) as Hr.
      destruct (skip_ws r) as [|c' r']; [done|]. cbn [length] in Hr.
      destruct (is_char "}" c'); [done|]. apply IHm. cbn [length]. lia. }
    destruct (is_char "[" c); [|done].
    pose proof (skip_ws_le r) as Hr.
    destruct (skip_ws r) as [|c' r']; [done|]. cbn [length] in Hr.
    destruct (is_char "]" c'); [done|]. rewrite IHe; [done|]. cbn [length]. lia.
  - intros t Hlen. rewrite (elements_S (S fuel)), (elements_S fuel).
    rewrite IHv by lia.
    destruct (value fuel t) as [[v r]|] eqn:V; [|done].
    apply (proj1 (parse_le fuel)) in V. pose proof (skip_ws_le r) as Hr.
    destruct (skip_ws r) as [|c r']; [done|]. cbn [length] in Hr.
    destruct (is_char "," c); [|done]. rewrite IHe; [done|lia].
  - intros t o Hlen. rewrite (members_S (S fuel)), (members_S fuel).
    pose proof (skip_ws_le t) as Ht.
    destruct (skip_ws t) as [|c r]; [done|]. cbn [length] in Ht.
    destruct (is_char dquote c); [|done].
    destruct (string_body r) as [[k r1]|] eqn:S; [|done].
    apply string_body_le in S. pose proof (skip_ws_le r1) as Hr1.
    destruct (skip_ws r1) as [|c1 r2]; [done|]. cbn [length] in Hr1.
    destruct (is_char ":" c1); [|done]. rewrite IHv by lia.
    destruct (value fuel r2) as [[v' r3]|] eqn:V; [|done].
    apply (proj1 (parse_le fuel)) in V. pose proof (skip_ws_le r3) as Hr3.
    destruct (skip_ws r3) as [|c3 r4]; [done|]. cbn [length] in Hr3.
    destruct (is_char "," c3); [|done]. apply IHm. lia.
Qed.

(** The result of [JSON_parse] is the result of its parser with any larger
    amount of fuel. *)
Lemma JSON_parse_fuel t extra :
  value (2 * length t + 2 + extra) t = value (2 * length t + 2) t.
Proof.
  induction extra as [|extra IH]; [by rewrite Nat.add_0_r|].
  rewrite Nat.add_succ_r, <- IH. apply (proj1 (fuel_step _)). lia.
Qed.


(** * Further properties of the module *)

(** ** The effect of [mapSecret] *)

Lemma mapped_prefix_variables v entries x :
  In x (variables (mapped_prefix v entries)) -> In x (variables entries).
Proof.
  rewrite !In_variables. intros (e & He & Hx). exists e.
  split; [by apply mapped_prefix_incl in He|done].
Qed.

Lemma mapSecret_secrets v mapping st :
  secrets (snd (mapSecret v mapping st)) = secrets st /\
  secrets_proto (snd (mapSecret v mapping st)) = secrets_proto st.
Proof.
  rewrite mapSecret_normal. by destruct (verify v (type mapping)).
Qed.

(** X1: [mapSecret] assigns only the variables of its mapping and removes
    none: a variable that no target of the mapping names holds what it
    held, a variable that was set is still set, and the decoded-secret
    cache is not touched, whether [mapSecret] returns or throws.  A target
    names the variable that [setenv] sets for it: the one called by the
    target up to its first U+0000. *)
Theorem mapSecret_frame (secretValue : json) (mapping : SecretMapping)
    (st : state) :
  (forall name, ~ In name (assigned mapping) ->
     process_env (snd (mapSecret secretValue mapping st)) !! name
       = process_env st !! name) /\
  (forall name, is_Some (process_env st !! name) ->
     is_Some (process_env (snd (mapSecret secretValue mapping st)) !! name)) /\
  secrets (snd (mapSecret secretValue mapping st)) = secrets st /\
  secrets_proto (snd (mapSecret secretValue mapping st)) = secrets_proto st.
Proof.
  split; [|split; [|apply mapSecret_secrets]];
    rewrite mapSecret_normal; destruct (verify secretValue (type mapping));
    try done; cbn [snd with_env process_env].
  - intros x Hx. rewrite writes_lookup_written, written_None; [done|].
    intros H. apply Hx. by apply mapped_prefix_variables in H.
  - intros x Hx. rewrite writes_lookup_written.
    by destruct (written _ _ x).
Qed.

(** X2: on a validated value [mapSecret] returns normally exactly when
    every key of the mapping is an own property of the value that is not
    [null] and has a string conversion. *)
Theorem mapSecret_succeeds_iff (secretValue : json) (mapping : SecretMapping)
    (st : state) :
  verify secretValue (type mapping) = true ->
  fst (mapSecret secretValue mapping st) = None <->
  forall e, In e (Object_entries (envMapping mapping)) ->
    exists value s,
      own_property secretValue (fst e) = Some value /\ value <> JNull /\
      ToString value = Some s.
Proof.
  intros Hverify. rewrite mapSecret_normal, Hverify. cbn [fst].
  rewrite first_failure_None. split; intros H e He; apply mappable_own, H, He.
Qed.

Lemma mapSecret_succeeds_iff_witness :
  verify basic_value basic_credentials = true /\
  fst (mapSecret basic_value (credentials_mapping []) no_state) = None /\
  fst (mapSecret basic_value
         (credentials_mapping (literal [("token", "TOKEN")])) no_state) <> None.
Proof.
  split; [reflexivity|]. split.
  - apply (mapSecret_succeeds_iff basic_value (credentials_mapping []) no_state
             eq_refl).
    intros e [<-|[<-|[]]]; eexists _, _; repeat split; done.
  - intros H.
    apply (mapSecret_succeeds_iff basic_value
             (credentials_mapping (literal [("token", "TOKEN")])) no_state
             eq_refl) with (e := ("token", "TOKEN")) in H.
    + by destruct H as (value & s & [=] & _).
    + right. right. by left.
Defined.

(** X3: the last assignment wins.  When [mapSecret] returns normally and
    [(key, envVar)] is the last entry of the mapping that assigns the
    variable [name], the variable holds the string of the property [key],
    up to its first U+0000, whatever it held before and whatever earlier
    entries assigned to it. *)
Theorem mapSecret_last_write (secretValue : json) (mapping : SecretMapping)
    (st : state) (pre post : list (string * string))
    (key envVar name : string) :
  fst (mapSecret secretValue mapping st) = None ->
  Object_entries (envMapping mapping) = pre ++ (key, envVar) :: post ->
  variable_name envVar = Some name ->
  ~ In name (variables post) ->
  exists value s,
    own_property secretValue key = Some value /\ value <> JNull /\
    ToString value = Some s /\
    process_env (snd (mapSecret secretValue mapping st)) !! name
      = Some (env_value s).
Proof.
  rewrite mapSecret_normal. destruct (verify secretValue (type mapping));
    [|done].
  cbn [fst snd with_env process_env]. intros Hok Hentries Hname Hlast.
  rewrite first_failure_None in Hok. rewrite mapped_prefix_all by done.
  rewrite Hentries in *.
  assert (Hm : mappable secretValue key = true).
  { apply (Hok (key, envVar)). apply in_or_app. right. by left. }
  apply mappable_own in Hm as (value & s & Hown & Hnull & Hs).
  exists value, s. do 3 (split; [done|]).
  rewrite writes_lookup_written.
  by rewrite (written_entry _ pre key envVar post name value s).
Qed.

Lemma mapSecret_last_write_witness :
  fst (mapSecret basic_value shared_target_mapping busy_state) = None /\
  process_env (snd (mapSecret basic_value shared_target_mapping busy_state))
    !! "LOGIN" = Some "b".
Proof.
  split; [reflexivity|].
  destruct (mapSecret_last_write basic_value shared_target_mapping busy_state
              [("username", "LOGIN")] [] "password" "LOGIN" "LOGIN"
              eq_refl eq_refl eq_refl ltac:(by intros []))
    as (value & s & Hown & _ & Hs & Hlook).
  rewrite Hlook. injection Hown as <-. by injection Hs as <-.
Defined.

(** ** Handlers *)

Lemma with_env_with_env st env env' :
  with_env (with_env st env) env' = with_env st env'.
Proof. done. Qed.

Lemma set_prototype_with_env parsed st env :
  set_prototype parsed (with_env st env) = with_env (set_prototype parsed st) env.
Proof. by destruct parsed. Qed.

Lemma set_prototype_secrets parsed st :
  secrets (set_prototype parsed st) = secrets st.
Proof. by destruct parsed. Qed.

Lemma remember_with_env name parsed st env :
  remember name parsed (with_env st env) = with_env (remember name parsed st) env.
Proof.
  unfold remember. cbn [secrets secrets_proto with_env process_env].
  destruct (negb _); [done|]. destruct (secrets st !! name); [done|].
  destruct (secrets_proto st) as [| |p]; [apply set_prototype_with_env|done|].
  destruct (hasOwnProperty p name); [done|apply set_prototype_with_env].
Qed.

(** Under a name other than [__proto__] the assignment creates or
    overwrites the own property. *)
Lemma remember_other name parsed st :
  name <> "__proto__" ->
  remember name parsed st
    = {| process_env := process_env st;
         secrets := <[name := parsed]> (secrets st);
         secrets_proto := secrets_proto st |}.
Proof. intros H%String.eqb_neq. unfold remember. by rewrite H. Qed.

Lemma remember_twice name parsed st :
  name <> "__proto__" ->
  remember name parsed (remember name parsed st) = remember name parsed st.
Proof.
  intros H. rewrite !remember_other by done. cbn.
  by rewrite insert_insert_eq.
Qed.

Lemma remember_lookup_other name parsed st other :
  other <> name ->
  secrets (remember name parsed st) !! other = secrets st !! other.
Proof.
  intros H. unfold remember.
  assert (Hown : <[name := parsed]> (secrets st) !! other = secrets st !! other)
    by (by rewrite lookup_insert_ne).
  destruct (negb _); [done|]. destruct (secrets st !! name); [done|].
  destruct (secrets_proto st) as [| |p];
    [by rewrite set_prototype_secrets|done|].
  destruct (hasOwnProperty p name); [done|by rewrite set_prototype_secrets].
Qed.

(** An own property under another name, other than [__proto__], does not
    change what the assignment does. *)
Lemma remember_insert name parsed other value st :
  other <> name -> other <> "__proto__" ->
  remember name parsed
    {| process_env := process_env st;
       secrets := <[other := value]> (secrets st);
       secrets_proto := secrets_proto st |}
  = {| process_env := process_env (remember name parsed st);
       secrets := <[other := value]> (secrets (remember name parsed st));
       secrets_proto := secrets_proto (remember name parsed st) |}.
Proof.
  intros Hne Hproto. unfold remember. cbn [process_env secrets secrets_proto].
  rewrite lookup_insert_ne by done.
  assert (Hown :
    {| process_env := process_env st;
       secrets := <[name := parsed]> (<[other := value]> (secrets st));
       secrets_proto := secrets_proto st |}
    = {| process_env := process_env st;
         secrets := <[other := value]> (<[name := parsed]> (secrets st));
         secrets_proto := secrets_proto st |}).
  { f_equal. by apply insert_insert_ne. }
  assert (Hset :
    set_prototype parsed
      {| process_env := process_env st;
         secrets := <[other := value]> (secrets st);
         secrets_proto := secrets_proto st |}
    = {| process_env := process_env (set_prototype parsed st);
         secrets := <[other := value]> (secrets (set_prototype parsed st));
         secrets_proto := secrets_proto (set_prototype parsed st) |})
    by (by destruct parsed).
  destruct (negb _); [done|]. destruct (secrets st !! name); [done|].
  destruct (secrets_proto st) as [| |p]; [done|done|].
  by destruct (hasOwnProperty p name).
Qed.

(** Assignments under different names commute. *)
Lemma remember_commute n1 p1 n2 p2 st :
  n1 <> n2 ->
  remember n1 p1 (remember n2 p2 st) = remember n2 p2 (remember n1 p1 st).
Proof.
  intros Hne. destruct (decide (n2 = "__proto__")) as [H2|H2].
  - assert (H1 : n1 <> "__proto__") by congruence.
    rewrite (remember_other n1 p1 st H1), remember_insert by done.
    by rewrite (remember_other n1 p1 _ H1).
  - rewrite (remember_other n2 p2 st H2), remember_insert by done.
    by rewrite (remember_other n2 p2 _ H2).
Qed.

Lemma parseJson_absent name rawJson :
  rawJson = None \/ rawJson = Some EmptyString ->
  parseJson name rawJson = Throw (MissingPayload name).
Proof. by intros [-> | ->]. Qed.

(** X4: the required handler called without a payload, or with the empty
    string, throws [MissingPayload] for the secret's name and changes
    neither [process.env] nor the decoded-secret cache. *)
Theorem required_absent_throws (mapping : SecretMapping) (name : string)
    (rawJson : option string) (st : state) :
  rawJson = None \/ rawJson = Some EmptyString ->
  handle (createHandler mapping) name rawJson st
    = (Some (MissingPayload name), st).
Proof.
  intros H. cbn [handle createHandler]. by rewrite parseJson_absent.
Qed.

Lemma required_absent_throws_witness :
  handle (method database None) "DB" None busy_state
    = (Some (MissingPayload "DB"), busy_state).
Proof.
  apply (required_absent_throws (database_mapping []) "DB" None busy_state).
  by left.
Defined.

(** X5: a payload that [JSON.parse] refuses makes both handlers throw
    [InvalidJson] for the secret's name; nothing is cached and no variable
    is assigned. *)
Theorem invalid_json_changes_nothing (mapping : SecretMapping) (name raw : string)
    (st : state) :
  raw <> EmptyString ->
  JSON_parse (prepare raw) = None ->
  handle (createHandler mapping) name (Some raw) st
    = (Some (InvalidJson name), st) /\
  optional (createHandler mapping) name (Some raw) st
    = (Some (InvalidJson name), st).
Proof.
  intros Hne Hparse. apply String.eqb_neq in Hne.
  cbn [handle optional createHandler]. unfold parseJson.
  by rewrite Hne, Hparse.
Qed.

Lemma invalid_json_changes_nothing_witness :
  handle (method kv None) "KV" (Some broken_payload) busy_state
    = (Some (InvalidJson "KV"), busy_state) /\
  optional (method kv None) "KV" (Some broken_payload) busy_state
    = (Some (InvalidJson "KV"), busy_state).
Proof.
  apply (invalid_json_changes_nothing (kv_mapping []) "KV" broken_payload
           busy_state); [done|vm_compute; reflexivity].
Defined.

(** X6: on a payload that is present and not empty the optional handler
    does what the required handler does. *)
Theorem optional_as_required (mapping : SecretMapping) (name raw : string)
    (st : state) :
  raw <> EmptyString ->
  optional (createHandler mapping) name (Some raw) st
    = handle (createHandler mapping) name (Some raw) st.
Proof.
  intros Hne. apply String.eqb_neq in Hne.
  cbn [handle optional createHandler]. by rewrite Hne.
Qed.

Lemma optional_as_required_witness :
  optional (method credentials None) "CREDS" (Some basic_payload) busy_state
    = handle (method credentials None) "CREDS" (Some basic_payload) busy_state.
Proof.
  by apply (optional_as_required (credentials_mapping []) "CREDS" basic_payload
              busy_state).
Defined.

(** X7: the handler caches the decoded value before it validates it.
    Under a name other than [__proto__], once the payload has been decoded
    the cache holds the value under the secret's name, also when the
    handler then throws for a wrong shape or an unmappable field.  The
    entries of other names are kept.  Under the name [__proto__] a fresh
    cache holds nothing afterwards: the assignment reaches the setter of
    [Object.prototype], which makes a decoded object, array or [null] the
    prototype of the cache and ignores any other value; once the cache has
    no prototype or owns a property [__proto__], the value is cached under
    this name too. *)
Theorem decoded_value_is_cached (mapping : SecretMapping) (name : string)
    (rawJson : option string) (parsed : json) (st : state) :
  parseJson name rawJson = Ok parsed ->
  (name <> "__proto__" ->
     secrets (snd (handle (createHandler mapping) name rawJson st)) !! name
       = Some parsed /\
     secrets_proto (snd (handle (createHandler mapping) name rawJson st))
       = secrets_proto st) /\
  (forall other, other <> name ->
     secrets (snd (handle (createHandler mapping) name rawJson st)) !! other
       = secrets st !! other) /\
  (name = "__proto__" -> secrets st !! name = None ->
   secrets_proto st = ObjectPrototype ->
     secrets (snd (handle (createHandler mapping) name rawJson st))
       = secrets st /\
     secrets_proto (snd (handle (createHandler mapping) name rawJson st))
       = match parsed with
         | JNull => NullPrototype
         | JObject _ | JArray _ => ValuePrototype parsed
         | _ => ObjectPrototype
         end) /\
  (name = "__proto__" ->
   is_Some (secrets st !! name) \/ secrets_proto st = NullPrototype ->
     secrets (snd (handle (createHandler mapping) name rawJson st)) !! name
       = Some parsed /\
     secrets_proto (snd (handle (createHandler mapping) name rawJson st))
       = secrets_proto st).
Proof.
  intros Hparse. rewrite (proj1 (handle_decoded mapping _ _ _ st Hparse)).
  destruct (mapSecret_secrets parsed mapping (remember name parsed st))
    as [-> ->].
  split; [|split; [|split]].
  - intros Hname. rewrite remember_other by done. cbn [secrets secrets_proto].
    by rewrite lookup_insert_eq.
  - intros other Hother. by apply remember_lookup_other.
  - intros -> Hown Hproto. unfold remember.
    rewrite String.eqb_refl, Hown, Hproto. cbn [negb].
    by destruct parsed; destruct st; cbn in *; subst.
  - intros -> H. unfold remember. rewrite String.eqb_refl. cbn [negb].
    destruct H as [[v ->]|H].
    + cbn [secrets secrets_proto]. by rewrite lookup_insert_eq.
    + rewrite H. destruct (secrets st !! "__proto__");
        cbn [secrets secrets_proto]; by rewrite lookup_insert_eq.
Qed.

Lemma decoded_value_is_cached_witness :
  parseJson "DB" (Some database_payload_without_dbname)
    = Ok database_value_without_dbname /\
  fst (handle (method database None) "DB"
         (Some database_payload_without_dbname) busy_state)
    = Some (InvalidSecretShape database_credentials) /\
  secrets (snd (handle (method database None) "DB"
                  (Some database_payload_without_dbname) busy_state)) !! "DB"
    = Some database_value_without_dbname.
Proof.
  assert (Hparse : parseJson "DB" (Some database_payload_without_dbname)
                   = Ok database_value_without_dbname)
    by (vm_compute; reflexivity).
  split; [exact Hparse|]. split; [vm_compute; reflexivity|].
  apply (proj1 (decoded_value_is_cached (database_mapping []) "DB"
                  (Some database_payload_without_dbname)
                  database_value_without_dbname busy_state Hparse)).
  done.
Defined.

(** The prototype of the cache counts: a fresh instance called twice under
    the name [__proto__] with the payload [null] first loses the prototype
    of its cache and then caches the value. *)
Example proto_payload_twice :
  handle (method kv None) "__proto__" (Some "null") no_state
    = (Some (InvalidSecretShape key_value),
       {| process_env := ∅; secrets := ∅; secrets_proto := NullPrototype |}) /\
  handle (method kv None) "__proto__" (Some "null")
      {| process_env := ∅; secrets := ∅; secrets_proto := NullPrototype |}
    = (Some (InvalidSecretShape key_value),
       {| process_env := ∅; secrets := <["__proto__" := JNull]> ∅;
          secrets_proto := NullPrototype |}).
Proof. split; vm_compute; reflexivity. Qed.

(** What a call of a handler does to the state: it makes the assignments
    of some entries of its mapping and may assign one value to the cache. *)
Lemma handle_effect mapping name rawJson :
  exists out v l upd,
    (forall x, In x (variables l) -> In x (assigned mapping)) /\
    forall st,
      handle (createHandler mapping) name rawJson st
        = (out,
           with_env (match upd with
                     | Some p => remember name p st
                     | None => st
                     end)
             (writes v l (process_env st))).
Proof.
  destruct (parseJson name rawJson) as [parsed|e] eqn:Hparse.
  - destruct (verify parsed (type mapping)) eqn:Hverify.
    + exists (first_failure parsed (type mapping)
                (Object_entries (envMapping mapping))),
        parsed, (mapped_prefix parsed (Object_entries (envMapping mapping))),
        (Some parsed).
      split; [intros x; apply mapped_prefix_variables|].
      intros st. rewrite (proj1 (handle_decoded mapping _ _ _ st Hparse)).
      by rewrite mapSecret_normal, Hverify, remember_env.
    + exists (Some (InvalidSecretShape (type mapping))), parsed, [], (Some parsed).
      split; [by intros x []|].
      intros st. rewrite (proj1 (handle_decoded mapping _ _ _ st Hparse)).
      rewrite mapSecret_normal, Hverify. cbn [writes fold_left].
      by rewrite <- (remember_env name parsed st), with_env_same.
  - exists (Some e), JNull, [], None. split; [by intros x []|].
    intros st. cbn [handle createHandler]. rewrite Hparse.
    cbn [writes fold_left]. by rewrite with_env_same.
Qed.

(** X8: under a name other than [__proto__] a handler is idempotent.
    Called a second time with the same name and payload, it has the same
    outcome and leaves the state it left the first time. *)
Theorem handler_idempotent (mapping : SecretMapping) (name : string)
    (rawJson : option string) (st : state) :
  name <> "__proto__" ->
  handle (createHandler mapping) name rawJson
    (snd (handle (createHandler mapping) name rawJson st))
  = handle (createHandler mapping) name rawJson st.
Proof.
  intros Hname.
  destruct (handle_effect mapping name rawJson) as (out & v & l & upd & _ & H).
  rewrite !H. cbn [snd process_env with_env]. rewrite writes_twice. f_equal.
  destruct upd as [p|]; [|done].
  by rewrite remember_with_env, remember_twice.
Qed.

Lemma handler_idempotent_witness :
  handle (method credentials None) "CREDS" (Some basic_payload)
    (snd (handle (method credentials None) "CREDS" (Some basic_payload)
            busy_state))
  = handle (method credentials None) "CREDS" (Some basic_payload) busy_state.
Proof.
  by apply (handler_idempotent (credentials_mapping []) "CREDS"
              (Some basic_payload) busy_state).
Defined.

(** X9: handlers for different secrets whose mappings assign no common
    variable commute: in either order they leave the same state, and the
    outcome of each is the one it has when called alone.  Two targets name
    one variable when they are equal up to their first U+0000. *)
Theorem handlers_commute (m1 m2 : SecretMapping) (n1 n2 : string)
    (r1 r2 : option string) (st : state) :
  n1 <> n2 ->
  (forall name, In name (assigned m1) -> ~ In name (assigned m2)) ->
  snd (handle (createHandler m2) n2 r2 (snd (handle (createHandler m1) n1 r1 st)))
    = snd (handle (createHandler m1) n1 r1
             (snd (handle (createHandler m2) n2 r2 st))) /\
  fst (handle (createHandler m2) n2 r2 (snd (handle (createHandler m1) n1 r1 st)))
    = fst (handle (createHandler m2) n2 r2 st) /\
  fst (handle (createHandler m1) n1 r1 (snd (handle (createHandler m2) n2 r2 st)))
    = fst (handle (createHandler m1) n1 r1 st).
Proof.
  intros Hname Hdis.
  destruct (handle_effect m1 n1 r1) as (out1 & v1 & l1 & upd1 & Hl1 & H1).
  destruct (handle_effect m2 n2 r2) as (out2 & v2 & l2 & upd2 & Hl2 & H2).
  rewrite !H1, !H2. cbn [fst snd process_env with_env]. rewrite ?H1, ?H2.
  cbn [fst snd process_env with_env]. split; [|done].
  rewrite (writes_commute v2 l2 v1 l1).
  2: { intros x Hx Hx'. by apply (Hdis x); [apply Hl1|apply Hl2]. }
  destruct upd1 as [p1|], upd2 as [p2|];
    rewrite ?remember_with_env, ?with_env_with_env; try done.
  by rewrite remember_commute.
Qed.

Lemma handlers_commute_witness :
  snd (handle (method ssh (Some (literal [("ssh_private_key", "SSH_KEY")])))
         "SSH" (Some ssh_payload)
         (snd (handle (method database None) "DB" (Some database_payload)
                 busy_state)))
    = snd (handle (method database None) "DB" (Some database_payload)
             (snd (handle (method ssh (Some (literal [("ssh_private_key", "SSH_KEY")])))
                     "SSH" (Some ssh_payload) busy_state))).
Proof.
  apply (handlers_commute (database_mapping [])
           (ssh_mapping (literal [("ssh_private_key", "SSH_KEY")]))
           "DB" "SSH" (Some database_payload) (Some ssh_payload) busy_state).
  - done.
  - intros x Hx [<-|[]]. vm_compute in Hx.
    repeat (destruct Hx as [Hx|Hx]; [done|]). done.
Defined.

(** ** [verify] *)

Lemma array_own_field l field :
  In field ["username"; "password"; "engine"; "host"; "dbname"; "port";
            "ssh_private_key"] ->
  own_property (JArray l) field = None.
Proof.
  intros H. cbn in H.
  repeat (destruct H as [<-|H]; [reflexivity|]). done.
Qed.

(** X10: [verify] accepts objects only, and arrays for [key_value] only:
    a string, a number, a boolean or [null] fails every shape, and an
    array fails every shape with fixed fields. *)
Theorem verify_accepts_objects (secretValue : json) (type : SecretType) :
  verify secretValue type = true ->
  (exists o, secretValue = JObject o) \/
  (type = key_value /\ exists l, secretValue = JArray l).
Proof.
  unfold verify. destruct secretValue as [|b|x|s|l|o]; cbn [typeof_object
    is_null negb orb]; try done.
  - destruct type; cbn [member]; intros H.
    + by rewrite array_own_field in H by (cbn; tauto).
    + by rewrite array_own_field in H by (cbn; tauto).
    + right. eauto.
    + by rewrite array_own_field in H by (cbn; tauto).
  - intros _. left. eauto.
Qed.

Lemma verify_accepts_objects_witness :
  verify (JArray [JString "a"; JString "b"]) key_value = true /\
  verify (JArray [JString "a"; JString "b"]) basic_credentials = false /\
  ((exists o, JArray [JString "a"; JString "b"] = JObject o) \/
   (key_value = key_value /\
    exists l, JArray [JString "a"; JString "b"] = JArray l)).
Proof.
  split; [reflexivity|]. split; [reflexivity|].
  apply (verify_accepts_objects (JArray [JString "a"; JString "b"]) key_value
           eq_refl).
Defined.

(** X11: [verify] reads the fields of the shape and nothing else: for a
    shape with fixed fields, creating or replacing a property under any
    other key leaves the answer of [verify] as it was. *)
Theorem verify_ignores_other_fields (o : props json) (type : SecretType)
    (key : string) (value : json) :
  has_fixed_fields type = true ->
  ~ In key (required_fields type) ->
  verify (JObject (put key value o)) type = verify (JObject o) type.
Proof.
  intros Hfixed Hkey. unfold verify. cbn [typeof_object is_null negb orb].
  unfold member. cbn [own_property].
  assert (Hget : forall field, In field (required_fields type) ->
                   get field (put key value o) = get field o).
  { intros field Hin. rewrite get_put.
    destruct (String.eqb field key) eqn:E; [|done].
    apply String.eqb_eq in E as ->. done. }
  destruct type; try done; cbn [required_fields] in Hget;
    rewrite ?Hget by (cbn; tauto); done.
Qed.

Lemma verify_ignores_other_fields_witness :
  verify database_value_with_extra database_credentials = true.
Proof.
  change database_value_with_extra
    with (JObject (put "sslmode" (JBool true)
                     [("engine", JString "pg"); ("username", JString "u");
                      ("password", JString "p"); ("host", JString "h");
                      ("dbname", JString "d"); ("port", JString "5432")])).
  rewrite (verify_ignores_other_fields _ database_credentials "sslmode"
             (JBool true) eq_refl).
  - reflexivity.
  - cbn. intros H. repeat (destruct H as [H|H]; [discriminate|]). done.
Defined.

(** X12: [verify] decides the shapes of [types.ts].  It accepts a value
    exactly when the value is an object or an array, every field of the
    shape is an own property holding a string, and, for [key_value], every
    own enumerable value is a string. *)
Theorem verify_decides_shape (secretValue : json) (type : SecretType) :
  verify secretValue type = true <->
  typeof_object secretValue = true /\ is_null secretValue = false /\
  (forall field, In field (required_fields type) ->
     exists s, own_property secretValue field = Some (JString s)) /\
  (type = key_value ->
     forall x, In x (values_of secretValue) -> exists s, x = JString s).
Proof.
  split.
  - intros H. destruct (verify_object _ _ H) as [Hobj Hnull].
    split; [done|]. split; [done|]. split.
    + intros field. by apply verify_required.
    + intros ->. unfold verify in H. rewrite Hobj, Hnull in H.
      cbn [negb orb] in H. rewrite forallb_forall in H.
      intros x Hx. specialize (H x Hx). by apply typeof_string_Some in H as [s [= ->]]; eauto.
  - intros (Hobj & Hnull & Hfields & Hvalues). unfold verify.
    rewrite Hobj, Hnull. cbn [negb orb]. unfold member.
    destruct type; cbn [required_fields] in Hfields.
    + destruct (Hfields "username") as [? ->]; [cbn; tauto|].
      destruct (Hfields "password") as [? ->]; [cbn; tauto|]. done.
    + destruct (Hfields "engine") as [? ->]; [cbn; tauto|].
      destruct (Hfields "username") as [? ->]; [cbn; tauto|].
      destruct (Hfields "password") as [? ->]; [cbn; tauto|].
      destruct (Hfields "host") as [? ->]; [cbn; tauto|].
      destruct (Hfields "dbname") as [? ->]; [cbn; tauto|].
      destruct (Hfields "port") as [? ->]; [cbn; tauto|]. done.
    + apply forallb_forall. intros x Hx.
      by destruct (Hvalues eq_refl x Hx) as [s ->].
    + destruct (Hfields "ssh_private_key") as [? ->]; [cbn; tauto|]. done.
Qed.

Lemma values_own_property v key x :
  own_property v key = Some x ->
  In x (values_of v) \/ exists l, v = JArray l /\ key = "length".
Proof.
  destruct v as [| | | |l|o]; cbn [own_property values_of]; try done.
  - destruct (String.eqb key "length") eqn:E.
    + apply String.eqb_eq in E. intros _. right. eauto.
    + destruct (array_index key); [|done]. intros H%nth_error_In. by left.
  - intros H. left. unfold Object_values.
    induction o as [|[k v] o IH]; cbn in *; [done|].
    destruct (String.eqb key k); [left; congruence|right; auto].
Qed.

(** X13: for [key_value] the only error of the projection is a missing
    key.  Once [verify] has accepted the value, no own property of it is
    [null], so [mapSecret] cannot throw [NullSecretField]: when it throws,
    it throws [MissingSecretField] for a key the value does not own. *)
Theorem key_value_fails_on_missing_key_only (secretValue : json)
    (mapping : SecretMapping) (st : state) (err : error) :
  type mapping = key_value ->
  verify secretValue key_value = true ->
  fst (mapSecret secretValue mapping st) = Some err ->
  exists key envVar,
    In (key, envVar) (Object_entries (envMapping mapping)) /\
    hasOwnProperty secretValue key = false /\
    err = MissingSecretField key key_value envVar.
Proof.
  intros Htype Hverify Hrun.
  rewrite mapSecret_normal, Htype, Hverify in Hrun. cbn [fst] in Hrun.
  assert (Hloop : mapEntries secretValue key_value
                    (Object_entries (envMapping mapping)) (process_env st)
                  = (Some err, writes secretValue
                       (mapped_prefix secretValue
                          (Object_entries (envMapping mapping)))
                       (process_env st)))
    by (by rewrite mapEntries_normal, Hrun).
  destruct (mapEntries_failure _ _ _ _ _ _ Hloop)
    as (pre & key & envVar & post & Hentries & _ & Hkey & -> & _).
  exists key, envVar. split; [rewrite Hentries; apply in_or_app; right; by left|].
  unfold mappable, failure, hasOwnProperty in *.
  destruct (own_property secretValue key) as [x|] eqn:Hown; [|done].
  exfalso.
  destruct (values_own_property _ _ _ Hown) as [Hin|(l & -> & ->)].
  - unfold verify in Hverify.
    destruct (negb (typeof_object secretValue) || is_null secretValue); [done|].
    rewrite forallb_forall in Hverify. specialize (Hverify x Hin).
    by apply typeof_string_Some in Hverify as [s [= ->]].
  - cbn in Hown. by injection Hown as <-.
Qed.

Lemma key_value_fails_on_missing_key_only_witness :
  verify kv_value key_value = true /\
  fst (mapSecret kv_value kv_mapping_with_missing_key no_state)
    = Some (MissingSecretField "region" key_value "REGION") /\
  exists key envVar,
    hasOwnProperty kv_value key = false /\
    MissingSecretField "region" key_value "REGION"
      = MissingSecretField key key_value envVar.
Proof.
  split; [reflexivity|]. split; [reflexivity|].
  destruct (key_value_fails_on_missing_key_only kv_value
              kv_mapping_with_missing_key no_state
              (MissingSecretField "region" key_value "REGION")
              eq_refl eq_refl eq_refl)
    as (key & envVar & _ & Hown & Herr).
  by exists key, envVar.
Defined.

(** ** [parseJson] *)

Lemma plain_chars s c :
  plain s = true -> In c (chars s) ->
  c <> backslash /\ c <> dquote /\ (32 <= code c)%N.
Proof.
  unfold plain. rewrite forallb_forall. intros H Hc.
  destruct (plain_char_facts _ (H c Hc)) as (Hq & Hb & Hl).
  apply is_char_neq in Hq, Hb. apply N.ltb_ge in Hl. by repeat split.
Qed.

(** X14: a decoded secret holds no backslash, no double quote and no
    control character in any string field: [parseJson] deletes every
    backslash before it parses, so no escape sequence is ever read. *)
Theorem decoded_fields_are_plain (name : string) (rawJson : option string)
    (parsed : json) (key s : string) (c : ascii) :
  parseJson name rawJson = Ok parsed ->
  own_property parsed key = Some (JString s) ->
  In c (chars s) ->
  c <> backslash /\ c <> dquote /\ (32 <= code c)%N.
Proof.
  intros Hparse Hown Hc. apply parseJson_good in Hparse.
  pose proof (good_own_property _ _ _ Hparse Hown) as Hs.
  inversion Hs as [| | |s' Hp| |]; subst. by apply (plain_chars s).
Qed.

Lemma decoded_fields_are_plain_witness :
  parseJson "S" (Some (dq "{'password':'a/b'}"))
    = Ok (JObject [("password", JString "a/b")]) /\
  "/"%char <> backslash /\ "/"%char <> dquote /\ (32 <= code "/")%N.
Proof.
  assert (Hparse : parseJson "S" (Some (dq "{'password':'a/b'}"))
                   = Ok (JObject [("password", JString "a/b")]))
    by (vm_compute; reflexivity).
  split; [exact Hparse|].
  apply (decoded_fields_are_plain "S" (Some (dq "{'password':'a/b'}"))
           (JObject [("password", JString "a/b")]) "password" "a/b" "/"%char
           Hparse eq_refl).
  right. by left.
Defined.

(** The escapes of a payload are not read: a password with a backslash and
    a double quote, escaped as JSON requires, does not parse. *)
Example escaped_payload_is_refused :
  parseJson "S" (Some escaped_payload) = Throw (InvalidJson "S").
Proof. vm_compute. reflexivity. Qed.

Lemma trim_start_blank ws t : blank ws = true -> trim_start (ws ++ t) = trim_start t.
Proof.
  unfold blank. induction ws as [|c ws IH]; cbn; [done|].
  intros H. bools. by rewrite H, IH.
Qed.

Lemma trim_start_all_blank ws : blank ws = true -> trim_start ws = [].
Proof.
  intros H. rewrite <- (app_nil_r ws). by rewrite trim_start_blank.
Qed.

Lemma blank_rev ws : blank ws = true -> blank (rev ws) = true.
Proof.
  unfold blank. rewrite !forallb_forall. intros H c Hc. apply H.
  by apply in_rev.
Qed.

Lemma trim_start_app t t' :
  trim_start t <> [] -> trim_start (t ++ t') = trim_start t ++ t'.
Proof.
  induction t as [|c t IH]; cbn; [done|].
  destruct (is_trim_space c); [apply IH|done].
Qed.

Lemma trim_blank ws t ws' :
  blank ws = true -> blank ws' = true -> trim (ws ++ t ++ ws') = trim t.
Proof.
  intros Hws Hws'. unfold trim, trim_end. rewrite trim_start_blank by done.
  destruct (trim_start t) as [|c r] eqn:Ht.
  - assert (Hall : forall t, trim_start t = [] -> blank t = true).
    { clear. unfold blank. induction t as [|c t IH]; cbn [trim_start forallb];
        [done|].
      destruct (is_trim_space c) eqn:E; [|done]. intros H. by rewrite IH. }
    assert (Hb : blank (t ++ ws') = true).
    { unfold blank in *. rewrite forallb_app. by rewrite (Hall t Ht), Hws'. }
    rewrite (trim_start_all_blank _ Hb). done.
  - rewrite trim_start_app by (by rewrite Ht). rewrite Ht.
    rewrite rev_app_distr. by rewrite trim_start_blank by (by apply blank_rev).
Qed.

(** X15: white space around a payload does not count: a payload between
    any white space of [trim] is decoded as the payload alone. *)
Theorem surrounding_space_is_ignored (name raw : string) (ws ws' : text) :
  blank ws = true -> blank ws' = true -> raw <> EmptyString ->
  parseJson name (Some (str (ws ++ chars raw ++ ws')))
    = parseJson name (Some raw).
Proof.
  intros Hws Hws' Hne. unfold parseJson.
  assert (Hne' : str (ws ++ chars raw ++ ws') <> EmptyString).
  { intros H. apply (f_equal chars) in H. rewrite chars_str in H.
    cbn in H. apply app_eq_nil in H as [_ H]. apply app_eq_nil in H as [H _].
    apply Hne. by rewrite <- (str_chars raw), H. }
  apply String.eqb_neq in Hne, Hne'. rewrite Hne, Hne'.
  unfold prepare. by rewrite chars_str, trim_blank.
Qed.

Lemma surrounding_space_is_ignored_witness :
  parseJson "S" (Some (str (chars "  " ++ chars basic_payload ++ chars " ")))
    = Ok basic_value.
Proof.
  rewrite (surrounding_space_is_ignored "S" basic_payload (chars "  ")
             (chars " ") eq_refl eq_refl); [|done].
  vm_compute. reflexivity.
Defined.

(** X16: a payload of white space only is present, not absent: the
    optional handler does not skip it, and both handlers throw
    [InvalidJson]. *)
Theorem blank_payload_is_invalid (mapping : SecretMapping) (name raw : string)
    (st : state) :
  raw <> EmptyString -> blank (chars raw) = true ->
  handle (createHandler mapping) name (Some raw) st
    = (Some (InvalidJson name), st) /\
  optional (createHandler mapping) name (Some raw) st
    = (Some (InvalidJson name), st).
Proof.
  intros Hne Hblank. apply String.eqb_neq in Hne.
  assert (Hprep : prepare raw = []).
  { unfold prepare, trim. by rewrite (trim_start_all_blank _ Hblank). }
  cbn [handle optional createHandler]. unfold parseJson.
  by rewrite Hne, Hprep.
Qed.

Lemma blank_payload_is_invalid_witness :
  optional (method database None) "DB" (Some "  ") busy_state
    = (Some (InvalidJson "DB"), busy_state).
Proof.
  by apply (blank_payload_is_invalid (database_mapping []) "DB" "  " busy_state).
Defined.

(** ** [set] and [exists] *)

Lemma exists_no_equals key st :
  no_equals key = true ->
  exists_ key st =
    match match variable_name key with
          | Some name => process_env st !! name
          | None => None
          end
    with
    | Some _ => true
    | None => existsb (String.eqb key) Object_prototype_names
    end.
Proof. intros H. unfold exists_. by rewrite getenv_variable. Qed.

(** X17: [exists] after [set].  When the assignment of [set] does not
    throw and [setenv] accepts the key, the variable the key names holds the
    converted value up to its first U+0000, and [exists] affirms the key;
    when [setenv] refuses the key, the environment is what it was.  For
    every key without [=], [exists] answers afterwards what it answered
    before, unless the key names the variable that was set. *)
Theorem exists_after_set (key key' : string) (value : json) (st : state)
    (env' : gmap string string) :
  BaseModule.set key value (process_env st) = Some env' ->
  (forall name, variable_name key = Some name ->
     exists s, ToString value = Some s /\
               env' !! name = Some (env_value s) /\
               exists_ key (with_env st env') = true) /\
  (variable_name key = None -> env' = process_env st) /\
  (no_equals key' = true ->
     exists_ key' (with_env st env') = same_variable key key' || exists_ key' st).
Proof.
  unfold BaseModule.set. destruct (ToString value) as [s|] eqn:Hs; [|done].
  intros [= <-]. split; [|split].
  - intros name Hname. exists s. split; [done|].
    rewrite (setenv_variable _ _ _ _ Hname). split.
    + by rewrite lookup_insert_eq.
    + rewrite exists_no_equals by (by apply variable_name_no_equals in Hname).
      rewrite Hname. cbn [process_env with_env]. by rewrite lookup_insert_eq.
  - apply setenv_refused.
  - intros Hkey'. rewrite !exists_no_equals by done.
    cbn [process_env with_env]. unfold same_variable.
    destruct (variable_name key) as [name|] eqn:Hname.
    + rewrite (setenv_variable _ _ _ _ Hname).
      destruct (variable_name key') as [name'|]; [|done].
      destruct (String.eqb name name') eqn:E.
      * apply String.eqb_eq in E as ->. by rewrite lookup_insert_eq.
      * apply String.eqb_neq in E. by rewrite lookup_insert_ne.
    + rewrite (setenv_refused _ _ _ Hname).
      by destruct (variable_name key').
Qed.

Lemma exists_after_set_witness :
  BaseModule.set "PORT" (JNumber (number_of_decimal false 8080 0))
      (process_env busy_state)
    = Some (<["PORT" := "8080"]> (process_env busy_state)) /\
  exists_ "PORT"
    (with_env busy_state (<["PORT" := "8080"]> (process_env busy_state)))
    = true.
Proof.
  assert (Hset :
    BaseModule.set "PORT" (JNumber (number_of_decimal false 8080 0))
        (process_env busy_state)
      = Some (<["PORT" := "8080"]> (process_env busy_state)))
    by (vm_compute; reflexivity).
  split; [exact Hset|].
  destruct (proj1 (exists_after_set "PORT" "PORT" _ busy_state _ Hset)
              "PORT" eq_refl) as (s & _ & _ & H).
  exact H.
Defined.

(** X18: after a handler has returned normally, every target of its
    mapping that [setenv] accepts names a variable that is set, and
    [exists] affirms the target; and [exists] affirms every key without
    [=] that it affirmed before the call. *)
Theorem exists_after_handler (mapping : SecretMapping) (name : string)
    (rawJson : option string) (st st' : state) :
  handle (createHandler mapping) name rawJson st = (None, st') ->
  (forall envVar variable,
     In envVar (targets mapping) -> variable_name envVar = Some variable ->
     is_Some (process_env st' !! variable) /\ exists_ envVar st' = true) /\
  (forall key, no_equals key = true ->
     exists_ key st = true -> exists_ key st' = true).
Proof.
  intros Hrun.
  destruct (parseJson name rawJson) as [parsed|e] eqn:Hparse.
  2: { cbn [handle createHandler] in Hrun. by rewrite Hparse in Hrun. }
  rewrite (proj1 (handle_decoded mapping _ _ _ st Hparse)) in Hrun.
  rewrite mapSecret_normal in Hrun.
  destruct (verify parsed (type mapping)); [|done].
  injection Hrun as Hok <-. rewrite first_failure_None in Hok.
  rewrite mapped_prefix_all by done. rewrite remember_env. split.
  - intros envVar variable ([key envVar'] & <- & Hin)%in_map_iff Hvar.
    cbn [snd] in *.
    destruct (writes_lookup parsed _ (process_env st) key envVar' variable
                Hok Hin Hvar)
      as (a & key' & envVar'' & b & value & s & _ & _ & _ & _ & _ & _ & Hlook).
    rewrite exists_no_equals by (by apply variable_name_no_equals in Hvar).
    rewrite Hvar. cbn [process_env with_env]. by rewrite Hlook.
  - intros key Hkey. rewrite !exists_no_equals by done.
    cbn [process_env with_env].
    destruct (variable_name key) as [variable|]; [|done].
    rewrite writes_lookup_written.
    by destruct (written parsed _ variable).
Qed.

Lemma exists_after_handler_witness :
  exists st',
    handle (method database None) "DB" (Some database_payload) busy_state
      = (None, st') /\
    exists_ "DB_HOST" st' = true /\ exists_ "PORT" st' = true.
Proof.
  eexists. split; [vm_compute; reflexivity|].
  match goal with
  | |- exists_ _ ?s = true /\ _ =>
      destruct (exists_after_handler (database_mapping []) "DB"
                  (Some database_payload) busy_state s
                  ltac:(vm_compute; reflexivity)) as [Htargets Hkept]
  end.
  split.
  - apply (Htargets "DB_HOST" "DB_HOST"); [vm_compute; tauto|reflexivity].
  - by apply Hkept.
Defined.

(** ** Defaults and overrides *)

Lemma In_spread {A : Type} (e : string * A) (o extra : props A) :
  In e (spread o extra) -> In e o \/ In e extra.
Proof.
  unfold spread. revert o. induction extra as [|[k v] extra IH]; intros o;
    cbn [fold_left fst snd]; [by left|].
  intros [[->|H]%In_put|H]%IH; [right; by left|by left|right; by right].
Qed.

Lemma spread_keeps {A : Type} (k : string) (o extra : props A) :
  is_Some (get k o) -> is_Some (get k (spread o extra)).
Proof.
  unfold spread. revert o. induction extra as [|[k' v] extra IH]; intros o Ho;
    cbn [fold_left fst snd]; [done|].
  apply IH. rewrite get_put. by destruct (String.eqb k k').
Qed.

(** X19: an override cannot remove a default.  For [database] and
    [credentials], whatever the override, every field of the shape stays
    mapped; and when the override names fields of the shape only, the
    handler returns normally on every well-formed payload. *)
Theorem overrides_within_shape (factory : props string -> SecretMapping)
    (override : props string) (name : string) (rawJson : option string)
    (parsed : json) (st : state) :
  factory = database_mapping \/ factory = credentials_mapping ->
  parseJson name rawJson = Ok parsed ->
  verify parsed (type (factory override)) = true ->
  (forall field, In field (required_fields (type (factory override))) ->
     is_Some (get field (envMapping (factory override)))) /\
  ((forall e, In e override ->
      In (fst e) (required_fields (type (factory override)))) ->
   fst (handle (method (makeSecretMethod factory) (Some override))
          name rawJson st) = None).
Proof.
  intros Hfactory Hparse Hverify.
  assert (Hdefaults :
    exists defaults,
      envMapping (factory override) = spread defaults override /\
      (forall field, In field (required_fields (type (factory override))) ->
         is_Some (get field defaults)) /\
      (forall e, In e defaults ->
         In (fst e) (required_fields (type (factory override))))).
  { destruct Hfactory as [-> | ->]; eexists; (split; [reflexivity|]); split.
    - intros field H. cbn in H.
      repeat (destruct H as [<-|H]; [by eexists|]). done.
    - intros e H. vm_compute in H.
      repeat (destruct H as [<-|H]; [cbn; tauto|]). done.
    - intros field H. cbn in H.
      repeat (destruct H as [<-|H]; [by eexists|]). done.
    - intros e H. vm_compute in H.
      repeat (destruct H as [<-|H]; [cbn; tauto|]). done. }
  destruct Hdefaults as (defaults & Heq & Hall & Hin). split.
  - intros field Hfield. rewrite Heq. by apply spread_keeps, Hall.
  - intros Hoverride.
    change (method (makeSecretMethod factory) (Some override))
      with (createHandler (factory override)).
    rewrite (proj1 (handle_decoded _ _ _ _ st Hparse)).
    rewrite mapSecret_normal, Hverify. cbn [fst].
    apply first_failure_None. intros e He. unfold Object_entries in He.
    rewrite Heq in He.
    assert (Hfield : In (fst e) (required_fields (type (factory override)))).
    { apply In_spread in He as [He|He]; [by apply Hin|by apply Hoverride]. }
    destruct (verify_required _ _ _ Hverify Hfield) as [s Hs].
    unfold mappable. by rewrite Hs.
Qed.

Lemma overrides_within_shape_witness :
  parseJson "DB" (Some database_payload) = Ok database_value /\
  fst (handle (method database
                 (Some (literal [("port", "PGPORT"); ("host", "PGHOST")])))
         "DB" (Some database_payload) busy_state) = None.
Proof.
  assert (Hparse : parseJson "DB" (Some database_payload) = Ok database_value)
    by (vm_compute; reflexivity).
  split; [exact Hparse|].
  apply (overrides_within_shape database_mapping
           (literal [("port", "PGPORT"); ("host", "PGHOST")]) "DB"
           (Some database_payload) database_value busy_state
           (or_introl eq_refl) Hparse eq_refl).
  intros e H. vm_compute in H.
  repeat (destruct H as [<-|H]; [cbn; tauto|]). done.
Defined.

(** ** Serialising for [parseJson] *)

(** X20: what [JSON.stringify] writes, [parseJson] reads.  A value whose
    numbers are binary64 values, finite and not [-0], whose strings and keys
    are made of code units in the range U+0000..U+00FF (none is a lone
    surrogate) other than the backslash, the double quote and the control
    characters, and whose objects have their keys in property order, is
    decoded from its own text, unless it is a string itself. *)
Theorem stringify_then_parseJson (name : string) (v : json) :
  good v ->
  writable_numbers v = true ->
  typeof_string (Some v) = false ->
  parseJson name (Some (str (JSON_stringify v))) = Ok v.
Proof.
  intros Hgood Hwritable Hnostring.
  pose proof (writable_stable _ Hgood Hwritable) as Hstable.
  destruct (stringify_first _ Hstable) as (c & t & Heq & Hc).
  destruct (stringify_last _ Hstable) as (t' & c' & Heq' & Hc').
  destruct (start_char_facts _ Hc) as (_ & _ & _ & _ & Htrim & Hsq & _).
  pose proof (stringify_first_quote _ _ _ Hstable Heq Hnostring) as Hdq.
  pose proof (stringify_clean _ Hgood Hstable) as Hclean.
  pose proof (stringify_reads_back _ Hgood Hstable
                (2 * length (JSON_stringify v) + 2) []) as Hread.
  rewrite app_nil_r in Hread. unfold parseJson, prepare, JSON_parse.
  rewrite chars_str, Heq in *.
  rewrite (trim_keeps c t t' c') by done.
  rewrite remove_backslashes_clean by done.
  unfold strip_quotes. cbn [startsWith]. rewrite Hdq, Hsq. cbn [andb orb].
  rewrite Hread; [done|lia|exact I].
Qed.

Lemma stringify_then_parseJson_witness :
  parseJson "S" (Some (str (JSON_stringify service_value))) = Ok service_value.
Proof.
  apply (stringify_then_parseJson "S" service_value);
    [|vm_compute; reflexivity|reflexivity].
  apply (parseJson_good "S" (Some service_payload)). vm_compute. reflexivity.
Defined.
